(** * ClickUp -> Monday sync: a shallow embedding of the orchestration core

    The development follows the TypeScript sources:
    - [lib/utils/rate-limiter.ts]: [RateLimiter], [ExponentialBackoff]
    - [lib/sync/batch-processor.ts]: [BatchProcessor]
    - [lib/replication/field-mapper.ts]: [FieldMapper]
    - [lib/sync/duplicate-checker.ts]: [DuplicateChecker]
    - the file-sync engine: [FileSyncEngine]
    - [lib/api/monday.ts]: [MondayAPI.searchItemsByName]
    - [lib/replication/list-replicator.ts]: [ListReplicator]
    - [database_schema.sql]: the tables [file_transfers], [task_mappings]

    Asynchronous code is written in a state-and-exception monad over a
    [World] that holds the persisted tables; remote services are oracles
    indexed by the number of remote calls made so far.  Loops that the
    source does not bound take fuel and answer [None] when it runs out.
    Wall-clock fields ([duration], timestamps) and console output are
    left out. *)

From Stdlib Require Import ZArith Lia Ascii String DecimalString.
From stdpp Require Import gmap strings list.

Local Open Scope string_scope.
Local Open Scope list_scope.
Local Open Scope Z_scope.

(* ===================================================================== *)
(** * Part I: definitions                                                 *)
(* ===================================================================== *)

(** ** JavaScript strings (ASCII fragment) *)

Module JsString.

(** [String.prototype.toLowerCase] on the ASCII letters. *)
Definition lower_ascii (c : ascii) : ascii :=
  let n := nat_of_ascii c in
  if ((65 <=? n)%nat && (n <=? 90)%nat)%bool then ascii_of_nat (n + 32) else c.

Fixpoint toLowerCase (s : string) : string :=
  match s with
  | EmptyString => EmptyString
  | String c s' => String (lower_ascii c) (toLowerCase s')
  end.

(** [s.includes(needle)]: [needle] occurs in [s] at some offset. *)
Fixpoint includes (s needle : string) : bool :=
  String.prefix needle s ||
  match s with
  | EmptyString => false
  | String _ s' => includes s' needle
  end.

(** [o?.includes(needle)] used as a condition: [undefined] is falsy. *)
Definition opt_includes (o : option string) (needle : string) : bool :=
  match o with
  | Some s => includes s needle
  | None => false
  end.

(** Template-literal rendering of an integer-valued number. *)
Definition show_Z (z : Z) : string := NilZero.string_of_int (Z.to_int z).

(** Template-literal rendering of a possibly [undefined] string. *)
Definition show_opt (o : option string) : string :=
  match o with
  | Some s => s
  | None => "undefined"
  end.

End JsString.

(** ** Errors and settled promises *)

(** A thrown value, through what the code reads of it: [message] and
    [code] are its properties of these names, read with optional
    chaining; [nonError] is [None] for an instance of [Error] and holds
    [String(value)] for any other value. *)
Record Error : Type := mkError {
  message : option string;
  code : option string;
  nonError : option string
}.

(** [new Error(msg)]. *)
Definition newError (msg : string) : Error :=
  {| message := Some msg; code := None; nonError := None |}.

(** [error instanceof Error ? error : new Error(String(error))] *)
Definition asError (error : Error) : Error :=
  match nonError error with
  | Some text => newError text
  | None => error
  end.

(** How an awaited call settles. *)
Inductive Outcome (A : Type) : Type :=
| Ok (a : A)
| Throw (e : Error).
Arguments Ok {A} a.
Arguments Throw {A} e.

(** ** rate-limiter.ts *)

Module RateLimiter.

Record RateLimiterConfig : Type := mkConfig {
  maxRequests : Z;
  windowMs : Z;
  minInterval : option Z
}.

Record t : Type := mkLimiter {
  requests : list Z;
  config : RateLimiterConfig;
  lastRequestTime : Z
}.

Definition new (cfg : RateLimiterConfig) : t :=
  {| requests := []; config := cfg; lastRequestTime := 0 |}.

(** [this.requests.filter(time => now - time < this.config.windowMs)] *)
Definition inWindow (now : Z) (rl : t) : list Z :=
  List.filter (fun time => now - time <? windowMs (config rl)) (requests rl).

Definition withRequests (rl : t) (rs : list Z) : t :=
  {| requests := rs; config := config rl; lastRequestTime := lastRequestTime rl |}.

(** [checkLimit]: [now] is the value of [Date.now()]. *)
Definition checkLimit (now : Z) (rl : t) : bool * t :=
  let rl' := withRequests rl (inWindow now rl) in
  (Z.of_nat (length (requests rl')) <? maxRequests (config rl'), rl').

(** [Math.min(...this.requests)] of a non-empty list. *)
Definition minimum (l : list Z) : Z :=
  match l with
  | [] => 0
  | x :: xs => fold_left Z.min xs x
  end.

(** [waitForReset]: returns the sleeps it performs, in order. *)
Definition waitForReset (now : Z) (rl : t) : list Z * t :=
  let rl' := withRequests rl (inWindow now rl) in
  let s1 :=
    if Z.of_nat (length (requests rl')) >=? maxRequests (config rl') then
      let oldestRequest := minimum (requests rl') in
      let waitTime := windowMs (config rl') - (now - oldestRequest) + 100 in
      if waitTime >? 0 then [waitTime] else []
    else [] in
  let s2 :=
    match minInterval (config rl') with
    | Some mi =>
        if mi =? 0 then []
        else
          let timeSinceLastRequest := now - lastRequestTime rl' in
          if timeSinceLastRequest <? mi then [mi - timeSinceLastRequest] else []
    | None => []
    end in
  (s1 ++ s2, rl').

(** [recordRequest]: the clock is read twice. *)
Definition recordRequest (now1 now2 : Z) (rl : t) : t :=
  {| requests := requests rl ++ [now1];
     config := config rl;
     lastRequestTime := now2 |}.

Definition getRemainingQuota (now : Z) (rl : t) : Z * t :=
  let rl' := withRequests rl (inWindow now rl) in
  (Z.max 0 (maxRequests (config rl') - Z.of_nat (length (requests rl'))), rl').

Definition reset (rl : t) : t :=
  {| requests := []; config := config rl; lastRequestTime := 0 |}.

(** A burst of calls to [recordRequest], one per timestamp. *)
Definition recordAll (times : list Z) (rl : t) : t :=
  fold_left (fun acc time => recordRequest time time acc) times rl.

End RateLimiter.

Module ExponentialBackoff.

Record t : Type := mkBackoff {
  attempt : Z;
  maxAttempts : Z;
  baseDelay : Z;
  maxDelay : Z
}.

(** [constructor(maxAttempts = 3, baseDelay = 1000, maxDelay = 30000)] *)
Definition new (maxAttempts baseDelay maxDelay : Z) : t :=
  {| attempt := 0; maxAttempts := maxAttempts;
     baseDelay := baseDelay; maxDelay := maxDelay |}.

Definition default : t := new 3 1000 30000.

Definition setAttempt (bo : t) (a : Z) : t :=
  {| attempt := a; maxAttempts := maxAttempts bo;
     baseDelay := baseDelay bo; maxDelay := maxDelay bo |}.

(** [retryableErrors.some(errMsg => error.message?.includes(errMsg)
                                   || error.code?.includes(errMsg))] *)
Definition isRetryable (retryableErrors : list string) (error : Error) : bool :=
  existsb (fun errMsg =>
             JsString.opt_includes (message error) errMsg
             || JsString.opt_includes (code error) errMsg)
          retryableErrors.

(** The guard [retryableErrors && retryableErrors.length > 0] followed by
    [!isRetryable]: does the error escape the retry loop unchanged? *)
Definition propagates (retryableErrors : option (list string)) (error : Error) : bool :=
  match retryableErrors with
  | Some (e :: es) => negb (isRetryable (e :: es) error)
  | Some [] => false
  | None => false
  end.

(** [Math.min(baseDelay * Math.pow(2, attempt - 1), maxDelay)] *)
Definition delay (bo : t) (a : Z) : Z :=
  Z.min (baseDelay bo * 2 ^ (a - 1)) (maxDelay bo).

Definition terminalError (bo : t) (error : Error) : Error :=
  newError ("Max retry attempts (" +:+ JsString.show_Z (maxAttempts bo)
            +:+ ") exceeded: " +:+ JsString.show_opt (message error)).

Record Run (A : Type) : Type := mkRun {
  settled : Outcome A;      (* what [execute] resolves or rejects with *)
  final : t;                (* the wrapper afterwards *)
  sleeps : list Z;          (* the delays slept, oldest first *)
  calls : nat               (* how often [fn] was invoked *)
}.
Arguments mkRun {A}.
Arguments settled {A}.
Arguments final {A}.
Arguments sleeps {A}.
Arguments calls {A}.

(** The [while (true)] loop of [execute].  [fn n] is how the [n]-th
    invocation of the operation settles. *)
Fixpoint loop {A} (fuel : nat) (fn : nat -> Outcome A)
         (retryableErrors : option (list string))
         (bo : t) (slept : list Z) (n : nat) : option (Run A) :=
  match fuel with
  | O => None
  | S fuel' =>
      match fn n with
      | Ok result => Some (mkRun (Ok result) (setAttempt bo 0) slept (S n))
      | Throw error =>
          let bo1 := setAttempt bo (attempt bo + 1) in
          if propagates retryableErrors error then
            Some (mkRun (Throw error) bo1 slept (S n))
          else if attempt bo1 >=? maxAttempts bo1 then
            Some (mkRun (Throw (terminalError bo1 error)) bo1 slept (S n))
          else
            loop fuel' fn retryableErrors bo1
                 (slept ++ [delay bo1 (attempt bo1)]) (S n)
      end
  end.

Definition execute {A} (fuel : nat) (fn : nat -> Outcome A)
           (retryableErrors : option (list string)) (bo : t) : option (Run A) :=
  loop fuel fn retryableErrors (setAttempt bo 0) [] 0.

End ExponentialBackoff.

(** ** The persisted store and the monad of asynchronous code *)

Inductive TransferStatus : Type :=
| st_pending | st_transferred | st_skipped | st_failed.

(** A row of the [file_transfers] table. *)
Record FileTransferRow : Type := mkTransfer {
  ft_job_id : string;
  ft_clickup_task_id : string;
  ft_monday_item_id : option string;
  ft_file_name : string;
  ft_file_size : Z;
  ft_status : TransferStatus;
  ft_error_message : option string
}.

(** A row of the [task_mappings] table. *)
Record TaskMappingRow : Type := mkMapping {
  tm_replication_id : string;
  tm_clickup_task_id : string;
  tm_monday_item_id : string;
  tm_clickup_parent_id : option string;
  tm_monday_parent_id : option string;
  tm_sync_status : string
}.

(** The counters a job row carries. *)
Record JobRow : Type := mkJob {
  job_processed_tasks : Z;
  job_total_tasks : Z;
  job_status : string
}.

(** Everything the orchestration can observe or change.  [task_mappings]
    is keyed by [clickup_task_id], which the schema declares
    [UNIQUE NOT NULL].  [sync_job_ids] holds the ids of the rows of
    [sync_jobs]: the schema declares [file_transfers.job_id] as
    [REFERENCES sync_jobs(id)]. *)
Record World : Type := mkWorld {
  file_transfers : list FileTransferRow;
  task_mappings : gmap string TaskMappingRow;
  job_row : JobRow;
  error_log : list (string * string);
  slept : list Z;
  ticks : nat;
  sync_job_ids : list string
}.

Definition M (A : Type) : Type := World -> Outcome A * World.

Definition ret {A} (a : A) : M A := fun w => (Ok a, w).

Definition throw {A} (e : Error) : M A := fun w => (Throw e, w).

Definition bind {A B} (m : M A) (k : A -> M B) : M B :=
  fun w =>
    match m w with
    | (Ok a, w') => k a w'
    | (Throw e, w') => (Throw e, w')
    end.

(** [try { m } catch (e) { h e }] *)
Definition tryCatch {A} (m : M A) (h : Error -> M A) : M A :=
  fun w =>
    match m w with
    | (Ok a, w') => (Ok a, w')
    | (Throw e, w') => h e w'
    end.

(** Starting an async call without awaiting it: the promise it yields
    holds how the call settles. *)
Definition capture {A} (m : M A) : M (Outcome A) :=
  fun w => let '(o, w') := m w in (Ok o, w').

Definition modify (f : World -> World) : M unit := fun w => (Ok tt, f w).

Declare Scope async_scope.
Delimit Scope async_scope with async.
Notation "x <- m ;; k" := (bind m (fun x => k))
  (at level 100, m at next level, k at level 200, right associativity) : async_scope.
Notation "m ;; k" := (bind m (fun _ => k))
  (at level 100, k at level 200, right associativity) : async_scope.
Local Open Scope async_scope.

(** Whether [sync_jobs] holds a row of this id. *)
Definition isSyncJob (w : World) (jobId : string) : bool :=
  existsb (String.eqb jobId) (sync_job_ids w).

(** [await db.from('file_transfers').insert(row)]: the store rejects a
    row whose [job_id] is not the id of a sync job (the client reports
    the error in its return value, which the callers drop). *)
Definition insertFileTransfer (row : FileTransferRow) : M unit :=
  modify (fun w =>
    {| file_transfers :=
         if isSyncJob w (ft_job_id row) then file_transfers w ++ [row]
         else file_transfers w;
       task_mappings := task_mappings w;
       job_row := job_row w;
       error_log := error_log w;
       slept := slept w;
       ticks := ticks w;
       sync_job_ids := sync_job_ids w |}).

(** [await db.from('task_mappings').insert(row)]: the store rejects a row
    whose [clickup_task_id] is taken (the client reports the error in its
    return value, which the callers drop). *)
Definition insertTaskMapping (row : TaskMappingRow) : M unit :=
  modify (fun w =>
    {| file_transfers := file_transfers w;
       task_mappings :=
         match task_mappings w !! tm_clickup_task_id row with
         | Some _ => task_mappings w
         | None => <[tm_clickup_task_id row := row]> (task_mappings w)
         end;
       job_row := job_row w;
       error_log := error_log w;
       slept := slept w;
       ticks := ticks w;
       sync_job_ids := sync_job_ids w |}).

(** [await db.from(...).update({processed, total, status})] *)
Definition updateJobRow (row : JobRow) : M unit :=
  modify (fun w =>
    {| file_transfers := file_transfers w;
       task_mappings := task_mappings w;
       job_row := row;
       error_log := error_log w;
       slept := slept w;
       ticks := ticks w;
       sync_job_ids := sync_job_ids w |}).

Definition appendErrorLog (msg err : string) : M unit :=
  modify (fun w =>
    {| file_transfers := file_transfers w;
       task_mappings := task_mappings w;
       job_row := job_row w;
       error_log := error_log w ++ [(msg, err)];
       slept := slept w;
       ticks := ticks w;
       sync_job_ids := sync_job_ids w |}).

(** [await new Promise(resolve => setTimeout(resolve, ms))] *)
Definition wait (ms : Z) : M unit :=
  modify (fun w =>
    {| file_transfers := file_transfers w;
       task_mappings := task_mappings w;
       job_row := job_row w;
       error_log := error_log w;
       slept := slept w ++ [ms];
       ticks := ticks w;
       sync_job_ids := sync_job_ids w |}).

(** A call to a remote service: the oracle is asked how the call made
    after [ticks] earlier ones settles. *)
Definition remote {A} (oracle : nat -> Outcome A) : M A :=
  fun w =>
    (oracle (ticks w),
     {| file_transfers := file_transfers w;
        task_mappings := task_mappings w;
        job_row := job_row w;
        error_log := error_log w;
        slept := slept w;
        ticks := S (ticks w);
        sync_job_ids := sync_job_ids w |}).

(** [for (const x of xs) { await body(x) }] *)
Fixpoint forEach {A} (xs : list A) (body : A -> M unit) : M unit :=
  match xs with
  | [] => ret tt
  | x :: xs' => body x ;; forEach xs' body
  end.

(** ** batch-processor.ts *)

Module BatchProcessor.

Record TaskResult (R : Type) : Type := mkResult {
  taskId : string;
  taskName : option string;
  success : bool;
  error : option string;
  data : option R;
  retryCount : Z
}.
Arguments mkResult {R}.
Arguments taskId {R}.
Arguments taskName {R}.
Arguments success {R}.
Arguments error {R}.
Arguments data {R}.
Arguments retryCount {R}.

Record BatchResult (R : Type) : Type := mkBatchResult {
  successful : Z;
  failed : Z;
  skipped : Z;
  results : list (TaskResult R)
}.
Arguments mkBatchResult {R}.
Arguments successful {R}.
Arguments failed {R}.
Arguments skipped {R}.
Arguments results {R}.

(** [items.slice(i, j)] for [0 <= i <= j]. *)
Definition slice {U} (items : list U) (i j : nat) : list U :=
  firstn (j - i) (skipn i items).

(** The [for (let i = 0; i < items.length; i += size)] loop. *)
Fixpoint batchLoop {U} (fuel : nat) (items : list U) (size i : nat)
         (batches : list (list U)) : option (list (list U)) :=
  if (i <? length items)%nat then
    match fuel with
    | O => None
    | S fuel' =>
        batchLoop fuel' items size (i + size)
                  (batches ++ [slice items i (i + size)])
    end
  else Some batches.

Definition createBatches {U} (items : list U) (size : nat) : option (list (list U)) :=
  if ((size =? 0)%nat || (length items <=? size)%nat)%bool then Some [items]
  else batchLoop (length items) items size 0 [].

Section Processor.

(** [T extends BatchTask]: a work item exposes [id] and [name]. *)
Context {T R : Type}.
Variable task_id : T -> string.
Variable task_name : T -> string.
Variable jobId : string.
Variable processor : T -> M R.

(** The fields of [BatchOptions] after defaulting. *)
Variable maxRetries : Z.
Variable parallel : bool.
Variable maxParallel : Z.
Variable delayBetweenBatches : Z.
Variable onProgress : option (Z -> Z -> M unit).
Variable onError : option (Error -> T -> M unit).

(** [logTaskFailure]: its body sits in a [try]/[catch] that only
    prints, so it never throws. *)
Definition logTaskFailure (taskId errorMessage : string) : M unit :=
  insertFileTransfer
    {| ft_job_id := jobId;
       ft_clickup_task_id := taskId;
       ft_monday_item_id := None;
       ft_file_name := "N/A";
       ft_file_size := 0;
       ft_status := st_failed;
       ft_error_message := Some errorMessage |}.

(** [lastError?.message || 'Unknown error'] *)
Definition messageOrUnknown (lastError : option Error) : string :=
  match lastError ≫= message with
  | Some EmptyString => "Unknown error"
  | Some m => m
  | None => "Unknown error"
  end.

Definition callOnError (e : Error) (task : T) : M unit :=
  match onError with
  | Some f => f e task
  | None => ret tt
  end.

(** [`Failed after ${maxRetries} retries: ${lastError?.message}`] *)
Definition failureText (lastError : option Error) : string :=
  "Failed after " +:+ JsString.show_Z maxRetries +:+ " retries: "
    +:+ JsString.show_opt (lastError ≫= message).

(** The [while (retryCount <= maxRetries)] loop.  [retryCount] starts
    at 0 and grows by one per failed round, so [remaining] counts the
    rounds the guard still admits; at [O] the guard is false and the
    code after the loop runs. *)
Fixpoint retryLoop (remaining : nat) (task : T) (retryCount : Z)
         (lastError : option Error) : M (TaskResult R) :=
  match remaining with
  | O =>
      logTaskFailure (task_id task) (messageOrUnknown lastError) ;;
      ret {| taskId := task_id task;
             taskName := Some (task_name task);
             success := false;
             error := Some (failureText lastError);
             data := None;
             retryCount := retryCount |}
  | S remaining' =>
      o <- capture (processor task) ;;
      match o with
      | Ok d =>
          ret {| taskId := task_id task;
                 taskName := Some (task_name task);
                 success := true;
                 error := None;
                 data := Some d;
                 retryCount := retryCount |}
      | Throw error =>
          let lastError' := asError error in
          let retryCount' := retryCount + 1 in
          callOnError lastError' task ;;
          (if retryCount' <=? maxRetries
           then wait (Z.min (1000 * 2 ^ retryCount') 30000)
           else ret tt) ;;
          retryLoop remaining' task retryCount' (Some lastError')
      end
  end.

Definition processTaskWithRetry (task : T) : M (TaskResult R) :=
  retryLoop (Z.to_nat (maxRetries + 1)) task 0 None.

Fixpoint processSequential (tasks : list T) : M (list (TaskResult R)) :=
  match tasks with
  | [] => ret []
  | task :: rest =>
      result <- processTaskWithRetry task ;;
      results <- processSequential rest ;;
      ret (result :: results)
  end.

(** A promise of a per-item result.  [pid] is its identity as an
    object ([===] compares identities); [settles] is what awaiting it
    yields. *)
Record Promise : Type := mkPromise {
  pid : nat;
  settles : Outcome (TaskResult R)
}.

(** The inner [while (queue.length > 0 && inProgress.length < maxParallel)].
    A call started here is run to its end on the spot, so the store
    sees the items in launch order: one of the interleavings the event
    loop allows. *)
Fixpoint fill (queue : list T) (inProgress : list Promise) (nextId : nat)
  : M (list T * list Promise * nat) :=
  match queue with
  | [] => ret (queue, inProgress, nextId)
  | task :: queue' =>
      if Z.of_nat (length inProgress) <? maxParallel then
        o <- capture (processTaskWithRetry task) ;;
        fill queue' (inProgress ++ [mkPromise nextId o]) (S nextId)
      else ret (queue, inProgress, nextId)
  end.

(** [inProgress.findIndex(p => p === Promise.resolve(result))]:
    [result] is a plain object, so every evaluation of
    [Promise.resolve(result)] allocates a new promise. *)
Fixpoint findIndexResolved (inProgress : list Promise) (nextId i : nat)
  : option nat * nat :=
  match inProgress with
  | [] => (None, nextId)
  | p :: ps =>
      if (pid p =? nextId)%nat then (Some i, S nextId)
      else findIndexResolved ps (S nextId) (S i)
  end.

(** The outer loop of [processParallel].  [sched round] names the
    promise that wins the [Promise.race] of that round; a race over an
    empty array never settles. *)
Fixpoint parallelLoop (fuel : nat) (sched : nat -> nat) (round : nat)
         (queue : list T) (inProgress : list Promise)
         (results : list (TaskResult R)) (nextId : nat)
  : M (option (list (TaskResult R))) :=
  match fuel with
  | O => ret None
  | S fuel' =>
      if (negb (Nat.eqb (length queue) 0) || negb (Nat.eqb (length inProgress) 0))%bool
      then
        filled <- fill queue inProgress nextId ;;
        let '(queue1, inProgress1, next1) := filled in
        match inProgress1 !! (sched round mod length inProgress1)%nat with
        | None => ret None
        | Some p =>
            match settles p with
            | Throw e => throw e
            | Ok result =>
                let '(index, next2) := findIndexResolved inProgress1 next1 0 in
                let inProgress2 :=
                  match index with
                  | Some i => delete i inProgress1
                  | None => inProgress1
                  end in
                parallelLoop fuel' sched (S round) queue1 inProgress2
                             (results ++ [result]) next2
            end
        end
      else ret (Some results)
  end.

Definition processParallel (fuel : nat) (sched : nat -> nat) (tasks : list T)
  : M (option (list (TaskResult R))) :=
  parallelLoop fuel sched 0 tasks [] [] 0.

(** The counting [for] loop over one batch's results. *)
Definition countResult (acc : BatchResult R) (result : TaskResult R) : BatchResult R :=
  if success result then
    {| successful := successful acc + 1; failed := failed acc;
       skipped := skipped acc; results := results acc |}
  else if JsString.opt_includes (error result) "skipped" then
    {| successful := successful acc; failed := failed acc;
       skipped := skipped acc + 1; results := results acc |}
  else
    {| successful := successful acc; failed := failed acc + 1;
       skipped := skipped acc; results := results acc |}.

(** [results.push(...batchResults)] *)
Definition pushResults (acc : BatchResult R) (batchResults : list (TaskResult R))
  : BatchResult R :=
  {| successful := successful acc; failed := failed acc;
     skipped := skipped acc; results := results acc ++ batchResults |}.

Definition addFailed (acc : BatchResult R) (n : Z) : BatchResult R :=
  {| successful := successful acc; failed := failed acc + n;
     skipped := skipped acc; results := results acc |}.

(** [updateProgress]: wrapped in [try]/[catch], never throws. *)
Definition updateProgress (processed total : Z) : M unit :=
  updateJobRow
    {| job_processed_tasks := processed;
       job_total_tasks := total;
       job_status := if processed >=? total then "completed" else "running" |}.

(** [logError]: the entry holds
    [error instanceof Error ? error.message : String(error)]. *)
Definition logError (msg : string) (e : Error) : M unit :=
  appendErrorLog msg
                 match nonError e with
                 | Some text => text
                 | None => JsString.show_opt (message e)
                 end.

Definition callOnProgress (processed total : Z) : M unit :=
  match onProgress with
  | Some f => f processed total
  | None => ret tt
  end.

(** What the [catch] of one batch does. *)
Definition batchFailed (index : nat) (batch : list T) (acc : BatchResult R)
           (e : Error) : M (BatchResult R) :=
  logError ("Batch " +:+ JsString.show_Z (Z.of_nat index) +:+ " processing failed") e ;;
  ret (addFailed acc (Z.of_nat (length batch))).

(** The [for (const [index, batch] of batches.entries())] loop.  The
    counters and [results] are locals of [processBatch]: what the
    [try] block changed before throwing stays changed in the [catch]. *)
Fixpoint batchesLoop (fuel : nat) (sched : nat -> nat) (total batchSize nbatches : nat)
         (index : nat) (batches : list (list T)) (acc : BatchResult R)
  : M (option (BatchResult R)) :=
  match batches with
  | [] => ret (Some acc)
  | batch :: rest =>
      o <- capture (if parallel then processParallel fuel sched batch
                    else (rs <- processSequential batch ;; ret (Some rs))) ;;
      match o with
      | Throw e =>
          acc' <- batchFailed index batch acc e ;;
          batchesLoop fuel sched total batchSize nbatches (S index) rest acc'
      | Ok None => ret None
      | Ok (Some batchResults) =>
          let acc1 := pushResults (fold_left countResult batchResults acc) batchResults in
          let processed :=
            (Z.of_nat index + 1)
            * (if (batchSize =? 0)%nat then Z.of_nat total else Z.of_nat batchSize) in
          let actualProcessed := Z.min processed (Z.of_nat total) in
          o2 <- capture (updateProgress actualProcessed (Z.of_nat total) ;;
                         callOnProgress actualProcessed (Z.of_nat total) ;;
                         if ((Z.of_nat index <? Z.of_nat nbatches - 1)
                             && (delayBetweenBatches >? 0))%bool
                         then wait delayBetweenBatches else ret tt) ;;
          match o2 with
          | Throw e =>
              acc' <- batchFailed index batch acc1 e ;;
              batchesLoop fuel sched total batchSize nbatches (S index) rest acc'
          | Ok _ =>
              batchesLoop fuel sched total batchSize nbatches (S index) rest acc1
          end
      end
  end.

Definition emptyResult : BatchResult R :=
  {| successful := 0; failed := 0; skipped := 0; results := [] |}.

Definition processBatch (fuel : nat) (sched : nat -> nat) (tasks : list T)
           (batchSize : nat) : M (option (BatchResult R)) :=
  match createBatches tasks batchSize with
  | None => ret None
  | Some batches =>
      batchesLoop fuel sched (length tasks) batchSize (length batches) 0
                  batches emptyResult
  end.

End Processor.

End BatchProcessor.

(** ** field-mapper.ts *)

Module FieldMapper.

(** A JavaScript number: a finite value is kept exactly as
    [mantissa * 10 ^ exponent] (rounding to a double is not modelled). *)
Inductive JsNumber : Type :=
| NaN
| PosInfinity
| NegInfinity
| Finite (mantissa exponent : Z).

(** The values a custom field can carry.  [VObject] stands for any
    object without a numeric string form. *)
Inductive JsValue : Type :=
| VUndefined
| VNull
| VBool (b : bool)
| VNumber (n : JsNumber)
| VString (s : string)
| VObject.

(** Truthiness of a number: [NaN] and both zeros are falsy. *)
Definition numberTruthy (n : JsNumber) : bool :=
  match n with
  | NaN => false
  | PosInfinity | NegInfinity => true
  | Finite m _ => negb (m =? 0)
  end.

(** Truthiness of a value, as tested by [!value]. *)
Definition truthy (v : JsValue) : bool :=
  match v with
  | VUndefined | VNull => false
  | VBool b => b
  | VNumber n => numberTruthy n
  | VString EmptyString => false
  | VString _ => true
  | VObject => true
  end.

Definition isNaN (n : JsNumber) : bool :=
  match n with
  | NaN => true
  | _ => false
  end.

Definition isWhiteSpace (c : ascii) : bool :=
  let n := nat_of_ascii c in
  ((9 <=? n)%nat && (n <=? 13)%nat || (n =? 32)%nat)%bool.

Definition isDigit (c : ascii) : bool :=
  let n := nat_of_ascii c in ((48 <=? n)%nat && (n <=? 57)%nat)%bool.

Definition digitValue (c : ascii) : Z := Z.of_nat (nat_of_ascii c) - 48.

Fixpoint trimStart (s : string) : string :=
  match s with
  | String c s' => if isWhiteSpace c then trimStart s' else s
  | EmptyString => s
  end.

(** Reads a run of digits: the number read so far, how many digits
    were read, and the rest of the input. *)
Fixpoint readDigits (s : string) (acc : Z) (count : nat) : Z * nat * string :=
  match s with
  | String c s' =>
      if isDigit c then readDigits s' (acc * 10 + digitValue c) (S count)
      else (acc, count, s)
  | EmptyString => (acc, count, s)
  end.

(** An optional sign: [true] when negative. *)
Definition readSign (s : string) : bool * string :=
  match s with
  | String "-" s' => (true, s')
  | String "+" s' => (false, s')
  | _ => (false, s)
  end.

(** The exponent part [e[+-]digits], when it is well formed. *)
Definition readExponent (s : string) : Z :=
  match s with
  | String c s' =>
      if (Ascii.eqb c "e" || Ascii.eqb c "E")%bool then
        let '(neg, s1) := readSign s' in
        let '(e, count, _) := readDigits s1 0 0 in
        match count with
        | O => 0
        | S _ => if neg then - e else e
        end
      else 0
  | EmptyString => 0
  end.

(** [parseFloat] on a string: the longest prefix of the trimmed input
    that is a decimal literal, [NaN] when there is none. *)
Definition parseFloatString (s : string) : JsNumber :=
  let '(neg, s1) := readSign (trimStart s) in
  if String.prefix "Infinity" s1 then (if neg then NegInfinity else PosInfinity)
  else
    let '(ip, icount, s2) := readDigits s1 0 0 in
    let '(m, fcount, s3) :=
      match s2 with
      | String "." s2' => readDigits s2' ip 0
      | _ => (ip, O, s2)
      end in
    match icount, fcount with
    | O, O => NaN
    | _, _ => Finite (if neg then - m else m) (readExponent s3 - Z.of_nat fcount)
    end.

(** [parseFloat(value)]: the argument is converted to a string first.
    A number prints to a literal that reads back as itself; [true],
    [null], [undefined] and [[object Object]] are not literals. *)
Definition parseFloat (v : JsValue) : JsNumber :=
  match v with
  | VString s => parseFloatString s
  | VNumber n => n
  | VUndefined | VNull | VBool _ | VObject => NaN
  end.

(** [parseFloat(value) || 0] *)
Definition parseFloatOrZero (v : JsValue) : JsValue :=
  let n := parseFloat v in
  if numberTruthy n then VNumber n else VNumber (Finite 0 0).

(** The ['number'] entry of [transformations]. *)
Definition numberRule (value : JsValue) : JsValue :=
  match value with
  | VNull | VUndefined => VNull
  | _ => parseFloatOrZero value
  end.

(** The ['currency'] entry of [transformations]. *)
Definition currencyRule (value : JsValue) : JsValue :=
  if negb (truthy value) then VNull else parseFloatOrZero value.

(** The members an object literal inherits from [Object.prototype]:
    a lookup [table[key]] finds them when [key] is not a key of the
    literal. *)
Definition inheritedKeys : list string :=
  ["constructor"; "hasOwnProperty"; "isPrototypeOf"; "propertyIsEnumerable";
   "toLocaleString"; "toString"; "valueOf"; "__proto__";
   "__defineGetter__"; "__defineSetter__"; "__lookupGetter__"; "__lookupSetter__"].

(** What [transformations[key]] can find: one of the twelve rules of
    the literal, or the member inherited under [key]. *)
Inductive Transformation : Type :=
| t_drop_down | t_checkbox | t_date | t_users | t_labels | t_number
| t_currency | t_email | t_phone | t_url | t_rating | t_location
| t_inherited (key : string).

Definition transformations : list (string * Transformation) :=
  [("drop_down", t_drop_down); ("checkbox", t_checkbox); ("date", t_date);
   ("users", t_users); ("labels", t_labels); ("number", t_number);
   ("currency", t_currency); ("email", t_email); ("phone", t_phone);
   ("url", t_url); ("rating", t_rating); ("location", t_location)].

Fixpoint lookupKey {V} (key : string) (table : list (string * V)) : option V :=
  match table with
  | [] => None
  | (k, v) :: rest => if String.eqb k key then Some v else lookupKey key rest
  end.

(** [transformations[fieldType.toLowerCase()]]: which entry is picked,
    [None] standing for [undefined]. *)
Definition getTransformationRule (fieldType : string) : option Transformation :=
  let key := JsString.toLowerCase fieldType in
  match lookupKey key transformations with
  | Some rule => Some rule
  | None =>
      if existsb (String.eqb key) inheritedKeys then Some (t_inherited key)
      else None
  end.

(** The function stored under the two numeric entries; the other
    entries build column objects and are not embedded. *)
Definition ruleBody (t : Transformation) : option (JsValue -> JsValue) :=
  match t with
  | t_number => Some numberRule
  | t_currency => Some currencyRule
  | _ => None
  end.

(** [typeMap] of [mapFieldType]. *)
Definition typeMap : list (string * string) :=
  [("text", "text"); ("short_text", "text"); ("textarea", "long-text");
   ("number", "numbers"); ("currency", "numbers"); ("date", "date");
   ("checkbox", "checkbox"); ("drop_down", "status"); ("labels", "tags");
   ("email", "email"); ("phone", "phone"); ("url", "link");
   ("users", "people"); ("rating", "rating"); ("location", "location")].

(** What [mapFieldType] returns: a column type name, or the inherited
    member (a function or the prototype object, both truthy) found
    under the key. *)
Inductive MappedType : Type :=
| ColumnType (name : string)
| InheritedMember (key : string).

(** [typeMap[clickupFieldType.toLowerCase()] || 'text'] *)
Definition mapFieldType (clickupFieldType : string) : MappedType :=
  let key := JsString.toLowerCase clickupFieldType in
  match lookupKey key typeMap with
  | Some columnType => ColumnType columnType
  | None =>
      if existsb (String.eqb key) inheritedKeys then InheritedMember key
      else ColumnType "text"
  end.

(** The class [[a-zA-Z0-9\s-_]] on ASCII text: letters, digits, white
    space, [-] and [_]. *)
Definition keptInName (c : ascii) : bool :=
  let n := nat_of_ascii c in
  ((97 <=? n)%nat && (n <=? 122)%nat
   || (65 <=? n)%nat && (n <=? 90)%nat
   || (48 <=? n)%nat && (n <=? 57)%nat
   || isWhiteSpace c
   || (n =? 45)%nat
   || (n =? 95)%nat)%bool.

(** [s.replace(/[^a-zA-Z0-9\s-_]/g, '')] *)
Fixpoint removeSpecial (s : string) : string :=
  match s with
  | EmptyString => EmptyString
  | String c s' => if keptInName c then String c (removeSpecial s') else removeSpecial s'
  end.

Fixpoint trimEnd (s : string) : string :=
  match s with
  | EmptyString => EmptyString
  | String c s' =>
      match trimEnd s' with
      | EmptyString => if isWhiteSpace c then EmptyString else String c EmptyString
      | t => String c t
      end
  end.

(** [s.trim()] *)
Definition trim (s : string) : string := trimEnd (trimStart s).

(** [sanitizeColumnName] *)
Definition sanitizeColumnName (name : string) : string :=
  String.substring 0 255 (trim (removeSpecial name)).

End FieldMapper.

(** ** Resources of the two services (types/clickup.ts, types/monday.ts) *)

Record ClickUpAttachment : Type := mkAttachment {
  att_title : string;
  att_size : Z;
  att_extension : string;
  att_url : string
}.

Record ClickUpTask : Type := mkTask {
  task_id : string;
  task_name : string;
  task_url : string;
  task_parent : option string;
  task_description : option string;
  task_list_id : string;
  task_attachments : option (list ClickUpAttachment)
}.

Record ClickUpComment : Type := mkComment {
  comment_text : string;
  comment_parts : list string
}.

Record MondayAsset : Type := mkAsset {
  asset_name : string;
  asset_file_size : Z
}.

(** An item as a response carries it: [board] and [assets] are there
    only when the query selects them. *)
Record MondayItem : Type := mkItem {
  item_id : string;
  item_name : string;
  item_board_id : option string;
  item_assets : option (list MondayAsset)
}.

Record MondayColumn : Type := mkColumn {
  col_id : string;
  col_title : string;
  col_type : string
}.

Record MondayBoard : Type := mkBoard {
  board_id : string;
  board_name : string;
  board_columns : option (list MondayColumn)
}.

(** The remote calls of the two adapters.  Each is an oracle: given the
    arguments and the number of remote calls made before, how the call
    settles.  Boards and items are addressed by their id strings (the
    source passes [parseInt] of them). *)
Record Services : Type := mkServices {
  getTasksWithAttachments : string -> nat -> Outcome (list ClickUpTask);
  getListTasks : string -> nat -> Outcome (list ClickUpTask);
  getTask : string -> nat -> Outcome ClickUpTask;
  getTaskComments : string -> nat -> Outcome (list ClickUpComment);
  downloadAttachment : string -> nat -> Outcome string;
  getItems : string -> nat -> Outcome (list MondayItem);
  getBoard : string -> nat -> Outcome MondayBoard;
  createColumn : string -> string -> string -> nat -> Outcome MondayColumn;
  createItem : string -> string -> nat -> Outcome MondayItem;
  createSubitem : string -> string -> nat -> Outcome MondayItem;
  createUpdate : string -> string -> nat -> Outcome unit;
  changeColumnValue : string -> string -> string -> nat -> Outcome unit;
  addFileToColumn : string -> string -> string -> string -> nat -> Outcome unit
}.

(** ** monday.ts: the item queries and [searchItemsByName] *)

Module MondayAPI.

(** What the queries of [getItems], [createItem] and [createSubitem]
    select of an item: [id] and [name] among others, but neither [board]
    nor [assets]. *)
Definition selected (item : MondayItem) : MondayItem :=
  {| item_id := item_id item;
     item_name := item_name item;
     item_board_id := None;
     item_assets := None |}.

(** [getItems] *)
Definition getItems (svc : Services) (boardId : string) : M (list MondayItem) :=
  items <- remote (getItems svc boardId) ;;
  ret (map selected items).

(** [createItem] *)
Definition createItem (svc : Services) (boardId itemName : string) : M MondayItem :=
  item <- remote (createItem svc boardId itemName) ;;
  ret (selected item).

(** [createSubitem] *)
Definition createSubitem (svc : Services) (parentItemId itemName : string)
  : M MondayItem :=
  subitem <- remote (createSubitem svc parentItemId itemName) ;;
  ret (selected subitem).

(** What reading [item.board.id] throws when the item has no [board]. *)
Definition noBoard : Error :=
  newError "Cannot read properties of undefined (reading 'id')".

(** [parseInt(item.board.id)] *)
Definition boardIdOf (item : MondayItem) : M string :=
  match item_board_id item with
  | Some id => ret id
  | None => throw noBoard
  end.

Definition nameContains (searchQuery : string) (item : MondayItem) : bool :=
  JsString.includes (JsString.toLowerCase (item_name item))
                    (JsString.toLowerCase searchQuery).

Definition searchItemsByName (svc : Services) (boardId searchQuery : string)
  : M (list MondayItem) :=
  items <- getItems svc boardId ;;
  ret (List.filter (nameContains searchQuery) items).

End MondayAPI.

(** ** duplicate-checker.ts *)

Module DuplicateChecker.

Record DuplicateCheckResult : Type := mkCheck {
  isDuplicate : bool;
  matchedAsset : option MondayAsset;
  reason : option string
}.

Definition notDuplicate : DuplicateCheckResult :=
  {| isDuplicate := false; matchedAsset := None; reason := None |}.

Definition sameNameAndSize (attachment : ClickUpAttachment) (asset : MondayAsset) : bool :=
  (String.eqb (JsString.toLowerCase (asset_name asset))
              (JsString.toLowerCase (att_title attachment))
   && (asset_file_size asset =? att_size attachment))%bool.

Definition checkByNameAndSize (attachment : ClickUpAttachment)
           (existingAssets : list MondayAsset) : DuplicateCheckResult :=
  match List.find (sameNameAndSize attachment) existingAssets with
  | Some m =>
      {| isDuplicate := true; matchedAsset := Some m;
         reason := Some "Name and size match" |}
  | None => notDuplicate
  end.

(** [checkByHash]: the placeholder always answers "not a duplicate". *)
Definition checkByHash (fileBuffer : string) (existingAssets : list MondayAsset)
  : DuplicateCheckResult := notDuplicate.

Definition check (attachment : ClickUpAttachment) (existingAssets : list MondayAsset)
           (fileBuffer : option string) : DuplicateCheckResult :=
  let nameSizeCheck := checkByNameAndSize attachment existingAssets in
  if isDuplicate nameSizeCheck then nameSizeCheck
  else
    match fileBuffer with
    | Some buffer =>
        let hashCheck := checkByHash buffer existingAssets in
        if isDuplicate hashCheck then hashCheck else notDuplicate
    | None => notDuplicate
    end.

(** [filename.split('.').pop()]: what follows the last dot. *)
Fixpoint lastSegment (s : string) (current : string) : string :=
  match s with
  | EmptyString => current
  | String c s' =>
      if Ascii.eqb c "." then lastSegment s' EmptyString
      else lastSegment s' (current +:+ String c EmptyString)
  end.

Definition isAllowedFileType (filename : string)
           (allowedExtensions : option (list string)) : bool :=
  match allowedExtensions with
  | None | Some [] => true
  | Some exts =>
      let extension := JsString.toLowerCase (lastSegment filename EmptyString) in
      existsb (String.eqb extension) exts
  end.

Definition defaultMaxSizeBytes : Z := 500 * 1024 * 1024.

Definition isWithinSizeLimit (fileSize : Z) (maxSizeBytes : option Z) : bool :=
  fileSize <=? default defaultMaxSizeBytes maxSizeBytes.

Record Validation : Type := mkValidation {
  valid : bool;
  validation_error : option string
}.

Record ValidateOptions : Type := mkValidateOptions {
  maxSizeBytes : option Z;
  allowedExtensions : option (list string)
}.

Definition validateFile (attachment : ClickUpAttachment)
           (options : option ValidateOptions) : Validation :=
  if negb (isWithinSizeLimit (att_size attachment) (options ≫= maxSizeBytes)) then
    {| valid := false;
       validation_error :=
         Some ("File size " +:+ JsString.show_Z (att_size attachment)
               +:+ " exceeds maximum allowed size") |}
  else if negb (isAllowedFileType (att_title attachment)
                                  (options ≫= allowedExtensions)) then
    {| valid := false;
       validation_error :=
         Some ("File type not allowed: " +:+ att_extension attachment) |}
  else {| valid := true; validation_error := None |}.

End DuplicateChecker.

(** ** file-sync.ts *)

Module FileSyncEngine.

Record SyncOptions : Type := mkSyncOptions {
  batchSize : Z;
  skipDuplicates : bool;
  includeAttachments : bool;
  includeComments : bool;
  includeSubtasks : bool;
  clickupLinkField : option string
}.

Record SyncError : Type := mkSyncError {
  err_taskId : string;
  err_taskName : string;
  err_error : option string;
  err_retryCount : Z
}.

Record FileSyncResult : Type := mkSyncResult {
  success : bool;
  filesTransferred : Z;
  filesSkipped : Z;
  errors : list SyncError
}.

Section Engine.

Variable svc : Services.
Variable jobId : string.

(** [logFileTransfer] *)
Definition logFileTransfer (clickupTaskId mondayItemId : string)
           (attachment : ClickUpAttachment) (status : TransferStatus) : M unit :=
  insertFileTransfer
    {| ft_job_id := jobId;
       ft_clickup_task_id := clickupTaskId;
       ft_monday_item_id := Some mondayItemId;
       ft_file_name := att_title attachment;
       ft_file_size := att_size attachment;
       ft_status := status;
       ft_error_message := None |}.

(** [updateProgress(totalTasks, processedTasks)] *)
Definition updateProgress (totalTasks processedTasks : Z) : M unit :=
  updateJobRow
    {| job_processed_tasks := processedTasks;
       job_total_tasks := totalTasks;
       job_status := if processedTasks <? totalTasks then "running" else "completed" |}.

Definition isFileColumn (col : MondayColumn) : bool := String.eqb (col_type col) "file".

(** [ensureFileColumn] *)
Definition ensureFileColumn (boardId : string) : M string :=
  board <- remote (getBoard svc boardId) ;;
  match List.find isFileColumn (default [] (board_columns board)) with
  | Some fileColumn => ret (col_id fileColumn)
  | None =>
      newColumn <- remote (createColumn svc boardId "Files" "file") ;;
      ret (col_id newColumn)
  end.

(** [addClickUpLink]: a failure is printed and swallowed. *)
Definition addClickUpLink (mondayItemId columnId clickupUrl : string) : M unit :=
  tryCatch (remote (changeColumnValue svc mondayItemId columnId clickupUrl))
           (fun _ => ret tt).

(** [transferAttachment] *)
Definition transferAttachment (task : ClickUpTask) (attachment : ClickUpAttachment)
           (mondayItem : MondayItem) (existingAssets : list MondayAsset)
           (options : SyncOptions) : M unit :=
  let validation := DuplicateChecker.validateFile attachment None in
  if negb (DuplicateChecker.valid validation) then ret tt
  else if (skipDuplicates options
           && DuplicateChecker.isDuplicate
                (DuplicateChecker.check attachment existingAssets None))%bool then
    logFileTransfer (task_id task) (item_id mondayItem) attachment st_skipped
  else
    fileBuffer <- remote (downloadAttachment svc (att_url attachment)) ;;
    boardId <- MondayAPI.boardIdOf mondayItem ;;
    fileColumnId <- ensureFileColumn boardId ;;
    remote (addFileToColumn svc (item_id mondayItem) fileColumnId fileBuffer
                            (att_title attachment)) ;;
    logFileTransfer (task_id task) (item_id mondayItem) attachment st_transferred.

(** The part of [syncTaskFiles] that runs once an item is chosen. *)
Definition syncToItem (task : ClickUpTask) (mondayItem : MondayItem)
           (options : SyncOptions) : M unit :=
  let existingAssets := default [] (item_assets mondayItem) in
  forEach (default [] (task_attachments task))
          (fun attachment =>
             tryCatch (transferAttachment task attachment mondayItem
                                          existingAssets options)
                      (fun e => throw e)) ;;
  match clickupLinkField options with
  | Some (String c f) =>
      addClickUpLink (item_id mondayItem) (String c f) (task_url task)
  | _ => ret tt
  end.

(** [syncTaskFiles] *)
Definition syncTaskFiles (task : ClickUpTask) (mondayBoardId : string)
           (options : SyncOptions) : M unit :=
  mondayItems <- MondayAPI.searchItemsByName svc mondayBoardId (task_name task) ;;
  match mondayItems with
  | [] => ret tt
  | mondayItem :: _ => syncToItem task mondayItem options
  end.

(** [task.attachments?.length || 0] *)
Definition attachmentCount (task : ClickUpTask) : Z :=
  match task_attachments task with
  | Some l => Z.of_nat (length l)
  | None => 0
  end.

Definition recordError (result : FileSyncResult) (taskId taskName : string)
           (e : Error) : FileSyncResult :=
  {| success := false;
     filesTransferred := filesTransferred result;
     filesSkipped := filesSkipped result;
     errors := errors result ++
               [{| err_taskId := taskId; err_taskName := taskName;
                   err_error := message e; err_retryCount := 0 |}] |}.

Definition addTransferred (result : FileSyncResult) (n : Z) : FileSyncResult :=
  {| success := success result;
     filesTransferred := filesTransferred result + n;
     filesSkipped := filesSkipped result;
     errors := errors result |}.

(** The [for (let i = 0; ...)] loop of [syncFiles]; [result] is the
    local that both the [try] body and the [catch] update. *)
Fixpoint tasksLoop (tasks : list ClickUpTask) (total : Z) (i : Z)
         (mondayBoardId : string) (options : SyncOptions)
         (result : FileSyncResult) : M FileSyncResult :=
  match tasks with
  | [] => ret result
  | task :: rest =>
      o <- capture (syncTaskFiles task mondayBoardId options) ;;
      match o with
      | Throw e =>
          tasksLoop rest total (i + 1) mondayBoardId options
                    (recordError result (task_id task) (task_name task) e)
      | Ok _ =>
          let result1 := addTransferred result (attachmentCount task) in
          o2 <- capture (updateProgress total (i + 1)) ;;
          match o2 with
          | Throw e =>
              tasksLoop rest total (i + 1) mondayBoardId options
                        (recordError result1 (task_id task) (task_name task) e)
          | Ok _ => tasksLoop rest total (i + 1) mondayBoardId options result1
          end
      end
  end.

Definition initialResult : FileSyncResult :=
  {| success := true; filesTransferred := 0; filesSkipped := 0; errors := [] |}.

(** [syncFiles] *)
Definition syncFiles (clickupListId mondayBoardId : string) (options : SyncOptions)
  : M FileSyncResult :=
  o <- capture (tasksWithAttachments <-
                  remote (getTasksWithAttachments svc clickupListId) ;;
                updateProgress (Z.of_nat (length tasksWithAttachments)) 0 ;;
                ret tasksWithAttachments) ;;
  match o with
  | Throw e => ret (recordError initialResult "N/A" "File Sync" e)
  | Ok tasksWithAttachments =>
      tasksLoop tasksWithAttachments (Z.of_nat (length tasksWithAttachments)) 0
                mondayBoardId options initialResult
  end.

(** [findMatchingItems], for one task: exact name first, then
    containment either way. *)
Definition exactName (task : ClickUpTask) (item : MondayItem) : bool :=
  String.eqb (JsString.toLowerCase (item_name item))
             (JsString.toLowerCase (task_name task)).

Definition fuzzyName (task : ClickUpTask) (item : MondayItem) : bool :=
  (JsString.includes (JsString.toLowerCase (item_name item))
                     (JsString.toLowerCase (task_name task))
   || JsString.includes (JsString.toLowerCase (task_name task))
                        (JsString.toLowerCase (item_name item)))%bool.

Definition findMatch (mondayItems : list MondayItem) (task : ClickUpTask)
  : option MondayItem :=
  match List.find (exactName task) mondayItems with
  | Some m => Some m
  | None => List.find (fuzzyName task) mondayItems
  end.

(** [findMatchingItems]: the map from task id to its match. *)
Definition findMatchingItems (clickupTasks : list ClickUpTask) (mondayBoardId : string)
  : M (gmap string MondayItem) :=
  mondayItems <- MondayAPI.getItems svc mondayBoardId ;;
  ret (fold_left
         (fun matches task =>
            match findMatch mondayItems task with
            | Some m => <[task_id task := m]> matches
            | None => matches
            end)
         clickupTasks ∅).

End Engine.

End FileSyncEngine.

(** ** list-replicator.ts *)

Module ListReplicator.

Record ReplicationOptions : Type := mkReplicationOptions {
  includeAttachments : bool;
  includeComments : bool;
  includeSubtasks : bool
}.

Section Replicator.

Variable svc : Services.
Variable replicationId : string.

(** [mapDescriptionToUpdate] rewrites links and images by regular
    expressions; only its result being empty or not matters here. *)
Variable mapDescriptionToUpdate : string -> string.

(** [migrateSubtask] *)
Definition migrateSubtask (subtask : ClickUpTask) (parentItemId boardId : string)
  : M unit :=
  subitem <- MondayAPI.createSubitem svc parentItemId (task_name subtask) ;;
  insertTaskMapping
    {| tm_replication_id := replicationId;
       tm_clickup_task_id := task_id subtask;
       tm_monday_item_id := item_id subitem;
       tm_clickup_parent_id := task_parent subtask;
       tm_monday_parent_id := Some parentItemId;
       tm_sync_status := "synced" |}.

(** One round of the loop of [transferAttachments]. *)
Definition transferOne (fileColumnId : string) (item : MondayItem)
           (clickupTaskId : string) (attachment : ClickUpAttachment) : M unit :=
  tryCatch
    (fileBuffer <- remote (downloadAttachment svc (att_url attachment)) ;;
     remote (addFileToColumn svc (item_id item) fileColumnId fileBuffer
                             (att_title attachment)) ;;
     insertFileTransfer
       {| ft_job_id := replicationId;
          ft_clickup_task_id := clickupTaskId;
          ft_monday_item_id := Some (item_id item);
          ft_file_name := att_title attachment;
          ft_file_size := att_size attachment;
          ft_status := st_transferred;
          ft_error_message := None |})
    (fun e =>
       insertFileTransfer
         {| ft_job_id := replicationId;
            ft_clickup_task_id := clickupTaskId;
            ft_monday_item_id := Some (item_id item);
            ft_file_name := att_title attachment;
            ft_file_size := att_size attachment;
            ft_status := st_failed;
            ft_error_message := message e |}).

(** [transferAttachments] *)
Definition transferAttachments (attachments : list ClickUpAttachment)
           (item : MondayItem) (clickupTaskId : string) : M unit :=
  boardId <- MondayAPI.boardIdOf item ;;
  board <- remote (getBoard svc boardId) ;;
  fileColumn <-
    match List.find FileSyncEngine.isFileColumn (default [] (board_columns board)) with
    | Some c => ret c
    | None => remote (createColumn svc boardId "Files" "file")
    end ;;
  forEach attachments (transferOne (col_id fileColumn) item clickupTaskId).

(** [comment.comment_text || comment.comment.map(c => c.text).join(' ')] *)
Definition commentText (comment : ClickUpComment) : string :=
  match comment_text comment with
  | EmptyString => String.concat " " (comment_parts comment)
  | text => text
  end.

(** [migrateComments]: each comment in its own [try]/[catch]. *)
Definition migrateComments (comments : list ClickUpComment) (itemId : string) : M unit :=
  forEach comments
          (fun comment =>
             tryCatch
               (match FieldMapper.trimStart (commentText comment) with
                | EmptyString => ret tt
                | _ => remote (createUpdate svc itemId (commentText comment))
                end)
               (fun _ => ret tt)).

Definition isChildOf (parentId : string) (t : ClickUpTask) : bool :=
  match task_parent t with
  | Some p => String.eqb p parentId
  | None => false
  end.

(** [migrateTask] *)
Definition migrateTask (task : ClickUpTask) (boardId : string)
           (options : ReplicationOptions) : M MondayItem :=
  fullTask <-
    (if (includeAttachments options || includeComments options)%bool
     then remote (getTask svc (task_id task))
     else ret task) ;;
  item <- MondayAPI.createItem svc boardId (task_name fullTask) ;;
  insertTaskMapping
    {| tm_replication_id := replicationId;
       tm_clickup_task_id := task_id task;
       tm_monday_item_id := item_id item;
       tm_clickup_parent_id := task_parent task;
       tm_monday_parent_id := None;
       tm_sync_status := "synced" |} ;;
  match task_description fullTask with
  | Some (String c d) =>
      if includeComments options then
        match mapDescriptionToUpdate (String c d) with
        | EmptyString => ret tt
        | descriptionText => remote (createUpdate svc (item_id item) descriptionText)
        end
      else ret tt
  | _ => ret tt
  end ;;
  match task_attachments fullTask with
  | Some (a :: l) =>
      if includeAttachments options
      then transferAttachments (a :: l) item (task_id fullTask)
      else ret tt
  | _ => ret tt
  end ;;
  (if includeComments options then
     comments <- remote (getTaskComments svc (task_id task)) ;;
     migrateComments comments (item_id item)
   else ret tt) ;;
  match includeSubtasks options, task_parent fullTask with
  | true, None =>
      allTasks <- remote (getListTasks svc (task_list_id fullTask)) ;;
      forEach (List.filter (isChildOf (task_id fullTask)) allTasks)
              (fun subtask => migrateSubtask subtask (item_id item) boardId)
  | _, _ => ret tt
  end ;;
  ret item.

(** The progress callback of [migrateTasks]: it updates the
    replication row, which holds no task mapping. *)
Definition reportProgress (processed total : Z) : M unit :=
  fun w =>
    updateJobRow
      {| job_processed_tasks := processed;
         job_total_tasks := total;
         job_status := job_status (job_row w) |} w.

(** [migrateTasks]: batches of 10, three retries, sequential, 500 ms
    between batches. *)
Definition migrateTasks (tasks : list ClickUpTask) (boardId : string)
           (options : ReplicationOptions)
  : M (option (BatchProcessor.BatchResult MondayItem)) :=
  BatchProcessor.processBatch
    task_id task_name replicationId
    (fun task => migrateTask task boardId options)
    3 false 5 500
    (Some reportProgress)
    (Some (fun _ _ => ret tt))
    0 (fun _ => 0%nat) tasks 10.

End Replicator.

End ListReplicator.

(** ** clickup.ts: [makeRequest] *)

Module ClickUpAPI.

Record t : Type := mkClient {
  rateLimiter : RateLimiter.t;
  backoff : ExponentialBackoff.t
}.

(** The limiter and the wrapper the constructor installs. *)
Definition new : t :=
  {| rateLimiter := RateLimiter.new (RateLimiter.mkConfig 90 (60 * 1000) (Some 100));
     backoff := ExponentialBackoff.new 3 1000 30000 |}.

Definition retryable : list string := ["ECONNRESET"; "ETIMEDOUT"; "ENOTFOUND"].

(** [makeRequest]: [now] is the clock read by [waitForReset], [now1] and
    [now2] the two readings of [recordRequest]; [fn n] is how the [n]-th
    attempt of the request settles.  The answer holds how the request
    settles, the sleeps in order, and the client afterwards. *)
Definition makeRequest {A} (fuel : nat) (now now1 now2 : Z) (fn : nat -> Outcome A)
           (c : t) : option (Outcome A * list Z * t) :=
  let '(pauses, limiter) := RateLimiter.waitForReset now (rateLimiter c) in
  match ExponentialBackoff.execute fuel fn (Some retryable) (backoff c) with
  | None => None
  | Some run =>
      match ExponentialBackoff.settled run with
      | Ok result =>
          Some (Ok result, pauses ++ ExponentialBackoff.sleeps run,
                {| rateLimiter := RateLimiter.recordRequest now1 now2 limiter;
                   backoff := ExponentialBackoff.final run |})
      | Throw e =>
          Some (Throw e, pauses ++ ExponentialBackoff.sleeps run,
                {| rateLimiter := limiter;
                   backoff := ExponentialBackoff.final run |})
      end
  end.

End ClickUpAPI.

(** ** list-replicator.ts: [replicate] and the replication record *)

Module ListReplication.

Record ClickUpList : Type := mkList {
  list_id : string;
  list_name : string
}.

Record CustomField : Type := mkField {
  field_id : string;
  field_name : string;
  field_type : string
}.

Record FieldMapping : Type := mkFieldMapping {
  clickupField : string;
  clickupFieldType : string;
  mondayColumn : string;
  mondayColumnType : string;
  transformationRule : option FieldMapper.Transformation
}.

(** A row of [field_mappings]. *)
Record FieldMappingRow : Type := mkFieldMappingRow {
  fm_replication_id : string;
  fm_clickup_field_id : string;
  fm_clickup_field_name : string;
  fm_clickup_field_type : string;
  fm_monday_column_id : string;
  fm_monday_column_name : string;
  fm_monday_column_type : string;
  fm_mapping_status : string
}.

(** The row of [list_replications] the replicator works on. *)
Record ReplicationRow : Type := mkReplication {
  rep_status : string;
  rep_completed_at : option string;
  rep_error_message : option string;
  rep_monday_board_id : option string;
  rep_monday_board_name : option string;
  rep_clickup_list_name : option string
}.

(** The store of the per-task steps together with the two tables only
    [replicate] writes. *)
Record Store : Type := mkStore {
  world : World;
  replication : ReplicationRow;
  field_mappings : list FieldMappingRow
}.

(** The remote calls [replicate] makes itself. *)
Record ReplicationServices : Type := mkReplicationServices {
  getList : string -> nat -> Outcome ClickUpList;
  getCustomFields : string -> nat -> Outcome (list CustomField);
  createBoard : string -> nat -> Outcome MondayBoard
}.

Record ReplicationResult : Type := mkReplicationResult {
  success : bool;
  boardId : option string;
  tasksCreated : Z;
  tasksFailed : Z;
  filesTransferred : Z;
  commentsMigrated : Z;
  errors : list string
}.

(** Async code over [Store]. *)
Definition RM (A : Type) : Type := Store -> Outcome A * Store.

Definition rret {A} (a : A) : RM A := fun s => (Ok a, s).

Definition rthrow {A} (e : Error) : RM A := fun s => (Throw e, s).

Definition rbind {A B} (m : RM A) (k : A -> RM B) : RM B :=
  fun s =>
    match m s with
    | (Ok a, s') => k a s'
    | (Throw e, s') => (Throw e, s')
    end.

Definition rtryCatch {A} (m : RM A) (h : Error -> RM A) : RM A :=
  fun s =>
    match m s with
    | (Ok a, s') => (Ok a, s')
    | (Throw e, s') => h e s'
    end.

(** Code written over [World] runs on the [world] of the store. *)
Definition lift {A} (m : M A) : RM A :=
  fun s =>
    let '(o, w') := m (world s) in
    (o, {| world := w'; replication := replication s;
           field_mappings := field_mappings s |}).

Definition modifyReplication (f : ReplicationRow -> ReplicationRow) : RM unit :=
  fun s =>
    (Ok tt, {| world := world s; replication := f (replication s);
               field_mappings := field_mappings s |}).

(** [await db.from('field_mappings').insert(row)] *)
Definition insertFieldMapping (row : FieldMappingRow) : RM unit :=
  fun s =>
    (Ok tt, {| world := world s; replication := replication s;
               field_mappings := field_mappings s ++ [row] |}).

Declare Scope replication_scope.
Delimit Scope replication_scope with replication.
Notation "x <- m ;; k" := (rbind m (fun x => k))
  (at level 100, m at next level, k at level 200, right associativity)
  : replication_scope.
Notation "m ;; k" := (rbind m (fun _ => k))
  (at level 100, k at level 200, right associativity) : replication_scope.
Local Open Scope replication_scope.

(** What reading [updates.started_at] inside the initializer of
    [const updates] throws: the binding is not initialized yet. *)
Definition uninitializedUpdates : Error :=
  newError "Cannot access 'updates' before initialization".

(** [x && {...}] spread into an object: a missing or empty string adds
    nothing. *)
Definition orKeep (given kept : option string) : option string :=
  match given with
  | Some (String c s) => Some (String c s)
  | _ => kept
  end.

Section Replicator.

Variable svc : Services.
Variable rsvc : ReplicationServices.
Variable replicationId : string.
Variable mapDescriptionToUpdate : string -> string.

(** [FieldMapper.mapFieldType] and [FieldMapper.sanitizeColumnName]
    only shape the arguments of [createColumn]. *)
Variable mapFieldType : string -> string.
Variable sanitizeColumnName : string -> string.

(** [new Date().toISOString()] *)
Variable isoNow : string.

(** [updateReplicationStatus]: for [status === 'migrating'] the
    object literal reads [updates.started_at] while [updates] is being
    initialized. *)
Definition updateReplicationStatus (status : string)
           (completedAt errorMessage : option string) : RM unit :=
  if String.eqb status "migrating" then rthrow uninitializedUpdates
  else
    modifyReplication (fun r =>
      {| rep_status := status;
         rep_completed_at := orKeep completedAt (rep_completed_at r);
         rep_error_message := orKeep errorMessage (rep_error_message r);
         rep_monday_board_id := rep_monday_board_id r;
         rep_monday_board_name := rep_monday_board_name r;
         rep_clickup_list_name := rep_clickup_list_name r |}).

(** [updateReplication({monday_board_id, monday_board_name, clickup_list_name})] *)
Definition updateReplication (board : MondayBoard) (listData : ClickUpList) : RM unit :=
  modifyReplication (fun r =>
    {| rep_status := rep_status r;
       rep_completed_at := rep_completed_at r;
       rep_error_message := rep_error_message r;
       rep_monday_board_id := Some (board_id board);
       rep_monday_board_name := Some (board_name board);
       rep_clickup_list_name := Some (list_name listData) |}).

(** The [try] block of one round of [createFieldMappings]. *)
Definition mapOneField (boardId : string) (field : CustomField) : RM FieldMapping :=
  let mondayColumnType := mapFieldType (field_type field) in
  let columnName := sanitizeColumnName (field_name field) in
  column <- lift (remote (createColumn svc boardId columnName mondayColumnType)) ;;
  insertFieldMapping
    {| fm_replication_id := replicationId;
       fm_clickup_field_id := field_id field;
       fm_clickup_field_name := field_name field;
       fm_clickup_field_type := field_type field;
       fm_monday_column_id := col_id column;
       fm_monday_column_name := col_title column;
       fm_monday_column_type := col_type column;
       fm_mapping_status := "auto" |} ;;
  rret {| clickupField := field_name field;
          clickupFieldType := field_type field;
          mondayColumn := col_id column;
          mondayColumnType := col_type column;
          transformationRule := FieldMapper.getTransformationRule (field_type field) |}.

(** The loop of [createFieldMappings]: a field whose round throws is
    printed and left out. *)
Fixpoint fieldsLoop (customFields : list CustomField) (boardId : string)
         (mappings : list FieldMapping) : RM (list FieldMapping) :=
  match customFields with
  | [] => rret mappings
  | field :: rest =>
      mappings' <- rtryCatch (mapping <- mapOneField boardId field ;;
                              rret (mappings ++ [mapping]))
                             (fun _ => rret mappings) ;;
      fieldsLoop rest boardId mappings'
  end.

Definition createFieldMappings (customFields : list CustomField) (boardId : string)
  : RM (list FieldMapping) :=
  fieldsLoop customFields boardId [].

(** [replicate]; [None] stands for a task migration that does not
    come back. *)
Definition replicate (clickupListId mondayBoardName mode : string)
           (options : ListReplicator.ReplicationOptions)
  : RM (option ReplicationResult) :=
  rtryCatch
    (updateReplicationStatus "creating" None None ;;
     listData <- lift (remote (getList rsvc clickupListId)) ;;
     customFields <-
       (if negb (String.eqb mode "data_only")
        then lift (remote (getCustomFields rsvc clickupListId))
        else rret []) ;;
     board <- lift (remote (createBoard rsvc mondayBoardName)) ;;
     updateReplication board listData ;;
     fieldMappings <-
       (if negb (String.eqb mode "data_only")
        then createFieldMappings customFields (board_id board)
        else rret []) ;;
     migrated <-
       (if negb (String.eqb mode "structure_only") then
          updateReplicationStatus "migrating" None None ;;
          tasks <- lift (remote (getListTasks svc clickupListId)) ;;
          lift (ListReplicator.reportProgress 0 (Z.of_nat (length tasks))) ;;
          batchResult <-
            lift (ListReplicator.migrateTasks svc replicationId mapDescriptionToUpdate
                                              tasks (board_id board) options) ;;
          rret (option_map (fun br => (BatchProcessor.successful br,
                                       BatchProcessor.failed br))
                           batchResult)
        else rret (Some (0, 0))) ;;
     match migrated with
     | None => rret None
     | Some (created, failed) =>
         updateReplicationStatus "completed" (Some isoNow) None ;;
         rret (Some {| success := true;
                       boardId := Some (board_id board);
                       tasksCreated := created;
                       tasksFailed := failed;
                       filesTransferred := 0;
                       commentsMigrated := 0;
                       errors := [] |})
     end)
    (fun e =>
       updateReplicationStatus "failed" None (message e) ;;
       rthrow e).

End Replicator.

End ListReplication.

(** ** The job status route: file statistics *)

Module StatusRoute.

Record FileStats : Type := mkFileStats {
  total : Z;
  transferred : Z;
  skipped : Z;
  failed : Z
}.

(** [f.status === status] *)
Definition statusIs (status : TransferStatus) (f : FileTransferRow) : bool :=
  match status, ft_status f with
  | st_pending, st_pending => true
  | st_transferred, st_transferred => true
  | st_skipped, st_skipped => true
  | st_failed, st_failed => true
  | _, _ => false
  end.

(** [db.from('file_transfers').select('status').eq('job_id', jobId)] *)
Definition filesOfJob (jobId : string) (table : list FileTransferRow)
  : list FileTransferRow :=
  List.filter (fun f => String.eqb (ft_job_id f) jobId) table.

(** The [fileStats] object of the response. *)
Definition fileStats (jobId : string) (table : list FileTransferRow) : FileStats :=
  let files := filesOfJob jobId table in
  {| total := Z.of_nat (length files);
     transferred := Z.of_nat (length (List.filter (statusIs st_transferred) files));
     skipped := Z.of_nat (length (List.filter (statusIs st_skipped) files));
     failed := Z.of_nat (length (List.filter (statusIs st_failed) files)) |}.

End StatusRoute.

(** ** Vocabulary of the statements *)

(** [ceil(n / b)] on naturals. *)
Definition ceilDiv (n b : nat) : nat := ((n + b - 1) / b)%nat.

(** The limiter of configuration [cfg] after one [recordRequest] at each
    of [times]. *)
Definition afterBurst (cfg : RateLimiter.RateLimiterConfig) (times : list Z)
  : RateLimiter.t :=
  RateLimiter.recordAll times (RateLimiter.new cfg).

(** The call fails with an error the filter lets through to a retry. *)
Definition failsRetryably {A} (retryableErrors : option (list string))
           (o : Outcome A) : Prop :=
  exists e, o = Throw e /\ ExponentialBackoff.propagates retryableErrors e = false.

(** [min(baseDelay * 2^(a-1), maxDelay)] for the retries [a = 1 .. k]. *)
Definition backoffDelays (bo : ExponentialBackoff.t) (k : nat) : list Z :=
  map (fun a => Z.min (ExponentialBackoff.baseDelay bo * 2 ^ (Z.of_nat a - 1))
                      (ExponentialBackoff.maxDelay bo))
      (seq 1 k).

(** [needle] occurs in [s]: some text, then [needle], then some text. *)
Definition occursIn (needle s : string) : Prop :=
  exists before after, s = before +:+ needle +:+ after.

(** The text of a thrown value: the [message] of an [Error], and
    [String(value)] of a value that is no [Error]. *)
Definition thrownMessage (e : Error) : option string :=
  match nonError e with
  | Some text => Some text
  | None => message e
  end.

(** What becomes of one work item: an answer after some failed calls,
    or no answer in any of the calls made for it; the text is that of the
    value the last call threw. *)
Inductive Fate (R : Type) : Type :=
| Answered (data : R) (failures : nat)
| GaveUp (failures : nat) (lastMessage : option string).
Arguments Answered {R}.
Arguments GaveUp {R}.

(** The fate of an item for which at most [attempts] calls are made,
    the first of them being call number [tick] of the run, and the number
    of the call that follows. *)
Fixpoint fateFrom {R} (answers : nat -> Outcome R) (attempts tick failures : nat)
         (lastMessage : option string) : Fate R * nat :=
  match attempts with
  | O => (GaveUp failures lastMessage, tick)
  | S attempts' =>
      match answers tick with
      | Ok data => (Answered data failures, S tick)
      | Throw e => fateFrom answers attempts' (S tick) (S failures) (thrownMessage e)
      end
  end.

(** The fates of the items of a list handled one after the other. *)
Fixpoint fates {T R} (oracle : T -> nat -> Outcome R) (attempts tick : nat)
         (tasks : list T) : list (Fate R) * nat :=
  match tasks with
  | [] => ([], tick)
  | task :: rest =>
      let (fate, tick1) := fateFrom (oracle task) attempts tick 0 None in
      let (others, tick2) := fates oracle attempts tick1 rest in
      (fate :: others, tick2)
  end.

(** The result reported for an item of the given fate. *)
Definition reportOf {T R} (task_id task_name : T -> string) (maxRetries : Z)
           (task : T) (fate : Fate R) : BatchProcessor.TaskResult R :=
  match fate with
  | Answered data failures =>
      {| BatchProcessor.taskId := task_id task;
         BatchProcessor.taskName := Some (task_name task);
         BatchProcessor.success := true;
         BatchProcessor.error := None;
         BatchProcessor.data := Some data;
         BatchProcessor.retryCount := Z.of_nat failures |}
  | GaveUp failures lastMessage =>
      {| BatchProcessor.taskId := task_id task;
         BatchProcessor.taskName := Some (task_name task);
         BatchProcessor.success := false;
         BatchProcessor.error :=
           Some ("Failed after " +:+ JsString.show_Z maxRetries +:+ " retries: "
                 +:+ JsString.show_opt lastMessage);
         BatchProcessor.data := None;
         BatchProcessor.retryCount := Z.of_nat failures |}
  end.

(** The tally of a list of fates: the answered items, the items given
    up whose last message contains [skipped], and the other items given
    up. *)
Inductive tally {R} : list (Fate R) -> Z -> Z -> Z -> Prop :=
| tally_none : tally [] 0 0 0
| tally_answered data failures rest s k f :
    tally rest s k f ->
    tally (Answered data failures :: rest) (s + 1) k f
| tally_skipped failures text rest s k f :
    occursIn "skipped" text ->
    tally rest s k f ->
    tally (GaveUp failures (Some text) :: rest) s (k + 1) f
| tally_failed failures lastMessage rest s k f :
    (forall text, lastMessage = Some text -> ~ occursIn "skipped" text) ->
    tally rest s k f ->
    tally (GaveUp failures lastMessage :: rest) s k (f + 1).

(** No character of [s] is [c]. *)
Fixpoint lacks (c : ascii) (s : string) : bool :=
  match s with
  | EmptyString => true
  | String a s' => (negb (Ascii.eqb a c) && lacks c s')%bool
  end.

(** The result is one the counting loop puts under [skipped]. *)
Definition isSkippedResult {R} (r : BatchProcessor.TaskResult R) : bool :=
  (negb (BatchProcessor.success r)
   && JsString.opt_includes (BatchProcessor.error r) "skipped")%bool.

(** The result is one the counting loop puts under [failed]. *)
Definition isFailedResult {R} (r : BatchProcessor.TaskResult R) : bool :=
  (negb (BatchProcessor.success r)
   && negb (JsString.opt_includes (BatchProcessor.error r) "skipped"))%bool.

Definition countIf {R} (p : BatchProcessor.TaskResult R -> bool)
           (l : list (BatchProcessor.TaskResult R)) : Z :=
  Z.of_nat (length (List.filter p l)).

(** Every promise in flight was allocated before [nextId] and resolves
    to a result. *)
Definition poolOk {R} (inProgress : list (@BatchProcessor.Promise R)) (nextId : nat)
  : Prop :=
  Forall (fun p => (BatchProcessor.pid p < nextId)%nat
                   /\ exists r, BatchProcessor.settles p = Ok r)
         inProgress.

(** [true] when the call returned, [false] when it threw. *)
Definition returnsNormally {A} (o : Outcome A) : bool :=
  match o with
  | Ok _ => true
  | Throw _ => false
  end.

(** The number of attachments the task carries, none when it has no
    [attachments] field. *)
Definition attachmentsOf (task : ClickUpTask) : Z :=
  match task_attachments task with
  | Some attachments => Z.of_nat (length attachments)
  | None => 0
  end.

(** The attachments of the tasks whose sync returned, all of them
    counted, and none of a task whose sync threw. *)
Fixpoint credited (runs : list (ClickUpTask * bool)) : Z :=
  match runs with
  | [] => 0
  | (task, true) :: runs' => attachmentsOf task + credited runs'
  | (_, false) :: runs' => credited runs'
  end.

(** The course of the task loop of [syncFiles] from position [i] in
    store [w]: each task is paired with [true] when its [syncTaskFiles]
    returned (progress is then written) and with [false] when it threw;
    the last store is the one the loop ends in. *)
Inductive taskRuns (svc : Services) (jobId boardId : string)
          (options : FileSyncEngine.SyncOptions) (total : Z)
  : list ClickUpTask -> Z -> World -> list (ClickUpTask * bool) -> World -> Prop :=
| runs_done i w :
    taskRuns svc jobId boardId options total [] i w [] w
| runs_returned task rest i w w1 runs w' :
    FileSyncEngine.syncTaskFiles svc jobId task boardId options w = (Ok tt, w1) ->
    taskRuns svc jobId boardId options total rest (i + 1)
             (snd (FileSyncEngine.updateProgress total (i + 1) w1)) runs w' ->
    taskRuns svc jobId boardId options total (task :: rest) i w
             ((task, true) :: runs) w'
| runs_threw task rest i w e w1 runs w' :
    FileSyncEngine.syncTaskFiles svc jobId task boardId options w = (Throw e, w1) ->
    taskRuns svc jobId boardId options total rest (i + 1) w1 runs w' ->
    taskRuns svc jobId boardId options total (task :: rest) i w
             ((task, false) :: runs) w'.

(** Running [m] leaves every row of [task_mappings] as it was. *)
Definition keepsMappings {A} (m : M A) : Prop :=
  forall w k row,
    task_mappings w !! k = Some row ->
    task_mappings (snd (m w)) !! k = Some row.

(** The time slept in all. *)
Definition totalSleep (sleeps : list Z) : Z := fold_right Z.add 0 sleeps.

(** What a finished run of [execute] looks like: between 1 and
    [max(1, maxAttempts)] calls, all but the last failing with retryable
    errors, a sleep before each retry, and the attempt counter at 0 after
    a success and at the number of calls after a failure. *)
Definition settledRun {A} (fn : nat -> Outcome A)
           (retryableErrors : option (list string)) (bo : ExponentialBackoff.t)
           (run : ExponentialBackoff.Run A) : Prop :=
  (1 <= ExponentialBackoff.calls run
   <= Z.to_nat (Z.max 1 (ExponentialBackoff.maxAttempts bo)))%nat
  /\ ExponentialBackoff.sleeps run
     = backoffDelays bo (ExponentialBackoff.calls run - 1)
  /\ (forall i, (i < ExponentialBackoff.calls run - 1)%nat ->
                failsRetryably retryableErrors (fn i))
  /\ match ExponentialBackoff.settled run with
     | Ok v =>
         fn (ExponentialBackoff.calls run - 1)%nat = Ok v
         /\ ExponentialBackoff.attempt (ExponentialBackoff.final run) = 0
     | Throw e =>
         ExponentialBackoff.attempt (ExponentialBackoff.final run)
         = Z.of_nat (ExponentialBackoff.calls run)
         /\ exists cause,
              fn (ExponentialBackoff.calls run - 1)%nat = Throw cause
              /\ ((e = cause
                   /\ ExponentialBackoff.propagates retryableErrors cause = true)
                  \/ (e = ExponentialBackoff.terminalError bo cause
                      /\ ExponentialBackoff.propagates retryableErrors cause = false
                      /\ ExponentialBackoff.maxAttempts bo
                         <= Z.of_nat (ExponentialBackoff.calls run)))
     end.

(** The waits of [processTaskWithRetry] before the retries [1 .. k]:
    [min(1000 * 2^i, 30000)]. *)
Definition retryDelays (k : nat) : list Z :=
  map (fun i => Z.min (1000 * 2 ^ Z.of_nat i) 30000) (seq 1 k).

(** The store after [n] more remote calls and the given sleeps. *)
Definition afterCalls (w : World) (n : nat) (sleeps : list Z) : World :=
  {| file_transfers := file_transfers w;
     task_mappings := task_mappings w;
     job_row := job_row w;
     error_log := error_log w;
     slept := slept w ++ sleeps;
     ticks := n + ticks w;
     sync_job_ids := sync_job_ids w |}.

(** Running [m] leaves the job row as it was. *)
Definition keepsJob {A} (m : M A) : Prop :=
  forall w, job_row (snd (m w)) = job_row w.

(** The tasks of a course of the [syncFiles] loop whose sync threw. *)
Definition thrownTasks (runs : list (ClickUpTask * bool)) : list ClickUpTask :=
  map fst (List.filter (fun run => negb (snd run)) runs).

(** The progress last written along a course that starts at position [i]
    with [p] on record: each returning task writes its position. *)
Fixpoint lastProgress (i p : Z) (runs : list (ClickUpTask * bool)) : Z :=
  match runs with
  | [] => p
  | (_, true) :: runs' => lastProgress (i + 1) (i + 1) runs'
  | (_, false) :: runs' => lastProgress (i + 1) p runs'
  end.

(** The job row [FileSyncEngine.updateProgress] writes. *)
Definition progressRow (total processed : Z) : JobRow :=
  {| job_processed_tasks := processed;
     job_total_tasks := total;
     job_status := if processed <? total then "running" else "completed" |}.

(** The store in which the task loop of [syncFiles] starts: one remote
    call was made, to fetch the [total] tasks, and the job row says that
    none of them is processed. *)
Definition fetchedStore (w : World) (total : Z) : World :=
  {| file_transfers := file_transfers w;
     task_mappings := task_mappings w;
     job_row := progressRow total 0;
     error_log := error_log w;
     slept := slept w;
     ticks := S (ticks w);
     sync_job_ids := sync_job_ids w |}.

(** The largest size the file sync accepts: 500 MB. *)
Definition sizeLimit : Z := 500 * 1024 * 1024.

(** An asset of the same size and, up to letter case, the same name as
    the attachment. *)
Definition sameFile (attachment : ClickUpAttachment) (asset : MondayAsset) : Prop :=
  JsString.toLowerCase (asset_name asset) = JsString.toLowerCase (att_title attachment)
  /\ asset_file_size asset = att_size attachment.

(** The lower-cased name of the item contains the lower-cased [name]. *)
Definition nameWithin (name : string) (item : MondayItem) : Prop :=
  occursIn (JsString.toLowerCase name) (JsString.toLowerCase (item_name item)).

(** The comment has text left once white space is trimmed. *)
Definition hasText (comment : ClickUpComment) : bool :=
  match FieldMapper.trimStart (ListReplicator.commentText comment) with
  | EmptyString => false
  | String _ _ => true
  end.


(** Every character of [s] passes [p]. *)
Fixpoint allChars (p : ascii -> bool) (s : string) : bool :=
  match s with
  | EmptyString => true
  | String c s' => (p c && allChars p s')%bool
  end.

(** The column type names of [FieldMapper.typeMap]. *)
Definition mappedColumnTypes : list string :=
  ["text"; "long-text"; "numbers"; "date"; "checkbox"; "status"; "tags";
   "email"; "phone"; "link"; "people"; "rating"; "location"].

(** Running [m] only appends rows to [file_transfers], each of them
    passing [P]. *)
Definition appendsOnly {A} (P : FileTransferRow -> Prop) (m : M A) : Prop :=
  forall w, exists rows,
    file_transfers (snd (m w)) = file_transfers w ++ rows /\ Forall P rows.

(** A row as the file sync writes them: of this job, [transferred] or
    [skipped]. *)
Definition syncRow (jobId : string) (row : FileTransferRow) : Prop :=
  ft_job_id row = jobId
  /\ (ft_status row = st_transferred \/ ft_status row = st_skipped).

(** ** Sample data for the worked cases *)

(** A store with nothing in it. *)
Definition emptyWorld : World :=
  {| file_transfers := [];
     task_mappings := ∅;
     job_row := {| job_processed_tasks := 0; job_total_tasks := 0;
                   job_status := "pending" |};
     error_log := [];
     slept := [];
     ticks := 0;
     sync_job_ids := ["job"] |}.

Definition demoAttachment (title url : string) (size : Z) : ClickUpAttachment :=
  {| att_title := title; att_size := size; att_extension := "pdf"; att_url := url |}.

Definition demoTask (id name : string) (attachments : list ClickUpAttachment)
  : ClickUpTask :=
  {| task_id := id; task_name := name;
     task_url := "https://app.clickup.com/t/" +:+ id;
     task_parent := None; task_description := None;
     task_list_id := "l1"; task_attachments := Some attachments |}.

Definition demoItem (id name : string) : MondayItem :=
  {| item_id := id; item_name := name; item_board_id := Some "b1";
     item_assets := Some [{| asset_name := "Report.PDF"; asset_file_size := 2048 |}] |}.

Definition demoFileColumn : MondayColumn :=
  {| col_id := "files"; col_title := "Files"; col_type := "file" |}.

Definition demoBoard : MondayBoard :=
  {| board_id := "b1"; board_name := "Board"; board_columns := Some [demoFileColumn] |}.

(** Services that answer from fixed data: the list holds [tasks], the
    board holds [items], one download address is broken, and every item
    created is named after the call that created it. *)
Definition demoServices (tasks : list ClickUpTask) (items : list MondayItem) : Services :=
  {| getTasksWithAttachments := fun _ _ => Ok tasks;
     getListTasks := fun _ _ => Ok tasks;
     getTask := fun _ _ => Throw (newError "Request failed with status code 404");
     getTaskComments := fun _ _ => Throw (newError "ETIMEDOUT");
     downloadAttachment := fun url _ =>
       if String.eqb url "https://files/broken" then Throw (newError "ETIMEDOUT")
       else Ok "bytes";
     getItems := fun _ _ => Ok items;
     getBoard := fun _ _ => Ok demoBoard;
     createColumn := fun _ _ _ _ => Ok demoFileColumn;
     createItem := fun _ name n =>
       Ok {| item_id := "item-" +:+ JsString.show_Z (Z.of_nat n); item_name := name;
             item_board_id := Some "b1"; item_assets := None |};
     createSubitem := fun _ name n =>
       Ok {| item_id := "sub-" +:+ JsString.show_Z (Z.of_nat n); item_name := name;
             item_board_id := Some "b1"; item_assets := None |};
     createUpdate := fun _ _ _ => Ok tt;
     changeColumnValue := fun _ _ _ _ => Ok tt;
     addFileToColumn := fun _ _ _ _ _ => Ok tt |}.

Definition demoOptions : FileSyncEngine.SyncOptions :=
  {| FileSyncEngine.batchSize := 10;
     FileSyncEngine.skipDuplicates := true;
     FileSyncEngine.includeAttachments := true;
     FileSyncEngine.includeComments := false;
     FileSyncEngine.includeSubtasks := false;
     FileSyncEngine.clickupLinkField := None |}.

(** ** Vocabulary of the replication statements *)

(** The custom fields for which [createColumn] answers, each with the
    column it was given, when the calls start at [tick]. *)
Fixpoint mappedFields (svc : Services) (mapFieldType sanitizeColumnName : string -> string)
         (boardId : string) (tick : nat) (fields : list ListReplication.CustomField)
  : list (ListReplication.CustomField * MondayColumn) :=
  match fields with
  | [] => []
  | field :: rest =>
      match createColumn svc boardId
                         (sanitizeColumnName (ListReplication.field_name field))
                         (mapFieldType (ListReplication.field_type field)) tick with
      | Ok column =>
          (field, column)
            :: mappedFields svc mapFieldType sanitizeColumnName boardId (S tick) rest
      | Throw _ => mappedFields svc mapFieldType sanitizeColumnName boardId (S tick) rest
      end
  end.

(** The row of [field_mappings] for a field and its column. *)
Definition fieldRow (replicationId : string)
           (fc : ListReplication.CustomField * MondayColumn)
  : ListReplication.FieldMappingRow :=
  {| ListReplication.fm_replication_id := replicationId;
     ListReplication.fm_clickup_field_id := ListReplication.field_id (fst fc);
     ListReplication.fm_clickup_field_name := ListReplication.field_name (fst fc);
     ListReplication.fm_clickup_field_type := ListReplication.field_type (fst fc);
     ListReplication.fm_monday_column_id := col_id (snd fc);
     ListReplication.fm_monday_column_name := col_title (snd fc);
     ListReplication.fm_monday_column_type := col_type (snd fc);
     ListReplication.fm_mapping_status := "auto" |}.

(** Between two stores only remote calls were made: the tables of the
    per-task steps and the replication row are as they were. *)
Definition onlyCalls (s s' : ListReplication.Store) (calls : nat) : Prop :=
  ListReplication.world s' = afterCalls (ListReplication.world s) calls []
  /\ ListReplication.replication s' = ListReplication.replication s.

(** What the three setup calls of [replicate] answer when they start at
    [tick]: the list, its custom fields (not asked for in [data_only]
    mode) and the new board; [None] when one of them fails. *)
Definition setupAnswers (rsvc : ListReplication.ReplicationServices)
           (clickupListId mondayBoardName mode : string) (tick : nat)
  : option (ListReplication.ClickUpList * list ListReplication.CustomField
            * MondayBoard * nat) :=
  match ListReplication.getList rsvc clickupListId tick with
  | Throw _ => None
  | Ok listData =>
      if String.eqb mode "data_only" then
        match ListReplication.createBoard rsvc mondayBoardName (S tick) with
        | Ok board => Some (listData, [], board, S (S tick))
        | Throw _ => None
        end
      else
        match ListReplication.getCustomFields rsvc clickupListId (S tick) with
        | Throw _ => None
        | Ok customFields =>
            match ListReplication.createBoard rsvc mondayBoardName (S (S tick)) with
            | Ok board => Some (listData, customFields, board, S (S (S tick)))
            | Throw _ => None
            end
        end
  end.

(** ** Sample data for the replication *)

(** A replication record as the start route creates it. *)
Definition freshStore : ListReplication.Store :=
  {| ListReplication.world := emptyWorld;
     ListReplication.replication :=
       {| ListReplication.rep_status := "mapping";
          ListReplication.rep_completed_at := None;
          ListReplication.rep_error_message := None;
          ListReplication.rep_monday_board_id := None;
          ListReplication.rep_monday_board_name := None;
          ListReplication.rep_clickup_list_name := None |};
     ListReplication.field_mappings := [] |}.

(** Replication services that answer from fixed data. *)
Definition demoReplicationServices (fields : list ListReplication.CustomField)
  : ListReplication.ReplicationServices :=
  {| ListReplication.getList := fun id _ =>
       Ok {| ListReplication.list_id := id; ListReplication.list_name := "Sprint" |};
     ListReplication.getCustomFields := fun _ _ => Ok fields;
     ListReplication.createBoard := fun name _ =>
       Ok {| board_id := "b1"; board_name := name; board_columns := None |} |}.

(* ===================================================================== *)
(** * Part II: properties                                                 *)
(* ===================================================================== *)

(** ** Batches *)

Section CreateBatches.

Import BatchProcessor.

Context {U : Type}.

Lemma ceilDiv_zero b : ceilDiv 0 b = 0%nat.
Proof.
  unfold ceilDiv. destruct b as [|b]; [reflexivity|].
  apply Nat.div_small. lia.
Qed.

Lemma ceilDiv_step n b :
  (0 < b)%nat -> (0 < n)%nat -> ceilDiv n b = S (ceilDiv (n - b) b).
Proof.
  intros Hb Hn. unfold ceilDiv.
  destruct (Nat.le_gt_cases n b) as [Hle|Hgt].
  - replace (n - b)%nat with 0%nat by lia.
    replace (0 + b - 1)%nat with (b - 1)%nat by lia.
    rewrite (Nat.div_small (b - 1) b) by lia.
    replace (n + b - 1)%nat with ((n - 1) + 1 * b)%nat by lia.
    rewrite Nat.div_add by lia.
    rewrite Nat.div_small by lia. reflexivity.
  - replace (n + b - 1)%nat with ((n - b + b - 1) + 1 * b)%nat by lia.
    rewrite Nat.div_add by lia. lia.
Qed.

Lemma batchLoop_spec (items : list U) (size : nat) :
  (0 < size)%nat ->
  forall fuel i batches,
    (length items - i <= fuel)%nat ->
    exists rest,
      batchLoop fuel items size i batches = Some (batches ++ rest)
      /\ concat rest = skipn i items
      /\ length rest = ceilDiv (length items - i) size.
Proof.
  intros Hsize fuel.
  induction fuel as [|fuel IH]; intros i batches Hfuel.
  - exists []. simpl.
    destruct (Nat.ltb_spec i (length items)) as [Hlt|Hge]; [lia|].
    rewrite app_nil_r. repeat split.
    + symmetry. apply skipn_all2. lia.
    + replace (length items - i)%nat with 0%nat by lia.
      now rewrite ceilDiv_zero.
  - simpl.
    destruct (Nat.ltb_spec i (length items)) as [Hlt|Hge].
    + destruct (IH (i + size)%nat (batches ++ [slice items i (i + size)]))
        as (rest & Hrun & Hcat & Hlen); [lia|].
      exists (slice items i (i + size) :: rest).
      rewrite Hrun, <- app_assoc. simpl. repeat split.
      * rewrite Hcat. unfold slice.
        replace (i + size - i)%nat with size by lia.
        replace (skipn (i + size) items) with (skipn size (skipn i items))
          by (rewrite skipn_skipn; f_equal; lia).
        apply firstn_skipn.
      * rewrite Hlen.
        rewrite (ceilDiv_step (length items - i) size) by lia.
        do 2 f_equal. lia.
    + exists []. rewrite app_nil_r. repeat split.
      * symmetry. apply skipn_all2. lia.
      * replace (length items - i)%nat with 0%nat by lia.
        now rewrite ceilDiv_zero.
Qed.

(** C6. For a batch size [b] with [0 < b < N], [createBatches] returns
    [ceil(N / b)] batches whose concatenation, in order, is the input;
    for [b = 0] it returns the single batch of all [N] items. *)
Theorem createBatches_partition (items : list U) (b : nat) :
  ((0 < b < length items)%nat ->
   exists batches,
     createBatches items b = Some batches
     /\ length batches = ceilDiv (length items) b
     /\ concat batches = items)
  /\ createBatches items 0 = Some [items].
Proof.
  split; [|reflexivity].
  intros [Hpos Hlt]. unfold createBatches.
  destruct (Nat.eqb_spec b 0) as [->|_]; [lia|].
  destruct (Nat.leb_spec (length items) b) as [Hle|_]; [lia|]. simpl.
  destruct (batchLoop_spec items b Hpos (length items) 0%nat [])
    as (rest & Hrun & Hcat & Hlen); [lia|].
  exists rest. rewrite Hrun. simpl in *.
  rewrite Nat.sub_0_r in Hlen. auto.
Qed.

End CreateBatches.

(** The statement applied to seven items in batches of three. *)
Lemma createBatches_partition_witness :
  exists batches,
    BatchProcessor.createBatches [1; 2; 3; 4; 5; 6; 7] 3 = Some batches
    /\ length batches = ceilDiv 7 3
    /\ concat batches = [1; 2; 3; 4; 5; 6; 7].
Proof.
  apply (proj1 (createBatches_partition [1; 2; 3; 4; 5; 6; 7] 3%nat)).
  simpl. lia.
Defined.

Lemma ceilDiv_covers n b : (0 < b)%nat -> (n <= ceilDiv n b * b)%nat.
Proof.
  intros Hb. unfold ceilDiv.
  pose proof (Nat.div_mod_eq (n + b - 1) b) as Hdiv.
  pose proof (Nat.mod_upper_bound (n + b - 1) b ltac:(lia)) as Hmod.
  nia.
Qed.

Lemma createBatches_cover {U} (items : list U) (size : nat) :
  exists batches,
    BatchProcessor.createBatches items size = Some batches
    /\ concat batches = items
    /\ batches <> []
    /\ (length items
        <= length batches * (if (size =? 0)%nat then length items else size))%nat.
Proof.
  unfold BatchProcessor.createBatches.
  destruct (Nat.eqb_spec size 0) as [->|Hsize]; cbn [orb].
  - exists [items]. cbn. rewrite app_nil_r. repeat split; [discriminate|lia].
  - destruct (Nat.leb_spec (length items) size) as [Hle|Hgt].
    + exists [items]. cbn. rewrite app_nil_r. repeat split; [discriminate|lia].
    + destruct (batchLoop_spec items size ltac:(lia) (length items) 0%nat [])
        as (rest & Hrun & Hcat & Hlen); [lia|].
      exists rest. rewrite Hrun. cbn [app]. cbn in Hcat.
      rewrite Nat.sub_0_r in Hlen. repeat split; auto.
      * intros ->. cbn in Hlen. symmetry in Hlen.
        pose proof (ceilDiv_covers (length items) size ltac:(lia)). nia.
      * rewrite Hlen. apply ceilDiv_covers. lia.
Qed.

(** ** The sliding window of [RateLimiter] *)

Section RateLimiterWindow.

Import RateLimiter.

Lemma filter_keep_all {A} (p : A -> bool) (l : list A) :
  (forall x, In x l -> p x = true) -> List.filter p l = l.
Proof.
  induction l as [|a l IH]; intros H; simpl; [reflexivity|].
  rewrite (H a (or_introl eq_refl)). f_equal. apply IH.
  intros x Hx. apply H. now right.
Qed.

Lemma filter_drop_all {A} (p : A -> bool) (l : list A) :
  (forall x, In x l -> p x = false) -> List.filter p l = [].
Proof.
  induction l as [|a l IH]; intros H; simpl; [reflexivity|].
  rewrite (H a (or_introl eq_refl)). apply IH.
  intros x Hx. apply H. now right.
Qed.

Lemma recordAll_requests times : forall rl,
  requests (recordAll times rl) = requests rl ++ times
  /\ config (recordAll times rl) = config rl.
Proof.
  unfold recordAll.
  induction times as [|t times IH]; intros rl; simpl.
  - now rewrite app_nil_r.
  - destruct (IH (recordRequest t t rl)) as [Hr Hc].
    rewrite Hr, Hc. simpl. now rewrite <- app_assoc.
Qed.

(** A configuration and a run of the limiter: [times] are the
    timestamps recorded, [now] the instant of the first probe and
    [later] the instant of the second. *)
Variable cfg : RateLimiterConfig.
Variables (times : list Z) (now later : Z).

Lemma afterBurst_requests :
  requests (afterBurst cfg times) = times /\ config (afterBurst cfg times) = cfg.
Proof.
  unfold afterBurst. destruct (recordAll_requests times (new cfg)) as [Hr Hc].
  now rewrite Hr, Hc.
Qed.

Lemma probe_full :
  Z.of_nat (length times) = maxRequests cfg ->
  (forall time, In time times -> now - time < windowMs cfg) ->
  checkLimit now (afterBurst cfg times) = (false, afterBurst cfg times).
Proof.
  intros Hlen Hin.
  destruct afterBurst_requests as [Hr Hc].
  destruct (afterBurst cfg times) as [rs c l]. simpl in Hr, Hc. subst rs c.
  unfold checkLimit, inWindow, withRequests. simpl.
  rewrite filter_keep_all by (intros x Hx; apply Z.ltb_lt; auto).
  now rewrite Hlen, Z.ltb_irrefl.
Qed.

(** C8 (amended). For a configuration with [maxRequests >= 1]: after
    exactly [maxRequests] requests were recorded, all within the window
    at [now], [checkLimit] answers [false]; once every recorded
    timestamp lies outside the window, at [later], it answers [true]
    again. *)
Theorem checkLimit_full_then_free :
  0 < maxRequests cfg ->
  Z.of_nat (length times) = maxRequests cfg ->
  (forall time, In time times -> now - time < windowMs cfg) ->
  (forall time, In time times -> windowMs cfg <= later - time) ->
  fst (checkLimit now (afterBurst cfg times)) = false
  /\ fst (checkLimit later (snd (checkLimit now (afterBurst cfg times)))) = true.
Proof.
  intros Hpos Hlen Hin Hout.
  rewrite probe_full by assumption. simpl. split; [reflexivity|].
  destruct afterBurst_requests as [Hr Hc].
  destruct (afterBurst cfg times) as [rs c l]. simpl in Hr, Hc. subst rs c.
  unfold checkLimit, inWindow, withRequests. simpl.
  rewrite filter_drop_all by (intros x Hx; apply Z.ltb_ge; auto).
  simpl. now apply Z.ltb_lt.
Qed.

End RateLimiterWindow.

(** The statement at the Monday adapter's window with a quota of three. *)
Lemma checkLimit_full_then_free_witness :
  let cfg := RateLimiter.mkConfig 3 60000 (Some 500) in
  fst (RateLimiter.checkLimit 2000 (afterBurst cfg [0; 500; 1000])) = false
  /\ fst (RateLimiter.checkLimit 70000
            (snd (RateLimiter.checkLimit 2000 (afterBurst cfg [0; 500; 1000])))) = true.
Proof.
  apply (checkLimit_full_then_free (RateLimiter.mkConfig 3 60000 (Some 500))
                                   [0; 500; 1000] 2000 70000).
  - simpl. lia.
  - reflexivity.
  - simpl. intros time H. repeat (destruct H as [<-|H]; [lia|]). destruct H.
  - simpl. intros time H. repeat (destruct H as [<-|H]; [lia|]). destruct H.
Defined.

(** Unamended, the statement covers every configuration; with [maxRequests = 0] no
    probe ever answers [true], so the second half fails. *)
Lemma checkLimit_zero_quota_counterexample :
  ~ (forall (cfg : RateLimiter.RateLimiterConfig) (times : list Z) (now later : Z),
        Z.of_nat (length times) = RateLimiter.maxRequests cfg ->
        (forall time, In time times -> now - time < RateLimiter.windowMs cfg) ->
        (forall time, In time times -> RateLimiter.windowMs cfg <= later - time) ->
        fst (RateLimiter.checkLimit now (afterBurst cfg times)) = false
        /\ fst (RateLimiter.checkLimit later
                  (snd (RateLimiter.checkLimit now (afterBurst cfg times)))) = true).
Proof.
  intros H.
  destruct (H (RateLimiter.mkConfig 0 1000 None) [] 0 5000) as [_ Hfree].
  - reflexivity.
  - intros time [].
  - intros time [].
  - discriminate Hfree.
Qed.

(** ** The retry wrapper *)

Section Backoff.

Import ExponentialBackoff.

Context {A : Type}.
Variable fn : nat -> Outcome A.
Variable retryableErrors : option (list string).

Lemma setAttempt_same bo : setAttempt bo (attempt bo) = bo.
Proof. now destruct bo. Qed.

Lemma loop_retries k : forall fuel bo slept n,
  (forall i, (i < k)%nat -> failsRetryably retryableErrors (fn (n + i))) ->
  0 <= attempt bo ->
  attempt bo + Z.of_nat k < Z.max 1 (maxAttempts bo) ->
  loop (k + fuel) fn retryableErrors bo slept n
  = loop fuel fn retryableErrors
         (setAttempt bo (attempt bo + Z.of_nat k))
         (slept ++ map (fun a => delay bo (attempt bo + Z.of_nat a)) (seq 1 k))
         (n + k).
Proof.
  induction k as [|k IH]; intros fuel bo slept n Hfail Hpos Hbudget.
  - simpl. rewrite Z.add_0_r, setAttempt_same, app_nil_r, Nat.add_0_r. reflexivity.
  - destruct (Hfail 0%nat ltac:(lia)) as (e & Hthrow & Hprop).
    rewrite Nat.add_0_r in Hthrow.
    change (S k + fuel)%nat with (S (k + fuel)).
    cbn [loop]. rewrite Hthrow, Hprop.
    cbn [attempt maxAttempts setAttempt].
    destruct (Z.geb_spec (attempt bo + 1) (maxAttempts bo)) as [Hge|Hlt]; [lia|].
    rewrite IH.
    + cbn [attempt maxAttempts setAttempt].
      f_equal.
      * unfold setAttempt. cbn. f_equal. lia.
      * rewrite <- app_assoc. f_equal.
        change (seq 1 (S k)) with (1%nat :: seq 2 k).
        cbn [map app]. f_equal.
        rewrite <- (seq_shift k 1), map_map. apply map_ext. intros a.
        unfold delay. cbn. do 3 f_equal. lia.
      * lia.
    + intros i Hi. replace (S n + i)%nat with (n + S i)%nat by lia.
      apply Hfail. lia.
    + cbn. lia.
    + cbn. lia.
Qed.

Lemma execute_retries k fuel bo :
  (forall i, (i < k)%nat -> failsRetryably retryableErrors (fn i)) ->
  Z.of_nat k < Z.max 1 (maxAttempts bo) ->
  execute (k + fuel) fn retryableErrors bo
  = loop fuel fn retryableErrors (setAttempt bo (Z.of_nat k)) (backoffDelays bo k) k.
Proof.
  intros Hfail Hbudget. unfold execute.
  rewrite loop_retries; cbn; auto; lia.
Qed.

(** C7 (amended). Let the first [k] calls fail with retryable errors,
    [k] being within the attempt budget.  Then
    - if call [k] succeeds, its value is returned and the attempt
      counter is back at zero;
    - if call [k] fails and that failure reaches [maxAttempts], an error
      naming [maxAttempts] and carrying the last message is thrown;
    - if a non-empty filter is supplied and the error of call [k]
      matches none of its entries, that error is thrown as it is, and
      no further call is made;
    and in each case the delays slept were
    [min(baseDelay * 2^(a-1), maxDelay)] for [a = 1 .. k]. *)
Theorem execute_contract (bo : t) (k fuel : nat) :
  (forall i, (i < k)%nat -> failsRetryably retryableErrors (fn i)) ->
  Z.of_nat k < Z.max 1 (maxAttempts bo) ->
  (forall v, fn k = Ok v ->
     execute (S k + fuel) fn retryableErrors bo
     = Some (mkRun (Ok v) (setAttempt bo 0) (backoffDelays bo k) (S k)))
  /\ (forall e, fn k = Throw e ->
        propagates retryableErrors e = false ->
        maxAttempts bo <= Z.of_nat k + 1 ->
        execute (S k + fuel) fn retryableErrors bo
        = Some (mkRun
                  (Throw (newError ("Max retry attempts ("
                                    +:+ JsString.show_Z (maxAttempts bo)
                                    +:+ ") exceeded: "
                                    +:+ JsString.show_opt (message e))))
                  (setAttempt bo (Z.of_nat k + 1)) (backoffDelays bo k) (S k)))
  /\ (forall e entries, fn k = Throw e ->
        retryableErrors = Some entries ->
        entries <> [] ->
        isRetryable entries e = false ->
        execute (S k + fuel) fn retryableErrors bo
        = Some (mkRun (Throw e) (setAttempt bo (Z.of_nat k + 1))
                      (backoffDelays bo k) (S k))).
Proof.
  intros Hfail Hbudget.
  replace (S k + fuel)%nat with (k + S fuel)%nat by lia.
  rewrite execute_retries by assumption.
  repeat split.
  - intros v Hv. cbn [loop]. rewrite Hv. reflexivity.
  - intros e He Hprop Hmax. cbn [loop]. rewrite He, Hprop.
    cbn [attempt maxAttempts setAttempt].
    destruct (Z.geb_spec (Z.of_nat k + 1) (maxAttempts bo)) as [_|Hlt]; [|lia].
    reflexivity.
  - intros e entries He Hsome Hne Hno. cbn [loop]. rewrite He.
    assert (Hprop : propagates retryableErrors e = true).
    { rewrite Hsome. destruct entries as [|x xs]; [congruence|].
      unfold propagates. now rewrite Hno. }
    rewrite Hprop. reflexivity.
Qed.

End Backoff.

(** The statement on an operation that times out twice and then answers,
    under the Monday adapter's filter and the default wrapper. *)
Lemma execute_contract_witness :
  ExponentialBackoff.execute
    3 (fun n => if (n <? 2)%nat then Throw (newError "ETIMEDOUT") else Ok 7)
    (Some ["ETIMEDOUT"; "ECONNRESET"; "complexity_budget_exhausted"])
    ExponentialBackoff.default
  = Some (ExponentialBackoff.mkRun (Ok 7) ExponentialBackoff.default [1000; 2000] 3%nat).
Proof.
  apply (proj1 (execute_contract
                  (fun n => if (n <? 2)%nat then Throw (newError "ETIMEDOUT") else Ok 7)
                  (Some ["ETIMEDOUT"; "ECONNRESET"; "complexity_budget_exhausted"])
                  ExponentialBackoff.default 2 0
                  ltac:(intros i Hi; exists (newError "ETIMEDOUT");
                        destruct i as [|[|i]]; [split; reflexivity ..|lia])
                  ltac:(simpl; lia)) 7).
  reflexivity.
Defined.

(** Unamended, the statement lets any supplied filter stop the retries; an empty
    list is supplied here, the error matches none of its entries, and the
    operation is retried all the same. *)
Lemma execute_empty_filter_counterexample :
  ~ (forall (fn : nat -> Outcome Z) (entries : list string) (e : Error)
            (bo : ExponentialBackoff.t) (fuel : nat),
        fn 0%nat = Throw e ->
        ExponentialBackoff.isRetryable entries e = false ->
        exists run,
          ExponentialBackoff.execute (S fuel) fn (Some entries) bo = Some run
          /\ ExponentialBackoff.settled run = Throw e
          /\ ExponentialBackoff.calls run = 1%nat).
Proof.
  intros H.
  destruct (H (fun n => if (n <? 1)%nat then Throw (newError "boom") else Ok 7)
              [] (newError "boom") ExponentialBackoff.default 1%nat
              eq_refl eq_refl) as (run & Hrun & Hsettled & _).
  cbv in Hrun. injection Hrun as <-. discriminate Hsettled.
Qed.

(** ** The numeric transformation rules *)

Section NumericRules.

Import FieldMapper.

Lemma parseFloatOrZero_number v :
  parseFloatOrZero v
  = VNumber (if numberTruthy (parseFloat v) then parseFloat v else Finite 0 0).
Proof. unfold parseFloatOrZero. now destruct (numberTruthy (parseFloat v)). Qed.

Lemma isNaN_not_truthy n : isNaN n = true -> numberTruthy n = false.
Proof. now destruct n. Qed.

(** C2 (amended). The ['number'] rule answers [null] exactly for
    [null] and [undefined], the ['currency'] rule exactly for falsy
    input.  On any other input both answer a number: the parsed float
    when that is a non-zero number, and [0] when the input parses to
    [NaN] or to zero. *)
Theorem numeric_rules_contract (v : JsValue) :
  (getTransformationRule "number" ≫= ruleBody = Some numberRule)
  /\ (getTransformationRule "currency" ≫= ruleBody = Some currencyRule)
  /\ (numberRule v = VNull <-> v = VNull \/ v = VUndefined)
  /\ (currencyRule v = VNull <-> truthy v = false)
  /\ (forall rule, rule = numberRule \/ rule = currencyRule ->
        rule v <> VNull ->
        rule v = VNumber (if numberTruthy (parseFloat v)
                          then parseFloat v else Finite 0 0)
        /\ (isNaN (parseFloat v) = true -> rule v = VNumber (Finite 0 0))).
Proof.
  split; [reflexivity|]. split; [reflexivity|].
  assert (Hnum : forall u, parseFloatOrZero u <> VNull).
  { intros u. rewrite parseFloatOrZero_number. discriminate. }
  split; [|split].
  - split.
    + destruct v; simpl; auto; intros H; now apply Hnum in H.
    + intros [-> | ->]; reflexivity.
  - unfold currencyRule. destruct (truthy v); simpl; split; auto.
    + intros H. now apply Hnum in H.
    + discriminate.
  - intros rule Hrule Hnotnull.
    assert (Hval : rule v = parseFloatOrZero v).
    { destruct Hrule as [-> | ->].
      - destruct v; simpl in *; congruence.
      - unfold currencyRule in *. destruct (truthy v); simpl in *; congruence. }
    rewrite Hval, parseFloatOrZero_number. split; [reflexivity|].
    intros Hnan. now rewrite (isNaN_not_truthy _ Hnan).
Qed.

End NumericRules.

(** The statement on the text [abc], which is not a number. *)
Lemma numeric_rules_contract_witness :
  FieldMapper.numberRule (FieldMapper.VString "abc")
  = FieldMapper.VNumber (FieldMapper.Finite 0 0).
Proof.
  apply (proj2 (proj2 (proj2 (proj2
           (numeric_rules_contract (FieldMapper.VString "abc")))))
           FieldMapper.numberRule (or_introl eq_refl)).
  - discriminate.
  - reflexivity.
Defined.

(** Unamended, the statement has both rules answer [null] on input that parses to
    [NaN]; on [abc] both answer [0]. *)
Lemma numeric_rules_counterexample :
  ~ (forall v : FieldMapper.JsValue,
        FieldMapper.isNaN (FieldMapper.parseFloat v) = true ->
        FieldMapper.numberRule v = FieldMapper.VNull
        /\ FieldMapper.currencyRule v = FieldMapper.VNull).
Proof.
  intros H.
  destruct (H (FieldMapper.VString "abc") eq_refl) as [Hnumber _].
  discriminate Hnumber.
Qed.

(** ** Reasoning about asynchronous code *)

Lemma capture_run {A} (m : M A) w :
  capture m w = (Ok (fst (m w)), snd (m w)).
Proof. unfold capture. now destruct (m w). Qed.

Lemma bind_capture {A B} (m : M A) (k : Outcome A -> M B) w :
  bind (capture m) k w = k (fst (m w)) (snd (m w)).
Proof. unfold bind. now rewrite capture_run. Qed.

Lemma bind_modify {B} (f : World -> World) (k : unit -> M B) w :
  bind (modify f) k w = k tt (f w).
Proof. reflexivity. Qed.

Lemma bind_ret {A B} (a : A) (k : A -> M B) w : bind (ret a) k w = k a w.
Proof. reflexivity. Qed.

Lemma afterCalls_zero w : afterCalls w 0 [] = w.
Proof. destruct w. unfold afterCalls. cbn. now rewrite app_nil_r. Qed.

Lemma afterCalls_more w n ds m es :
  afterCalls (afterCalls w n ds) m es = afterCalls w (m + n) (ds ++ es).
Proof. unfold afterCalls. cbn. f_equal; [now rewrite app_assoc|lia]. Qed.

Lemma remote_run {A} (o : nat -> Outcome A) w :
  remote o w = (o (ticks w), afterCalls w 1 []).
Proof. unfold remote, afterCalls. cbn. now rewrite app_nil_r. Qed.

Lemma wait_run ms w n ds : wait ms (afterCalls w n ds) = (Ok tt, afterCalls w n (ds ++ [ms])).
Proof. unfold wait, modify, afterCalls. cbn. now rewrite app_assoc. Qed.

(** ** The text of a failure result *)

Lemma asError_message e : message (asError e) = thrownMessage e.
Proof. unfold asError, thrownMessage. now destruct (nonError e). Qed.

Lemma isSyncJob_spec w id : isSyncJob w id = true <-> In id (sync_job_ids w).
Proof.
  unfold isSyncJob. rewrite existsb_exists. split.
  - intros (x & Hin & Heq). apply String.eqb_eq in Heq. now subst.
  - intros Hin. exists id. split; [exact Hin|apply String.eqb_refl].
Qed.

Lemma append_cons x (a b : string) : String x a +:+ b = String x (a +:+ b).
Proof. reflexivity. Qed.

Lemma append_nil (b : string) : EmptyString +:+ b = b.
Proof. reflexivity. Qed.

Lemma lacks_app c a b : lacks c (a +:+ b) = (lacks c a && lacks c b)%bool.
Proof.
  induction a as [|x a IH]; [reflexivity|].
  rewrite append_cons. cbn [lacks]. now rewrite IH, andb_assoc.
Qed.

Lemma append_assoc (a b c : string) : (a +:+ b) +:+ c = a +:+ (b +:+ c).
Proof.
  induction a as [|x a IH]; [reflexivity|].
  rewrite !append_cons. f_equal. exact IH.
Qed.

Lemma prefix_second_char c0 c1 rest a s :
  match s with
  | EmptyString => True
  | String b _ => b <> c1
  end ->
  s <> EmptyString ->
  String.prefix (String c0 (String c1 rest)) (String a s) = false.
Proof.
  intros Hb Hne. destruct s as [|b s]; [congruence|].
  cbn [String.prefix]. destruct (ascii_dec c0 a); [|reflexivity].
  destruct (ascii_dec c1 b); [congruence|reflexivity].
Qed.

(** A needle whose second character the body lacks cannot start inside
    [body] followed by a separator that is neither of its first two
    characters. *)
Lemma includes_after_body body sep msg c0 c1 rest :
  lacks c1 body = true -> sep <> c0 -> sep <> c1 ->
  JsString.includes (body +:+ String sep msg) (String c0 (String c1 rest))
  = JsString.includes msg (String c0 (String c1 rest)).
Proof.
  intros Hbody Hs0 Hs1.
  induction body as [|a body IH].
  - rewrite append_nil. cbn [JsString.includes String.prefix].
    destruct (ascii_dec c0 sep); [congruence|reflexivity].
  - cbn [lacks] in Hbody. apply andb_prop in Hbody as [_ Hbody].
    rewrite append_cons. cbn [JsString.includes].
    rewrite prefix_second_char, IH; auto.
    + destruct body as [|b body];
        [rewrite append_nil; congruence | rewrite append_cons].
      cbn [lacks] in Hbody. apply andb_prop in Hbody as [Hb _].
      apply negb_true_iff, Ascii.eqb_neq in Hb. exact Hb.
    + destruct body; discriminate.
Qed.

Lemma string_of_uint_lacks_k d : lacks "k" (NilEmpty.string_of_uint d) = true.
Proof. induction d; simpl; auto. Qed.

Lemma show_Z_lacks_k z : lacks "k" (JsString.show_Z z) = true.
Proof.
  unfold JsString.show_Z, NilZero.string_of_int, NilZero.string_of_uint.
  destruct (Z.to_int z) as [d|d]; destruct d;
    first [reflexivity | apply (string_of_uint_lacks_k (_ _))
          | cbn [lacks]; apply (string_of_uint_lacks_k (_ _))].
Qed.

Lemma failureText_skipped maxRetries lastError :
  JsString.includes (BatchProcessor.failureText maxRetries lastError) "skipped"
  = JsString.includes (JsString.show_opt (lastError ≫= message)) "skipped".
Proof.
  unfold BatchProcessor.failureText.
  set (msg := JsString.show_opt (lastError ≫= message)).
  replace ("Failed after " +:+ JsString.show_Z maxRetries +:+ " retries: " +:+ msg)
    with (("Failed after " +:+ JsString.show_Z maxRetries +:+ " retries:")
          +:+ String " " msg).
  - apply includes_after_body; [|discriminate|discriminate].
    now rewrite !lacks_app, show_Z_lacks_k.
  - now rewrite !append_assoc.
Qed.

(** [includes] finds exactly the occurrences. *)
Lemma prefix_spec needle : forall s,
  String.prefix needle s = true <-> exists after, s = needle +:+ after.
Proof.
  induction needle as [|c needle IH]; intros s.
  - split; [intros _; now exists s|intros _; now destruct s].
  - destruct s as [|a s]; cbn [String.prefix].
    + split; [discriminate|]. intros [after H]. rewrite append_cons in H. discriminate.
    + destruct (ascii_dec c a) as [->|Hne].
      * rewrite IH. split; intros [after H]; exists after.
        -- rewrite append_cons. now f_equal.
        -- rewrite append_cons in H. now injection H.
      * split; [discriminate|]. intros [after H]. rewrite append_cons in H.
        injection H as H _. congruence.
Qed.

Lemma includes_spec needle : forall s,
  JsString.includes s needle = true <-> occursIn needle s.
Proof.
  unfold occursIn. induction s as [|c s IH]; cbn [JsString.includes].
  - rewrite orb_false_r, prefix_spec. split.
    + intros [after H]. now exists EmptyString, after.
    + intros ([|b before] & after & H).
      * now exists after.
      * rewrite append_cons in H. discriminate.
  - rewrite orb_true_iff, prefix_spec, IH. split.
    + intros [[after H]|(before & after & H)].
      * now exists EmptyString, after.
      * exists (String c before), after. rewrite append_cons. now f_equal.
    + intros ([|b before] & after & H).
      * left. now exists after.
      * right. rewrite append_cons in H. injection H as _ H. now exists before, after.
Qed.

Lemma includes_false needle s :
  JsString.includes s needle = false <-> ~ occursIn needle s.
Proof.
  rewrite <- includes_spec. destruct (JsString.includes s needle); split;
    congruence.
Qed.

(** ** Per-item results and their counting *)

Section BatchCounting.

Import BatchProcessor.

Context {T R : Type}.
Variables (task_id task_name : T -> string) (jobId : string).
Variable processor : T -> M R.
Variable maxRetries : Z.
Variable parallel : bool.
Variables (maxParallel delayBetweenBatches : Z).
Variable onProgress : option (Z -> Z -> M unit).
Variable onError : option (Error -> T -> M unit).

Local Abbreviation retryLoop :=
  (BatchProcessor.retryLoop task_id task_name jobId processor maxRetries onError).
Local Abbreviation processTaskWithRetry :=
  (BatchProcessor.processTaskWithRetry task_id task_name jobId processor maxRetries onError).
Local Abbreviation batchesLoop :=
  (BatchProcessor.batchesLoop task_id task_name jobId processor maxRetries parallel
                              maxParallel delayBetweenBatches onProgress onError).
Local Abbreviation processBatch :=
  (BatchProcessor.processBatch task_id task_name jobId processor maxRetries parallel
                               maxParallel delayBetweenBatches onProgress onError).

Lemma countResult_results (acc : BatchResult R) r : results (countResult acc r) = results acc.
Proof.
  unfold countResult.
  destruct (success r); [reflexivity|].
  now destruct (JsString.opt_includes (error r) "skipped").
Qed.

Lemma countResult_cases (acc : BatchResult R) r :
  successful (countResult acc r) = successful acc + (if success r then 1 else 0)
  /\ skipped (countResult acc r) = skipped acc + (if isSkippedResult r then 1 else 0)
  /\ failed (countResult acc r) = failed acc + (if isFailedResult r then 1 else 0).
Proof.
  unfold countResult, isSkippedResult, isFailedResult.
  destruct (success r); cbn; [lia|].
  destruct (JsString.opt_includes (error r) "skipped"); cbn; lia.
Qed.

Lemma fold_countResult rs : forall acc : BatchResult R,
  successful (fold_left countResult rs acc) = successful acc + countIf success rs
  /\ skipped (fold_left countResult rs acc) = skipped acc + countIf isSkippedResult rs
  /\ failed (fold_left countResult rs acc) = failed acc + countIf isFailedResult rs
  /\ results (fold_left countResult rs acc) = results acc.
Proof.
  unfold countIf.
  induction rs as [|r rs IH]; intros acc; cbn [fold_left List.filter].
  - cbn. repeat split; lia.
  - destruct (IH (countResult acc r)) as (Hs & Hk & Hf & Hr).
    destruct (countResult_cases acc r) as (Hs1 & Hk1 & Hf1).
    rewrite Hs, Hk, Hf, Hr, Hs1, Hk1, Hf1, countResult_results.
    destruct (success r), (isSkippedResult r), (isFailedResult r);
      cbn [length]; repeat split; lia.
Qed.

Lemma countIf_app (p : TaskResult R -> bool) l1 l2 :
  countIf p (l1 ++ l2) = countIf p l1 + countIf p l2.
Proof. unfold countIf. rewrite List.filter_app, length_app. lia. Qed.

End BatchCounting.

(** An item whose processor times out twice and then answers: the
    result reports two retries, after waits of 2 s and 4 s. *)
Example retry_succeeds_on_third_attempt :
  let run :=
    BatchProcessor.processTaskWithRetry
      task_id task_name "job"
      (fun _ : ClickUpTask =>
         remote (fun n => if (n <? 2)%nat then Throw (newError "ETIMEDOUT") else Ok 7))
      3 None (demoTask "t1" "Task A" []) emptyWorld in
  match fst run with
  | Ok r =>
      BatchProcessor.success r = true
      /\ BatchProcessor.data r = Some 7
      /\ BatchProcessor.retryCount r = 2
  | Throw _ => False
  end
  /\ slept (snd run) = [2000; 4000]
  /\ file_transfers (snd run) = [].
Proof. vm_compute. auto. Qed.

(** Three items in sequential batches of two: the results come in the
    order of the items, one pause separates the two batches, and the job
    row ends at three of three. *)
Example sequential_batches_keep_order :
  let run :=
    BatchProcessor.processBatch
      task_id task_name "job" (fun t : ClickUpTask => ret (task_name t))
      3 false 5 650 None None 0 (fun _ => 0%nat)
      [demoTask "t1" "A" []; demoTask "t2" "B" []; demoTask "t3" "C" []] 2
      emptyWorld in
  match fst run with
  | Ok (Some br) =>
      map BatchProcessor.taskId (BatchProcessor.results br) = ["t1"; "t2"; "t3"]
      /\ BatchProcessor.successful br = 3
      /\ BatchProcessor.failed br = 0
      /\ BatchProcessor.skipped br = 0
  | _ => False
  end
  /\ slept (snd run) = [650]
  /\ job_row (snd run) = mkJob 3 3 "completed".
Proof. vm_compute. auto. Qed.

(** ** How a sequential run classifies its items *)

Section SkippedClassification.

Import BatchProcessor.

Context {T R : Type}.
Variables (task_id task_name : T -> string) (jobId : string).

(** The processor is one remote call per item. *)
Variable oracle : T -> nat -> Outcome R.
Variables (maxRetries maxParallel delayBetweenBatches : Z).

Local Abbreviation processor := (fun task : T => remote (oracle task)).
Local Abbreviation retryLoop :=
  (BatchProcessor.retryLoop task_id task_name jobId processor maxRetries None).
Local Abbreviation processSequential :=
  (BatchProcessor.processSequential task_id task_name jobId processor maxRetries None).
Local Abbreviation batchesLoop :=
  (BatchProcessor.batchesLoop task_id task_name jobId processor maxRetries false
                              maxParallel delayBetweenBatches None None).
Local Abbreviation processBatch :=
  (BatchProcessor.processBatch task_id task_name jobId processor maxRetries false
                               maxParallel delayBetweenBatches None None).

(** The calls [processTaskWithRetry] makes for one item at most. *)
Local Abbreviation attempts := (Z.to_nat (maxRetries + 1)).
Local Abbreviation report := (reportOf task_id task_name maxRetries).
Local Abbreviation reports tick tasks :=
  (zip_with report tasks (fst (fates oracle attempts tick tasks))).

Lemma retryLoop_fate remaining : forall (task : T) failures lastError w,
  exists w',
    retryLoop remaining task (Z.of_nat failures) lastError w
    = (Ok (report task (fst (fateFrom (oracle task) remaining (ticks w) failures
                                      (lastError ≫= message)))), w')
    /\ ticks w'
       = snd (fateFrom (oracle task) remaining (ticks w) failures (lastError ≫= message)).
Proof.
  induction remaining as [|remaining IH]; intros task failures lastError w.
  - cbn [BatchProcessor.retryLoop fateFrom fst snd].
    unfold logTaskFailure, insertFileTransfer. rewrite bind_modify.
    eexists. split; reflexivity.
  - cbn [BatchProcessor.retryLoop fateFrom]. rewrite bind_capture.
    rewrite remote_run.
    destruct (oracle task (ticks w)) as [d|e]; cbn [fst snd].
    + eexists. split; reflexivity.
    + cbn zeta. unfold callOnError. rewrite bind_ret.
      replace (Z.of_nat failures + 1) with (Z.of_nat (S failures)) by lia.
      assert (Hwait : exists w1,
                 (if Z.of_nat (S failures) <=? maxRetries
                  then wait (Z.min (1000 * 2 ^ Z.of_nat (S failures)) 30000)
                  else ret tt) (afterCalls w 1 []) = (Ok tt, w1)
                 /\ ticks w1 = S (ticks w)).
      { destruct (Z.of_nat (S failures) <=? maxRetries); eexists; split; reflexivity. }
      destruct Hwait as (w1 & Hwait & Hticks).
      unfold bind at 1. rewrite Hwait.
      destruct (IH task (S failures) (Some (asError e)) w1) as (w' & Hrun & Hend).
      cbn [mbind option_bind] in Hrun, Hend.
      rewrite asError_message, Hticks in Hrun, Hend.
      exists w'. split; [exact Hrun|exact Hend].
Qed.

Lemma processSequential_fates (tasks : list T) : forall w,
  exists w',
    processSequential tasks w = (Ok (reports (ticks w) tasks), w')
    /\ ticks w' = snd (fates oracle attempts (ticks w) tasks).
Proof.
  induction tasks as [|task rest IH]; intros w.
  - cbn. eauto.
  - cbn [BatchProcessor.processSequential fates].
    destruct (retryLoop_fate attempts task 0 None w) as (w1 & Hrun & Hticks).
    cbn [mbind option_bind] in Hrun, Hticks. change (Z.of_nat 0) with 0 in Hrun.
    unfold bind at 1. unfold BatchProcessor.processTaskWithRetry. rewrite Hrun.
    destruct (fateFrom (oracle task) attempts (ticks w) 0 None) as [fate tick1].
    cbn [fst snd] in *.
    destruct (IH w1) as (w2 & Hrest & Hend). rewrite Hticks in Hrest, Hend.
    unfold bind at 1. rewrite Hrest.
    destruct (fates oracle attempts tick1 rest) as [others tick2].
    cbn [fst snd] in *. exists w2. split; [reflexivity|exact Hend].
Qed.

Lemma fates_length (tasks : list T) : forall tick,
  length (fst (fates oracle attempts tick tasks)) = length tasks.
Proof.
  induction tasks as [|task rest IH]; intros tick; [reflexivity|].
  cbn [fates].
  destruct (fateFrom (oracle task) attempts tick 0 None) as [fate tick1].
  specialize (IH tick1).
  destruct (fates oracle attempts tick1 rest) as [others tick2].
  cbn [fst length] in *. now rewrite IH.
Qed.

Lemma fates_app (l1 l2 : list T) : forall tick,
  fates oracle attempts tick (l1 ++ l2)
  = (fst (fates oracle attempts tick l1)
     ++ fst (fates oracle attempts (snd (fates oracle attempts tick l1)) l2),
     snd (fates oracle attempts (snd (fates oracle attempts tick l1)) l2)).
Proof.
  induction l1 as [|task rest IH]; intros tick.
  - cbn. now destruct (fates oracle attempts tick l2).
  - cbn [app fates].
    destruct (fateFrom (oracle task) attempts tick 0 None) as [fate tick1].
    rewrite IH.
    destruct (fates oracle attempts tick1 rest) as [others tick2].
    reflexivity.
Qed.

Lemma reports_app (l1 l2 : list T) tick :
  reports tick (l1 ++ l2)
  = reports tick l1 ++ reports (snd (fates oracle attempts tick l1)) l2.
Proof.
  rewrite fates_app. cbn [fst].
  apply zip_with_app. symmetry. apply fates_length.
Qed.

Lemma batchesLoop_fates fuel sched total batchSize nbatches batches :
  forall index (acc : BatchResult R) w,
    exists w',
      batchesLoop fuel sched total batchSize nbatches index batches acc w
      = (Ok (Some {| successful :=
                       successful acc + countIf success (reports (ticks w) (concat batches));
                     failed :=
                       failed acc
                       + countIf isFailedResult (reports (ticks w) (concat batches));
                     skipped :=
                       skipped acc
                       + countIf isSkippedResult (reports (ticks w) (concat batches));
                     results := results acc ++ reports (ticks w) (concat batches) |}),
         w').
Proof.
  induction batches as [|batch rest IH]; intros index acc w.
  - exists w. cbn. rewrite !Z.add_0_r, app_nil_r. now destruct acc.
  - cbn [BatchProcessor.batchesLoop]. rewrite bind_capture.
    destruct (processSequential_fates batch w) as (w1 & Hbatch & Hticks1).
    assert (Hsome : bind (processSequential batch) (fun rs => ret (Some rs)) w
                    = (Ok (Some (reports (ticks w) batch)), w1))
      by (unfold bind; now rewrite Hbatch).
    rewrite Hsome. cbn [fst snd].
    rewrite bind_capture.
    unfold BatchProcessor.updateProgress, updateJobRow, callOnProgress.
    rewrite bind_modify, bind_ret.
    match goal with
    | |- context [(if ?c then wait delayBetweenBatches else ret tt) ?w2] =>
        assert (Hwait : exists w3,
                   (if c then wait delayBetweenBatches else ret tt) w2 = (Ok tt, w3)
                   /\ ticks w3 = ticks w1)
          by (destruct c; eexists; split; reflexivity)
    end.
    destruct Hwait as (w3 & Hwait & Hticks3). rewrite Hwait. cbn [fst snd].
    destruct (IH (S index)
                 (pushResults (fold_left countResult (reports (ticks w) batch) acc)
                              (reports (ticks w) batch)) w3)
      as (w' & Hrun).
    exists w'. rewrite Hrun. rewrite Hticks3, Hticks1.
    destruct (fold_countResult (reports (ticks w) batch) acc) as (Hs & Hk & Hf & Hr).
    cbn [pushResults successful failed skipped results concat].
    rewrite Hs, Hk, Hf, Hr, reports_app, !countIf_app, <- app_assoc.
    do 3 f_equal. f_equal; lia.
Qed.

Lemma countIf_cons (p : TaskResult R -> bool) r rs :
  countIf p (r :: rs) = countIf p rs + (if p r then 1 else 0).
Proof. unfold countIf. cbn [List.filter]. destruct (p r); cbn [length]; lia. Qed.

(** The text after the retries contains [skipped] exactly when the
    last message does. *)
Lemma failure_text_skipped (lastMessage : option string) :
  JsString.includes ("Failed after " +:+ JsString.show_Z maxRetries +:+ " retries: "
                     +:+ JsString.show_opt lastMessage) "skipped" = true
  <-> exists text, lastMessage = Some text /\ occursIn "skipped" text.
Proof.
  pose proof (failureText_skipped
                maxRetries
                (Some {| message := lastMessage; code := None; nonError := None |}))
    as Htext.
  unfold failureText in Htext. cbn [mbind option_bind message] in Htext.
  rewrite Htext. destruct lastMessage as [text|]; cbn [JsString.show_opt].
  - rewrite includes_spec. split.
    + intros Hin. now exists text.
    + now intros (text' & [= <-] & Hin).
  - split; [discriminate|]. now intros (text & Hno & _).
Qed.

Lemma tally_reports (tasks : list T) : forall fs : list (Fate R),
  length fs = length tasks ->
  tally fs
        (countIf success (zip_with report tasks fs))
        (countIf isSkippedResult (zip_with report tasks fs))
        (countIf isFailedResult (zip_with report tasks fs)).
Proof.
  induction tasks as [|task rest IH]; intros [|fate fs] Hlen; try discriminate Hlen.
  - constructor.
  - cbn [zip_with]. rewrite !countIf_cons.
    specialize (IH fs ltac:(cbn in Hlen; lia)).
    destruct fate as [d n|n lastMessage].
    + cbn. rewrite !Z.add_0_r. now constructor.
    + unfold isSkippedResult, isFailedResult.
      cbn [reportOf success error negb andb JsString.opt_includes].
      pose proof (failure_text_skipped lastMessage) as Htext.
      destruct (JsString.includes _ "skipped"); cbn [negb]; rewrite !Z.add_0_r.
      * destruct (proj1 Htext eq_refl) as (text & -> & Hin).
        now apply tally_skipped.
      * apply tally_failed; [|exact IH].
        intros text -> Hin.
        assert (Hyes : false = true) by (apply Htext; eauto). discriminate Hyes.
Qed.

(** C10. The counting loop of [processBatch] puts a result under
    [skipped] exactly when its success flag is false and its error text
    contains [skipped], under [failed] exactly when the flag is false and
    there is no such text, and under [successful] exactly when the flag is
    true.  The text [Failed after N retries: <message>] contains
    [skipped] exactly when the message does.  A sequential run over
    remote calls returns, for each item in order, the report of what
    became of the item: its answer, or that text with the message of the
    value its last call threw ([String(value)] for a value that is no
    [Error]).  Its counters are the tally of the items: those that were
    answered, those given up whose last message contains [skipped], and
    those given up for any other failure. *)
Theorem skipped_classification fuel sched (tasks : list T) batchSize w :
  (forall (acc : BatchResult R) r,
      (skipped (countResult acc r) = skipped acc + 1
       <-> success r = false
           /\ exists text, error r = Some text /\ occursIn "skipped" text)
      /\ (failed (countResult acc r) = failed acc + 1
          <-> success r = false
              /\ forall text, error r = Some text -> ~ occursIn "skipped" text)
      /\ (successful (countResult acc r) = successful acc + 1 <-> success r = true))
  /\ (forall lastMessage,
         occursIn "skipped"
                  ("Failed after " +:+ JsString.show_Z maxRetries +:+ " retries: "
                   +:+ JsString.show_opt lastMessage)
         <-> exists text, lastMessage = Some text /\ occursIn "skipped" text)
  /\ exists br w',
      processBatch fuel sched tasks batchSize w = (Ok (Some br), w')
      /\ results br
         = zip_with (reportOf task_id task_name maxRetries) tasks
                    (fst (fates oracle (Z.to_nat (maxRetries + 1)) (ticks w) tasks))
      /\ tally (fst (fates oracle (Z.to_nat (maxRetries + 1)) (ticks w) tasks))
               (successful br) (skipped br) (failed br).
Proof.
  split; [|split].
  - intros acc r. unfold countResult.
    destruct (success r).
    { cbn. split; [|split].
      - split; [lia|intros [H _]; discriminate H].
      - split; [lia|intros [H _]; discriminate H].
      - split; reflexivity. }
    destruct (error r) as [text|]; cbn [JsString.opt_includes].
    + destruct (JsString.includes text "skipped") eqn:Hin; cbn.
      * apply includes_spec in Hin. split; [|split].
        -- split; [intros _; split; [reflexivity|eauto]|reflexivity].
        -- split; [lia|]. intros [_ Hno]. exfalso. exact (Hno text eq_refl Hin).
        -- split; [lia|discriminate].
      * apply includes_false in Hin. split; [|split].
        -- split; [lia|]. intros (_ & text' & [= <-] & Hyes). contradiction.
        -- split; [|reflexivity]. intros _. split; [reflexivity|].
           intros text' [= <-]. exact Hin.
        -- split; [lia|discriminate].
    + cbn. split; [|split].
      * split; [lia|]. intros (_ & text & Hno & _). discriminate Hno.
      * split; [|reflexivity]. intros _. split; [reflexivity|]. intros text Hno.
        discriminate Hno.
      * split; [lia|discriminate].
  - intros lastMessage. rewrite <- includes_spec. apply failure_text_skipped.
  - unfold BatchProcessor.processBatch.
    destruct (createBatches_cover tasks batchSize) as (batches & -> & Hcat & _ & _).
    destruct (batchesLoop_fates fuel sched (length tasks) batchSize (length batches)
                                batches 0%nat emptyResult w) as (w' & Hrun).
    rewrite Hcat in Hrun. eexists _, w'. split; [exact Hrun|].
    cbn [results successful skipped failed emptyResult app Z.add].
    split; [reflexivity|]. apply tally_reports, fates_length.
Qed.

End SkippedClassification.

(** Four items in batches of two, two calls each at most: the first is
    answered, the second and the third throw an [Error], the fourth
    throws a string. *)
Lemma skipped_classification_witness :
  let tasks :=
    [demoTask "t1" "Alpha" []; demoTask "t2" "Beta" [];
     demoTask "t3" "Gamma" []; demoTask "t4" "Delta" []] in
  let oracle (task : ClickUpTask) (_ : nat) : Outcome Z :=
    if String.eqb (task_id task) "t1" then Ok 7
    else if String.eqb (task_id task) "t2" then Throw (newError "Task skipped: archived")
    else if String.eqb (task_id task) "t3" then Throw (newError "boom")
    else Throw {| message := None; code := None; nonError := Some "skipped by hook" |} in
  exists br w',
    BatchProcessor.processBatch
      task_id task_name "job" (fun task => remote (oracle task))
      1 false 5 650 None None 0 (fun _ => 0%nat) tasks 2 emptyWorld
    = (Ok (Some br), w')
    /\ map BatchProcessor.taskId (BatchProcessor.results br) = ["t1"; "t2"; "t3"; "t4"]
    /\ map BatchProcessor.error (BatchProcessor.results br)
       = [None;
          Some "Failed after 1 retries: Task skipped: archived";
          Some "Failed after 1 retries: boom";
          Some "Failed after 1 retries: skipped by hook"]
    /\ BatchProcessor.successful br = 1
    /\ BatchProcessor.skipped br = 2
    /\ BatchProcessor.failed br = 1.
Proof.
  intros tasks oracle.
  destruct (proj2 (proj2 (skipped_classification
                            task_id task_name "job" oracle 1 5 650
                            0%nat (fun _ => 0%nat) tasks 2%nat emptyWorld)))
    as (br & w' & Hrun & Hresults & Htally).
  exists br, w'. split; [exact Hrun|].
  rewrite Hresults. split; [reflexivity|]. split; [reflexivity|].
  assert (Hfates : tally [Answered 7 0;
                          GaveUp 2 (Some "Task skipped: archived");
                          GaveUp 2 (Some "boom");
                          GaveUp 2 (Some "skipped by hook")]
                         (BatchProcessor.successful br) (BatchProcessor.skipped br)
                         (BatchProcessor.failed br))
    by exact Htally.
  clear Htally Hrun Hresults.
  repeat match goal with
         | H : tally (_ :: _) _ _ _ |- _ =>
             inversion H; subst; clear H;
             try (exfalso;
                  match goal with
                  | Hin : occursIn _ _ |- _ =>
                      apply includes_spec in Hin; vm_compute in Hin; discriminate Hin
                  end);
             try (exfalso;
                  match goal with
                  | Hno : forall text, Some _ = Some text -> _ |- _ =>
                      apply (Hno _ eq_refl); apply includes_spec; vm_compute; reflexivity
                  end)
         end.
  match goal with
  | H : tally [] _ _ _ |- _ => inversion H; subst; clear H
  end.
  lia.
Defined.

(** ** The parallel pool *)

Section ParallelPool.

Import BatchProcessor.

Context {T R : Type}.
Variables (task_id task_name : T -> string) (jobId : string).
Variable processor : T -> M R.
Variable maxRetries : Z.
Variables (maxParallel delayBetweenBatches : Z).
Variable onProgress : option (Z -> Z -> M unit).

(** No [onError] callback is installed, so [processTaskWithRetry] never
    rejects. *)
Local Abbreviation retryLoop :=
  (BatchProcessor.retryLoop task_id task_name jobId processor maxRetries None).
Local Abbreviation processTaskWithRetry :=
  (BatchProcessor.processTaskWithRetry task_id task_name jobId processor maxRetries None).
Local Abbreviation fill :=
  (BatchProcessor.fill task_id task_name jobId processor maxRetries maxParallel None).
Local Abbreviation parallelLoop :=
  (BatchProcessor.parallelLoop task_id task_name jobId processor maxRetries
                               maxParallel None).
Local Abbreviation processParallel :=
  (BatchProcessor.processParallel task_id task_name jobId processor maxRetries
                                  maxParallel None).
Local Abbreviation processBatch :=
  (BatchProcessor.processBatch task_id task_name jobId processor maxRetries true
                               maxParallel delayBetweenBatches onProgress None).

Lemma poolOk_later (inProgress : list (@Promise R)) n m :
  (n <= m)%nat -> poolOk inProgress n -> poolOk inProgress m.
Proof.
  intros Hnm Hpool. unfold poolOk in *.
  eapply Forall_impl; [exact Hpool|]. intros p [Hp Hr]. split; [lia|exact Hr].
Qed.

Lemma retryLoop_returns remaining : forall task retryCount lastError w,
  exists r w', retryLoop remaining task retryCount lastError w = (Ok r, w').
Proof.
  induction remaining as [|remaining IH]; intros task retryCount lastError w.
  - cbn. eauto.
  - cbn [BatchProcessor.retryLoop]. rewrite bind_capture.
    destruct (processor task w) as [[d|e] w1]; cbn [fst snd].
    + cbn. eauto.
    + unfold callOnError. rewrite bind_ret.
      destruct (retryCount + 1 <=? maxRetries).
      * unfold wait. rewrite bind_modify. apply IH.
      * rewrite bind_ret. apply IH.
Qed.

(** [findIndex] compares each promise in flight with a promise allocated
    on the spot: it finds nothing, so nothing is ever spliced out. *)
Lemma findIndexResolved_none (inProgress : list (@Promise R)) : forall nextId i,
  Forall (fun p => (pid p < nextId)%nat) inProgress ->
  findIndexResolved inProgress nextId i = (None, (nextId + length inProgress)%nat).
Proof.
  induction inProgress as [|p ps IH]; intros nextId i Hall; cbn.
  - now rewrite Nat.add_0_r.
  - inversion Hall as [|? ? Hp Hps]; subst.
    destruct (Nat.eqb_spec (pid p) nextId) as [Heq|_]; [lia|].
    rewrite IH.
    + f_equal. lia.
    + eapply Forall_impl; [exact Hps|]. cbn. intros. lia.
Qed.

Lemma fill_spec queue : forall inProgress nextId w,
  poolOk inProgress nextId ->
  exists queue1 inProgress1 next1 w1,
    fill queue inProgress nextId w = (Ok (queue1, inProgress1, next1), w1)
    /\ poolOk inProgress1 next1
    /\ (queue1 <> [] \/ inProgress1 <> [] \/ (queue = [] /\ inProgress = [])).
Proof.
  induction queue as [|task queue IH]; intros inProgress nextId w Hpool.
  - cbn. exists [], inProgress, nextId, w. repeat split; auto.
    destruct inProgress; [right; right; auto | right; left; discriminate].
  - cbn [BatchProcessor.fill].
    destruct (Z.of_nat (length inProgress) <? maxParallel).
    + rewrite bind_capture.
      destruct (retryLoop_returns (Z.to_nat (maxRetries + 1)) task 0 None w)
        as (r & w' & Hrun).
      unfold BatchProcessor.processTaskWithRetry. rewrite Hrun. cbn [fst snd].
      destruct (IH (inProgress ++ [mkPromise nextId (Ok r)]) (S nextId) w')
        as (queue1 & inProgress1 & next1 & w1 & Hfill & Hpool1 & Hne).
      * apply Forall_app. split.
        -- apply (poolOk_later _ nextId); [lia|exact Hpool].
        -- constructor; [|constructor]. cbn. split; [lia|eauto].
      * exists queue1, inProgress1, next1, w1. repeat split; auto.
        destruct Hne as [H|[H|[_ H]]]; auto.
        now destruct inProgress.
    + cbn. exists (task :: queue), inProgress, nextId, w. repeat split; auto.
Qed.

Lemma parallelLoop_stuck fuel sched : forall round queue inProgress results nextId w,
  poolOk inProgress nextId ->
  queue <> [] \/ inProgress <> [] ->
  fst (parallelLoop fuel sched round queue inProgress results nextId w) = Ok None.
Proof.
  induction fuel as [|fuel IH];
    intros round queue inProgress results nextId w Hpool Hbusy; [reflexivity|].
  cbn [BatchProcessor.parallelLoop].
  assert (Hguard : (negb (length queue =? 0)%nat || negb (length inProgress =? 0)%nat)%bool
                   = true).
  { destruct Hbusy as [H|H]; [destruct queue | destruct inProgress];
      try congruence; cbn; auto using orb_true_r. }
  rewrite Hguard.
  destruct (fill_spec queue inProgress nextId w Hpool)
    as (queue1 & inProgress1 & next1 & w1 & Hfill & Hpool1 & Hne).
  unfold bind at 1. rewrite Hfill.
  destruct (inProgress1 !! (sched round mod length inProgress1)%nat) as [p|] eqn:Hrace;
    [|reflexivity].
  assert (Hp : p ∈ inProgress1) by (eapply list_elem_of_lookup_2; exact Hrace).
  unfold poolOk in Hpool1. rewrite Forall_forall in Hpool1.
  destruct (Hpool1 p Hp) as [_ [result Hresult]]. rewrite Hresult.
  rewrite findIndexResolved_none
    by (apply Forall_forall; intros q Hq; apply (Hpool1 q Hq)).
  apply IH.
  - apply Forall_forall. intros q Hq. destruct (Hpool1 q Hq) as [Hlt Hr].
    split; [lia|exact Hr].
  - right. intros ->. inversion Hp.
Qed.

Lemma createBatches_head (tasks : list T) batchSize :
  tasks <> [] ->
  exists batch rest,
    createBatches tasks batchSize = Some (batch :: rest) /\ batch <> [].
Proof.
  intros Hne. unfold createBatches.
  destruct ((batchSize =? 0)%nat || (length tasks <=? batchSize)%nat)%bool eqn:Hsingle.
  - now exists tasks, [].
  - apply orb_false_iff in Hsingle as [Hsize Hlen].
    apply Nat.eqb_neq in Hsize. apply Nat.leb_gt in Hlen.
    destruct tasks as [|t tasks]; [congruence|].
    cbn [length batchLoop Nat.ltb Nat.leb].
    destruct (batchLoop_spec (t :: tasks) batchSize ltac:(lia) (length tasks)
                             (0 + batchSize)%nat ([] ++ [slice (t :: tasks) 0 (0 + batchSize)]))
      as (more & Hrun & _); [cbn; lia|].
    rewrite Hrun. cbn [app]. eexists _, _. split; [reflexivity|].
    unfold slice. destruct batchSize; [lia|]. discriminate.
Qed.

(** C1, on the code. With [parallel = true] and a non-empty list of
    items, [processBatch] does not return, whatever fuel the pool loop is
    given and whichever promise wins each race: the promise that settled
    is never taken out of [inProgress], so the loop guard never fails. *)
Theorem parallel_batch_never_returns fuel sched (tasks : list T) batchSize w :
  tasks <> [] ->
  fst (processBatch fuel sched tasks batchSize w) = Ok None.
Proof.
  intros Hne. unfold BatchProcessor.processBatch.
  destruct (createBatches_head tasks batchSize Hne) as (batch & rest & -> & Hbatch).
  cbn [BatchProcessor.batchesLoop]. rewrite bind_capture.
  pose proof (parallelLoop_stuck fuel sched 0%nat batch [] [] 0%nat w) as Hstuck.
  unfold BatchProcessor.processParallel.
  destruct (parallelLoop fuel sched 0%nat batch [] [] 0%nat w) as [o w1].
  cbn [fst snd] in *. rewrite Hstuck; [reflexivity| constructor |auto].
Qed.

End ParallelPool.

(** The pool on one item whose processor succeeds at once. *)
Lemma parallel_batch_never_returns_witness :
  fst (BatchProcessor.processBatch
         task_id task_name "job" (fun _ : ClickUpTask => ret tt)
         3 true 5 650 None None
         1000 (fun _ => 0%nat)
         [demoTask "t1" "Task" []] 10 emptyWorld)
  = Ok None.
Proof.
  apply (parallel_batch_never_returns
           task_id task_name "job" (fun _ : ClickUpTask => ret tt) 3 5 650 None).
  discriminate.
Defined.

(** ** The file-sync workflow *)

Section FileSync.

Import FileSyncEngine.

Variable svc : Services.
Variable jobId : string.

Local Abbreviation transferAttachment := (FileSyncEngine.transferAttachment svc jobId).
Local Abbreviation syncToItem := (FileSyncEngine.syncToItem svc jobId).
Local Abbreviation syncTaskFiles := (FileSyncEngine.syncTaskFiles svc jobId).
Local Abbreviation tasksLoop := (FileSyncEngine.tasksLoop svc jobId).
Local Abbreviation syncFiles := (FileSyncEngine.syncFiles svc jobId).

Lemma nameContains_spec name item :
  MondayAPI.nameContains name item = true <-> nameWithin name item.
Proof. apply includes_spec. Qed.

Lemma nameContains_selected name item :
  MondayAPI.nameContains name (MondayAPI.selected item)
  = MondayAPI.nameContains name item.
Proof. reflexivity. Qed.

Lemma not_within name (items : list MondayItem) :
  Forall (fun item => ~ nameWithin name item) items ->
  Forall (fun item => MondayAPI.nameContains name item = false)
         (map MondayAPI.selected items).
Proof.
  intros Hall. apply Forall_map.
  eapply Forall_impl; [exact Hall|]. intros item Hno. cbn beta.
  rewrite nameContains_selected. now apply includes_false.
Qed.

Lemma getItems_run boardId w items :
  getItems svc boardId (ticks w) = Ok items ->
  MondayAPI.getItems svc boardId w
  = (Ok (map MondayAPI.selected items), afterCalls w 1 []).
Proof.
  intros Hitems. unfold MondayAPI.getItems, bind. now rewrite remote_run, Hitems.
Qed.

Lemma search_match name boardId w before m after :
  getItems svc boardId (ticks w) = Ok (before ++ m :: after) ->
  nameWithin name m ->
  Forall (fun item => ~ nameWithin name item) before ->
  exists others,
    MondayAPI.searchItemsByName svc boardId name w
    = (Ok (MondayAPI.selected m :: others), afterCalls w 1 []).
Proof.
  intros Hitems Hm Hbefore. unfold MondayAPI.searchItemsByName, bind at 1.
  rewrite (getItems_run _ _ _ Hitems), map_app, List.filter_app. cbn [map ret List.filter].
  assert (Hnone : List.filter (MondayAPI.nameContains name)
                              (map MondayAPI.selected before) = []).
  { apply not_within in Hbefore. induction Hbefore as [|x l Hx _ IH]; [reflexivity|].
    cbn [List.filter]. now rewrite Hx. }
  rewrite Hnone, nameContains_selected, (proj2 (nameContains_spec name m) Hm).
  cbn [app]. eauto.
Qed.

Lemma search_no_match name boardId w items :
  getItems svc boardId (ticks w) = Ok items ->
  Forall (fun item => ~ nameWithin name item) items ->
  MondayAPI.searchItemsByName svc boardId name w = (Ok [], afterCalls w 1 []).
Proof.
  intros Hitems Hnone. unfold MondayAPI.searchItemsByName, bind at 1.
  rewrite (getItems_run _ _ _ Hitems). cbn [ret]. do 2 f_equal.
  apply not_within in Hnone. induction Hnone as [|x l Hx _ IH]; [reflexivity|].
  cbn [List.filter]. now rewrite Hx.
Qed.

Lemma syncTaskFiles_match task boardId options w before m after :
  getItems svc boardId (ticks w) = Ok (before ++ m :: after) ->
  nameWithin (task_name task) m ->
  Forall (fun item => ~ nameWithin (task_name task) item) before ->
  syncTaskFiles task boardId options w
  = syncToItem task (MondayAPI.selected m) options (afterCalls w 1 []).
Proof.
  intros Hitems Hm Hbefore.
  destruct (search_match (task_name task) boardId w before m after Hitems Hm Hbefore)
    as (others & Hsearch).
  unfold FileSyncEngine.syncTaskFiles, bind at 1. now rewrite Hsearch.
Qed.

Lemma syncTaskFiles_no_match task boardId options w items :
  getItems svc boardId (ticks w) = Ok items ->
  Forall (fun item => ~ nameWithin (task_name task) item) items ->
  syncTaskFiles task boardId options w = (Ok tt, afterCalls w 1 []).
Proof.
  intros Hitems Hnone.
  unfold FileSyncEngine.syncTaskFiles, bind at 1.
  now rewrite (search_no_match (task_name task) boardId w items Hitems Hnone).
Qed.

(** C3 (amended). The item [syncTaskFiles] works on is the first item
    of the board, in the order [getItems] returns them, whose lower-cased
    name contains the lower-cased task name: that item heads the list the
    search returns, and [syncTaskFiles] does, after the one call that
    fetches the items, what [syncToItem] does on it, whether or not a
    later item has exactly the task's name.  When no item's name contains
    the task's name, the search returns no item and [syncTaskFiles]
    returns without an error, having made that one call and nothing
    else. *)
Theorem syncTaskFiles_first_containing (task : ClickUpTask) (boardId : string)
        (options : SyncOptions) (w : World) (items : list MondayItem) :
  getItems svc boardId (ticks w) = Ok items ->
  (forall before m after,
      items = before ++ m :: after ->
      occursIn (JsString.toLowerCase (task_name task))
               (JsString.toLowerCase (item_name m)) ->
      Forall (fun item =>
                ~ occursIn (JsString.toLowerCase (task_name task))
                           (JsString.toLowerCase (item_name item))) before ->
      (exists others,
          MondayAPI.searchItemsByName svc boardId (task_name task) w
          = (Ok (MondayAPI.selected m :: others), afterCalls w 1 []))
      /\ syncTaskFiles task boardId options w
         = syncToItem task (MondayAPI.selected m) options (afterCalls w 1 []))
  /\ (Forall (fun item =>
                ~ occursIn (JsString.toLowerCase (task_name task))
                           (JsString.toLowerCase (item_name item))) items ->
      MondayAPI.searchItemsByName svc boardId (task_name task) w
      = (Ok [], afterCalls w 1 [])
      /\ syncTaskFiles task boardId options w = (Ok tt, afterCalls w 1 [])).
Proof.
  intros Hitems. split.
  - intros before m after -> Hm Hbefore.
    split.
    + now apply (search_match (task_name task) boardId w before m after).
    + now apply (syncTaskFiles_match task boardId options w before m after).
  - intros Hnone. split.
    + now apply (search_no_match (task_name task) boardId w items).
    + now apply (syncTaskFiles_no_match task boardId options w items).
Qed.

(** C4, on the code. Two outcomes of [transferAttachment] leave no row
    in [file_transfers]: an attachment rejected by validation makes it
    return with the store untouched, and a failing download makes it throw
    with no row written.  (Duplicates and completed uploads do write their
    row.) *)
Theorem transferAttachment_unrecorded task attachment mondayItem existingAssets options w :
  (DuplicateChecker.valid (DuplicateChecker.validateFile attachment None) = false ->
   transferAttachment task attachment mondayItem existingAssets options w = (Ok tt, w))
  /\ (forall e,
         DuplicateChecker.valid (DuplicateChecker.validateFile attachment None) = true ->
         (skipDuplicates options
          && DuplicateChecker.isDuplicate
               (DuplicateChecker.check attachment existingAssets None))%bool = false ->
         downloadAttachment svc (att_url attachment) (ticks w) = Throw e ->
         fst (transferAttachment task attachment mondayItem existingAssets options w)
         = Throw e
         /\ file_transfers
              (snd (transferAttachment task attachment mondayItem existingAssets options w))
            = file_transfers w).
Proof.
  split.
  - intros Hinvalid. unfold FileSyncEngine.transferAttachment. now rewrite Hinvalid.
  - intros e Hvalid Hfresh Hdown. unfold FileSyncEngine.transferAttachment.
    rewrite Hvalid, Hfresh. cbn [negb]. unfold bind, remote. rewrite Hdown.
    split; reflexivity.
Qed.

Lemma attachmentCount_spec task : attachmentCount task = attachmentsOf task.
Proof. unfold attachmentCount, attachmentsOf. now destruct (task_attachments task). Qed.

Lemma tasksLoop_counters boardId options total tasks : forall i result w,
  exists result' w' runs,
    tasksLoop tasks total i boardId options result w = (Ok result', w')
    /\ filesSkipped result' = filesSkipped result
    /\ filesTransferred result' = filesTransferred result + credited runs
    /\ map fst runs = tasks
    /\ taskRuns svc jobId boardId options total tasks i w runs w'.
Proof.
  induction tasks as [|task rest IH]; intros i result w.
  - exists result, w, []. cbn. repeat split; auto; try lia. constructor.
  - cbn [FileSyncEngine.tasksLoop]. rewrite bind_capture.
    destruct (syncTaskFiles task boardId options w) as [[[]|e] w1] eqn:Hsync;
      cbn [fst snd].
    + rewrite bind_capture.
      change (fst (FileSyncEngine.updateProgress total (i + 1) w1)) with (Ok tt).
      cbn iota.
      destruct (IH (i + 1) (addTransferred result (attachmentCount task))
                   (snd (FileSyncEngine.updateProgress total (i + 1) w1)))
        as (result' & w' & runs & Hrun & Hskip & Hcount & Hfst & Hruns).
      exists result', w', ((task, true) :: runs). rewrite Hrun.
      cbn in Hskip, Hcount. rewrite attachmentCount_spec in Hcount.
      cbn [credited map fst]. rewrite Hfst. repeat split; auto; try lia.
      eapply runs_returned; eauto.
    + destruct (IH (i + 1) (recordError result (task_id task) (task_name task) e) w1)
        as (result' & w' & runs & Hrun & Hskip & Hcount & Hfst & Hruns).
      exists result', w', ((task, false) :: runs). rewrite Hrun.
      cbn in Hskip, Hcount. cbn [credited map fst]. rewrite Hfst.
      repeat split; auto; try lia.
      eapply runs_threw; eauto.
Qed.

Lemma oversized_is_rejected attachment :
  sizeLimit < att_size attachment ->
  DuplicateChecker.valid (DuplicateChecker.validateFile attachment None) = false.
Proof.
  intros Hsize. unfold DuplicateChecker.validateFile, DuplicateChecker.isWithinSizeLimit.
  cbn [mbind option_bind default].
  destruct (Z.leb_spec (att_size attachment) DuplicateChecker.defaultMaxSizeBytes)
    as [Hle|_]; [|reflexivity].
  unfold sizeLimit, DuplicateChecker.defaultMaxSizeBytes in *. lia.
Qed.

Lemma sameFile_is_duplicate attachment existingAssets asset :
  In asset existingAssets -> sameFile attachment asset ->
  DuplicateChecker.isDuplicate (DuplicateChecker.check attachment existingAssets None)
  = true.
Proof.
  intros Hin [Hname Hsize].
  unfold DuplicateChecker.check, DuplicateChecker.checkByNameAndSize.
  destruct (List.find (DuplicateChecker.sameNameAndSize attachment) existingAssets)
    as [m|] eqn:Hfind; [reflexivity|].
  pose proof (List.find_none _ _ Hfind asset Hin) as Hno.
  unfold DuplicateChecker.sameNameAndSize in Hno.
  rewrite Hname, String.eqb_refl, Hsize, Z.eqb_refl in Hno. discriminate.
Qed.

(** C9. Every run of [syncFiles] returns a result whose [filesSkipped]
    is 0 and whose [filesTransferred] is the number of attachments, all
    of them counted, of the tasks whose [syncTaskFiles] returned without
    throwing, along the course the loop took over the fetched tasks from
    the store the fetch left.  A task none of the board's items matches
    is such a task, and so is one whose attachments are larger than
    500 MB or, with [skipDuplicates], are found among the item's assets:
    for those [transferAttachment] returns without any remote call, so
    nothing is uploaded. *)
Theorem syncFiles_counters (listId boardId : string) (options : SyncOptions) (w : World) :
  (exists result w' runs,
      syncFiles listId boardId options w = (Ok result, w')
      /\ filesSkipped result = 0
      /\ filesTransferred result = credited runs
      /\ match getTasksWithAttachments svc listId (ticks w) with
         | Ok tasks =>
             map fst runs = tasks
             /\ taskRuns svc jobId boardId options (Z.of_nat (length tasks)) tasks 0
                         (fetchedStore w (Z.of_nat (length tasks))) runs w'
         | Throw _ => runs = []
         end)
  /\ (forall task items w1,
         getItems svc boardId (ticks w1) = Ok items ->
         Forall (fun item =>
                   ~ occursIn (JsString.toLowerCase (task_name task))
                              (JsString.toLowerCase (item_name item))) items ->
         syncTaskFiles task boardId options w1 = (Ok tt, afterCalls w1 1 []))
  /\ (forall task attachment mondayItem existingAssets w1,
         sizeLimit < att_size attachment
         \/ (skipDuplicates options = true
             /\ exists asset, In asset existingAssets /\ sameFile attachment asset) ->
         fst (transferAttachment task attachment mondayItem existingAssets options w1)
         = Ok tt
         /\ ticks (snd (transferAttachment task attachment mondayItem existingAssets
                                           options w1))
            = ticks w1).
Proof.
  split; [|split].
  - unfold FileSyncEngine.syncFiles. unfold bind, capture, remote.
    destruct (getTasksWithAttachments svc listId (ticks w)) as [tasks|e].
    + cbn [fst snd updateProgress updateJobRow modify ret].
      match goal with
      | |- context [tasksLoop tasks ?total 0 boardId options ?r ?w2] =>
          destruct (tasksLoop_counters boardId options total tasks 0 r w2)
            as (result' & w' & runs & Hrun & Hskip & Hcount & Hfst & Hruns)
      end.
      exists result', w', runs. rewrite Hrun. cbn in Hskip, Hcount.
      repeat split; auto; try lia.
    + eexists _, _, []. cbn. repeat split; auto.
  - intros task items w1 Hitems Hnone.
    now apply (syncTaskFiles_no_match task boardId options w1 items).
  - intros task attachment mondayItem existingAssets w1 Hcase.
    unfold FileSyncEngine.transferAttachment.
    destruct (DuplicateChecker.valid (DuplicateChecker.validateFile attachment None))
      eqn:Hvalid; cbn [negb]; [|split; reflexivity].
    destruct Hcase as [Hsize | (Hskip & asset & Hin & Hsame)].
    + rewrite (oversized_is_rejected attachment Hsize) in Hvalid. discriminate.
    + rewrite Hskip, (sameFile_is_duplicate attachment existingAssets asset Hin Hsame).
      cbn [andb]. unfold logFileTransfer, insertFileTransfer, modify.
      split; reflexivity.
Qed.

End FileSync.

(** The statement on a board that lists [Plan B] before [plan]: the task
    [Plan] is synced to the former, the first item whose name contains
    the task's name. *)
Lemma syncTaskFiles_first_containing_witness :
  let items := [demoItem "1" "Roadmap"; demoItem "2" "Plan B"; demoItem "3" "plan"] in
  let task := demoTask "t1" "Plan" [demoAttachment "a.pdf" "https://files/a" 10] in
  (exists others,
      MondayAPI.searchItemsByName (demoServices [] items) "b1" "Plan" emptyWorld
      = (Ok (MondayAPI.selected (demoItem "2" "Plan B") :: others),
         afterCalls emptyWorld 1 []))
  /\ FileSyncEngine.syncTaskFiles (demoServices [] items) "job" task "b1" demoOptions
                                  emptyWorld
     = FileSyncEngine.syncToItem (demoServices [] items) "job" task
                                 (MondayAPI.selected (demoItem "2" "Plan B")) demoOptions
                                 (afterCalls emptyWorld 1 []).
Proof.
  intros items task.
  apply (proj1 (syncTaskFiles_first_containing
                  (demoServices [] items) "job" task "b1" demoOptions emptyWorld items
                  eq_refl)
               [demoItem "1" "Roadmap"] (demoItem "2" "Plan B") [demoItem "3" "plan"]).
  - reflexivity.
  - now exists EmptyString, " b".
  - constructor; [|constructor]. apply includes_false. reflexivity.
Defined.

(** Unamended, the statement would have the workflow take an item with
    exactly the task's name whenever the board has one.  On a board
    listing [Task A extended] before [task a], the workflow takes the
    former for the task [Task A]. *)
Lemma syncTaskFiles_exact_first_counterexample :
  ~ (forall (svc : Services) (boardId : string) (task : ClickUpTask) (w : World)
            (items found : list MondayItem) (chosen : MondayItem),
        getItems svc boardId (ticks w) = Ok items ->
        fst (MondayAPI.searchItemsByName svc boardId (task_name task) w)
        = Ok (chosen :: found) ->
        (exists item,
            In item items
            /\ JsString.toLowerCase (item_name item)
               = JsString.toLowerCase (task_name task)) ->
        JsString.toLowerCase (item_name chosen) = JsString.toLowerCase (task_name task)).
Proof.
  intros H.
  specialize (H (demoServices [] [demoItem "1" "Task A extended"; demoItem "2" "task a"])
                "b1" (demoTask "t1" "Task A" []) emptyWorld
                [demoItem "1" "Task A extended"; demoItem "2" "task a"]
                [MondayAPI.selected (demoItem "2" "task a")]
                (MondayAPI.selected (demoItem "1" "Task A extended"))
                eq_refl eq_refl).
  assert (Hexact : JsString.toLowerCase "Task A extended" = JsString.toLowerCase "Task A").
  { apply H. exists (demoItem "2" "task a"). split; [right; now left|reflexivity]. }
  vm_compute in Hexact. discriminate Hexact.
Qed.

(** The statement on a 600 MB attachment and on one whose download times out. *)
Lemma transferAttachment_unrecorded_witness :
  FileSyncEngine.transferAttachment
    (demoServices [] []) "job" (demoTask "t1" "Task A" [])
    (demoAttachment "disk.iso" "https://files/disk" (600 * 1024 * 1024))
    (demoItem "1" "Task A") [] demoOptions emptyWorld
  = (Ok tt, emptyWorld)
  /\ (fst (FileSyncEngine.transferAttachment
             (demoServices [] []) "job" (demoTask "t1" "Task A" [])
             (demoAttachment "a.pdf" "https://files/broken" 10)
             (demoItem "1" "Task A") [] demoOptions emptyWorld)
      = Throw (newError "ETIMEDOUT")
      /\ file_transfers
           (snd (FileSyncEngine.transferAttachment
                   (demoServices [] []) "job" (demoTask "t1" "Task A" [])
                   (demoAttachment "a.pdf" "https://files/broken" 10)
                   (demoItem "1" "Task A") [] demoOptions emptyWorld))
         = []).
Proof.
  split.
  - apply (proj1 (transferAttachment_unrecorded
                    (demoServices [] []) "job" (demoTask "t1" "Task A" [])
                    (demoAttachment "disk.iso" "https://files/disk" (600 * 1024 * 1024))
                    (demoItem "1" "Task A") [] demoOptions emptyWorld)).
    reflexivity.
  - apply (proj2 (transferAttachment_unrecorded
                    (demoServices [] []) "job" (demoTask "t1" "Task A" [])
                    (demoAttachment "a.pdf" "https://files/broken" 10)
                    (demoItem "1" "Task A") [] demoOptions emptyWorld));
      reflexivity.
Defined.

(** A whole run over one task carrying both attachments: the failure is
    reported in the returned result only, the store holds no transfer. *)
Example syncFiles_failure_only_in_memory :
  let run :=
    FileSyncEngine.syncFiles
      (demoServices
         [demoTask "t1" "Task A"
            [demoAttachment "disk.iso" "https://files/disk" (600 * 1024 * 1024);
             demoAttachment "a.pdf" "https://files/broken" 10]]
         [demoItem "1" "Task A"])
      "job" "l1" "b1" demoOptions emptyWorld in
  match fst run with
  | Ok result =>
      map FileSyncEngine.err_error (FileSyncEngine.errors result) = [Some "ETIMEDOUT"]
      /\ FileSyncEngine.filesTransferred result = 0
  | Throw _ => False
  end
  /\ file_transfers (snd run) = [].
Proof. vm_compute. auto. Qed.

(** The statement on three tasks: [Alpha], with two attachments, has no
    item on the board; the one attachment of [Beta] is larger than
    500 MB; the sync of [Gamma] throws after the download.  The first two
    are counted, three attachments in all, and nothing is uploaded. *)
Lemma syncFiles_counters_witness :
  let tasks :=
    [demoTask "t1" "Alpha" [demoAttachment "a.pdf" "https://files/a" 10;
                            demoAttachment "b.pdf" "https://files/b" 20];
     demoTask "t2" "Beta" [demoAttachment "disk.iso" "https://files/disk"
                                          (600 * 1024 * 1024)];
     demoTask "t3" "Gamma" [demoAttachment "c.pdf" "https://files/c" 10]] in
  let svc := demoServices tasks [demoItem "i2" "Beta"; demoItem "i3" "Gamma"] in
  exists result w' runs,
    FileSyncEngine.syncFiles svc "job" "l1" "b1" demoOptions emptyWorld = (Ok result, w')
    /\ FileSyncEngine.filesSkipped result = 0
    /\ FileSyncEngine.filesTransferred result = credited runs
    /\ map fst runs = tasks
    /\ map snd runs = [true; true; false]
    /\ FileSyncEngine.filesTransferred result = 3
    /\ file_transfers w' = [].
Proof.
  intros tasks svc.
  destruct (proj1 (syncFiles_counters svc "job" "l1" "b1" demoOptions emptyWorld))
    as (result & w' & runs & Hrun & Hskip & Hcount & Hfst & Hruns).
  exists result, w', runs.
  assert (Hcourse : map snd runs = [true; true; false] /\ file_transfers w' = []).
  { clear - Hruns.
    repeat match goal with
           | H : taskRuns _ _ _ _ _ _ _ _ _ _ |- _ =>
               inversion H; clear H; subst;
               match goal with
               | Hs : FileSyncEngine.syncTaskFiles _ _ _ _ _ _ = _ |- _ =>
                   vm_compute in Hs; try discriminate Hs;
                   injection Hs as <-
               | _ => idtac
               end
           end.
    split; reflexivity. }
  destruct Hcourse as [Hsnd Hrows].
  repeat split; auto.
  rewrite Hcount.
  unfold tasks in Hfst.
  destruct runs as [|[t1 b1] [|[t2 b2] [|[t3 b3] [|]]]]; try discriminate Hfst.
  cbn in Hfst, Hsnd. injection Hfst as -> -> ->. injection Hsnd as -> -> ->.
  reflexivity.
Defined.

Example syncFiles_counts_unmatched_task :
  let run :=
    FileSyncEngine.syncFiles
      (demoServices
         [demoTask "t1" "Task A" [demoAttachment "a.pdf" "https://files/a" 10;
                                  demoAttachment "b.pdf" "https://files/b" 20]]
         [])
      "job" "l1" "b1" demoOptions emptyWorld in
  match fst run with
  | Ok result =>
      FileSyncEngine.filesTransferred result = 2
      /\ FileSyncEngine.filesSkipped result = 0
      /\ FileSyncEngine.success result = true
  | Throw _ => False
  end
  /\ file_transfers (snd run) = [].
Proof. vm_compute. auto. Qed.

(** A duplicate is the one outcome besides a completed upload that does
    reach the store: the attachment matches an asset of the item by name,
    whatever the case, and by size, and a [skipped] row is written without
    any remote call. *)
Example duplicate_is_recorded_as_skipped :
  let run :=
    FileSyncEngine.transferAttachment
      (demoServices [] []) "job" (demoTask "t1" "Task A" [])
      (demoAttachment "report.pdf" "https://files/report" 2048)
      (demoItem "1" "Task A")
      [{| asset_name := "Report.PDF"; asset_file_size := 2048 |}]
      demoOptions emptyWorld in
  fst run = Ok tt
  /\ map ft_status (file_transfers (snd run)) = [st_skipped]
  /\ ticks (snd run) = 0%nat.
Proof. vm_compute. auto. Qed.

(** ** Task mappings are never rewritten *)

Lemma keeps_ret {A} (a : A) : keepsMappings (ret a).
Proof. intros w k row H. exact H. Qed.

Lemma keeps_throw {A} (e : Error) : keepsMappings (@throw A e).
Proof. intros w k row H. exact H. Qed.

Lemma keeps_bind {A B} (m : M A) (f : A -> M B) :
  keepsMappings m -> (forall a, keepsMappings (f a)) -> keepsMappings (bind m f).
Proof.
  intros Hm Hf w k row H. unfold bind.
  specialize (Hm w k row H). destruct (m w) as [[a|e] w1]; cbn in *.
  - now apply Hf.
  - exact Hm.
Qed.

Lemma keeps_tryCatch {A} (m : M A) (h : Error -> M A) :
  keepsMappings m -> (forall e, keepsMappings (h e)) -> keepsMappings (tryCatch m h).
Proof.
  intros Hm Hh w k row H. unfold tryCatch.
  specialize (Hm w k row H). destruct (m w) as [[a|e] w1]; cbn in *.
  - exact Hm.
  - now apply Hh.
Qed.

Lemma keeps_capture {A} (m : M A) : keepsMappings m -> keepsMappings (capture m).
Proof.
  intros Hm w k row H. rewrite capture_run. cbn. now apply Hm.
Qed.

Lemma keeps_remote {A} (oracle : nat -> Outcome A) : keepsMappings (remote oracle).
Proof. intros w k row H. exact H. Qed.

Lemma keeps_insertFileTransfer row : keepsMappings (insertFileTransfer row).
Proof. intros w k r H. exact H. Qed.

Lemma keeps_updateJobRow row : keepsMappings (updateJobRow row).
Proof. intros w k r H. exact H. Qed.

Lemma keeps_appendErrorLog msg err : keepsMappings (appendErrorLog msg err).
Proof. intros w k r H. exact H. Qed.

Lemma keeps_wait ms : keepsMappings (wait ms).
Proof. intros w k r H. exact H. Qed.

(** The one operation on the table: an insert keeps a taken key's row
    and otherwise adds the new row under its own, fresh key. *)
Lemma insertTaskMapping_cases row w :
  let table := task_mappings w in
  let table' := task_mappings (snd (insertTaskMapping row w)) in
  (is_Some (table !! tm_clickup_task_id row) /\ table' = table)
  \/ (table !! tm_clickup_task_id row = None
      /\ table' = <[tm_clickup_task_id row := row]> table).
Proof.
  cbn. destruct (task_mappings w !! tm_clickup_task_id row) eqn:Hkey; eauto.
Qed.

Lemma keeps_insertTaskMapping row : keepsMappings (insertTaskMapping row).
Proof.
  intros w k r H.
  destruct (insertTaskMapping_cases row w) as [[_ Heq] | [Hfree Heq]];
    cbn zeta in Heq; rewrite Heq; [exact H|].
  rewrite lookup_insert_ne; [exact H|]. intros <-. congruence.
Qed.

Lemma keeps_forEach {A} (xs : list A) (body : A -> M unit) :
  (forall x, keepsMappings (body x)) -> keepsMappings (forEach xs body).
Proof.
  intros Hbody. induction xs as [|x xs IH]; cbn [forEach].
  - apply keeps_ret.
  - apply keeps_bind; auto.
Qed.

Create HintDb keeps.
#[local] Hint Resolve keeps_ret keeps_throw keeps_remote keeps_insertFileTransfer
  keeps_updateJobRow keeps_appendErrorLog keeps_wait keeps_insertTaskMapping : keeps.

(** Walks through a computation built from the combinators above. *)
Ltac keeps_step :=
  first
    [ solve [auto with keeps]
    | apply keeps_bind; [|intros ?]
    | apply keeps_capture
    | apply keeps_tryCatch; [|intros ?]
    | apply keeps_forEach; intros ?
    | match goal with
      | |- keepsMappings (match ?x with _ => _ end) => destruct x
      | |- keepsMappings (if ?x then _ else _) => destruct x
      end ].

Ltac keeps_all := repeat keeps_step.

Section BatchKeeps.

Import BatchProcessor.

Context {T R : Type}.
Variables (task_id task_name : T -> string) (jobId : string).
Variable processor : T -> M R.
Variable maxRetries : Z.
Variable parallel : bool.
Variables (maxParallel delayBetweenBatches : Z).
Variable onProgress : option (Z -> Z -> M unit).
Variable onError : option (Error -> T -> M unit).

Hypothesis processor_keeps : forall task, keepsMappings (processor task).
Hypothesis onProgress_keeps :
  forall f p t, onProgress = Some f -> keepsMappings (f p t).
Hypothesis onError_keeps :
  forall f e task, onError = Some f -> keepsMappings (f e task).

Lemma keeps_callOnError e task : keepsMappings (callOnError onError e task).
Proof.
  unfold callOnError. destruct onError as [f|] eqn:Hf; [|apply keeps_ret].
  now apply (onError_keeps f).
Qed.

Lemma keeps_callOnProgress p t : keepsMappings (callOnProgress onProgress p t).
Proof.
  unfold callOnProgress. destruct onProgress as [f|] eqn:Hf; [|apply keeps_ret].
  now apply (onProgress_keeps f).
Qed.

Lemma keeps_retryLoop remaining : forall task retryCount lastError,
  keepsMappings (retryLoop task_id task_name jobId processor maxRetries onError
                           remaining task retryCount lastError).
Proof.
  induction remaining as [|remaining IH]; intros task retryCount lastError;
    cbn [retryLoop].
  - unfold logTaskFailure. keeps_all.
  - apply keeps_bind; [apply keeps_capture, processor_keeps|].
    intros [d|e]; [apply keeps_ret|].
    apply keeps_bind; [apply keeps_callOnError|intros _].
    apply keeps_bind; [keeps_all|intros _]. apply IH.
Qed.

Lemma keeps_processTaskWithRetry task :
  keepsMappings (processTaskWithRetry task_id task_name jobId processor maxRetries
                                      onError task).
Proof. apply keeps_retryLoop. Qed.

Lemma keeps_processSequential tasks :
  keepsMappings (processSequential task_id task_name jobId processor maxRetries
                                   onError tasks).
Proof.
  induction tasks as [|task rest IH]; cbn [processSequential]; [apply keeps_ret|].
  apply keeps_bind; [apply keeps_processTaskWithRetry|intros r].
  apply keeps_bind; [exact IH|intros rs]. apply keeps_ret.
Qed.

Lemma keeps_fill queue : forall inProgress nextId,
  keepsMappings (fill task_id task_name jobId processor maxRetries maxParallel onError
                      queue inProgress nextId).
Proof.
  induction queue as [|task queue IH]; intros inProgress nextId; cbn [fill];
    [apply keeps_ret|].
  destruct (Z.of_nat (length inProgress) <? maxParallel); [|apply keeps_ret].
  apply keeps_bind; [apply keeps_capture, keeps_processTaskWithRetry|intros o].
  apply IH.
Qed.

Lemma keeps_parallelLoop fuel sched : forall round queue inProgress results nextId,
  keepsMappings (parallelLoop task_id task_name jobId processor maxRetries maxParallel
                              onError fuel sched round queue inProgress results nextId).
Proof.
  induction fuel as [|fuel IH]; intros round queue inProgress results nextId;
    cbn [parallelLoop]; [apply keeps_ret|].
  destruct (negb (length queue =? 0)%nat || negb (length inProgress =? 0)%nat)%bool;
    [|apply keeps_ret].
  apply keeps_bind; [apply keeps_fill|].
  intros [[queue1 inProgress1] next1].
  destruct (inProgress1 !! (sched round mod length inProgress1)%nat) as [p|];
    [|apply keeps_ret].
  destruct (settles p) as [result|e]; [|apply keeps_throw].
  destruct (findIndexResolved inProgress1 next1 0) as [index next2].
  apply IH.
Qed.

Lemma keeps_batchesLoop fuel sched total batchSize nbatches batches :
  forall index acc,
    keepsMappings (batchesLoop task_id task_name jobId processor maxRetries parallel
                               maxParallel delayBetweenBatches onProgress onError
                               fuel sched total batchSize nbatches index batches acc).
Proof.
  induction batches as [|batch rest IH]; intros index acc; cbn [batchesLoop];
    [apply keeps_ret|].
  apply keeps_bind.
  - apply keeps_capture. destruct parallel.
    + apply keeps_parallelLoop.
    + apply keeps_bind; [apply keeps_processSequential|intros rs; apply keeps_ret].
  - intros [[batchResults|]|e].
    + apply keeps_bind.
      * apply keeps_capture. unfold updateProgress.
        apply keeps_bind; [auto with keeps|intros _].
        apply keeps_bind; [apply keeps_callOnProgress|intros _]. keeps_all.
      * intros [u|e]; [apply IH|].
        apply keeps_bind; [unfold batchFailed, logError; keeps_all|intros acc'; apply IH].
    + apply keeps_ret.
    + apply keeps_bind; [unfold batchFailed, logError; keeps_all|intros acc'; apply IH].
Qed.

Lemma keeps_processBatch fuel sched tasks batchSize :
  keepsMappings (processBatch task_id task_name jobId processor maxRetries parallel
                              maxParallel delayBetweenBatches onProgress onError
                              fuel sched tasks batchSize).
Proof.
  unfold processBatch. destruct (createBatches tasks batchSize); [|apply keeps_ret].
  apply keeps_batchesLoop.
Qed.

End BatchKeeps.

Section Replication.

Import ListReplicator.

Variable svc : Services.
Variable replicationId : string.
Variable mapDescriptionToUpdate : string -> string.

Local Abbreviation migrateSubtask := (ListReplicator.migrateSubtask svc replicationId).
Local Abbreviation migrateTask :=
  (ListReplicator.migrateTask svc replicationId mapDescriptionToUpdate).
Local Abbreviation migrateTasks :=
  (ListReplicator.migrateTasks svc replicationId mapDescriptionToUpdate).

Lemma keeps_migrateSubtask subtask parentItemId boardId :
  keepsMappings (migrateSubtask subtask parentItemId boardId).
Proof. unfold ListReplicator.migrateSubtask, MondayAPI.createSubitem. keeps_all. Qed.

Lemma keeps_transferAttachments attachments item clickupTaskId :
  keepsMappings (transferAttachments svc replicationId attachments item clickupTaskId).
Proof. unfold transferAttachments, transferOne, MondayAPI.boardIdOf. keeps_all. Qed.

Lemma keeps_migrateComments comments itemId :
  keepsMappings (migrateComments svc comments itemId).
Proof. unfold migrateComments. keeps_all. Qed.

Lemma keeps_migrateTask task boardId options :
  keepsMappings (migrateTask task boardId options).
Proof.
  unfold ListReplicator.migrateTask, MondayAPI.createItem.
  apply keeps_bind; [keeps_all|intros fullTask].
  apply keeps_bind; [keeps_all|intros item].
  apply keeps_bind; [keeps_all|intros _].
  apply keeps_bind; [keeps_all|intros _].
  apply keeps_bind.
  { destruct (task_attachments fullTask) as [[|a l]|];
      [apply keeps_ret| |apply keeps_ret].
    destruct (includeAttachments options);
      [apply keeps_transferAttachments|apply keeps_ret]. }
  intros _. apply keeps_bind.
  { destruct (includeComments options); [|apply keeps_ret].
    apply keeps_bind; [apply keeps_remote|intros comments].
    apply keeps_migrateComments. }
  intros _. apply keeps_bind; [|intros _; apply keeps_ret].
  destruct (includeSubtasks options), (task_parent fullTask); try apply keeps_ret.
  apply keeps_bind; [apply keeps_remote|intros allTasks].
  apply keeps_forEach. intros subtask. apply keeps_migrateSubtask.
Qed.

Lemma keeps_reportProgress processed total : keepsMappings (reportProgress processed total).
Proof. intros w k row H. exact H. Qed.

(** C5. No step of the replication workflow rewrites a row of
    [task_mappings]: whatever the remote calls answer, and through every
    retry of the batch processor, a row present before [migrateTasks],
    [migrateTask] or [migrateSubtask] runs is present, unchanged,
    afterwards, so its [monday_item_id] is the one it was created with.
    Each insert either leaves the table as it is, the task's existing row
    being kept, or adds one row under a key that was free. *)
Theorem task_mapping_never_reassigned :
  (forall tasks boardId options w k row,
      task_mappings w !! k = Some row ->
      let w' := snd (migrateTasks tasks boardId options w) in
      task_mappings w' !! k = Some row
      /\ (tm_monday_item_id <$> task_mappings w' !! k) = Some (tm_monday_item_id row))
  /\ (forall task boardId options, keepsMappings (migrateTask task boardId options))
  /\ (forall subtask parentItemId boardId,
         keepsMappings (migrateSubtask subtask parentItemId boardId))
  /\ (forall row w,
         let table := task_mappings w in
         let table' := task_mappings (snd (insertTaskMapping row w)) in
         (is_Some (table !! tm_clickup_task_id row) /\ table' = table)
         \/ (table !! tm_clickup_task_id row = None
             /\ table' = <[tm_clickup_task_id row := row]> table)).
Proof.
  split; [|split; [|split]].
  - intros tasks boardId options w k row H w'.
    assert (Hkept : task_mappings w' !! k = Some row).
    { subst w'. unfold ListReplicator.migrateTasks.
      apply keeps_processBatch; auto.
      - intros task. apply keeps_migrateTask.
      - intros f p t [= <-]. apply keeps_reportProgress.
      - intros f e task [= <-]. apply keeps_ret. }
    split; [exact Hkept|]. now rewrite Hkept.
  - intros. apply keeps_migrateTask.
  - intros. apply keeps_migrateSubtask.
  - intros. apply insertTaskMapping_cases.
Qed.

End Replication.

(** A replay of [migrateTask] on a task that already has its mapping: a
    second item is created remotely, and the stored mapping still names
    the first. *)
Lemma task_mapping_never_reassigned_witness :
  let svc := demoServices [] [] in
  let options := ListReplicator.mkReplicationOptions false false false in
  let task := demoTask "t1" "Task A" [] in
  let w1 := snd (ListReplicator.migrateTask svc "r1" (fun d => d) task "b1" options
                                            emptyWorld) in
  let w2 := snd (ListReplicator.migrateTask svc "r1" (fun d => d) task "b1" options w1) in
  (tm_monday_item_id <$> task_mappings w1 !! "t1") = Some "item-0"
  /\ (tm_monday_item_id <$> task_mappings w2 !! "t1") = Some "item-0".
Proof.
  intros svc options task w1 w2.
  assert (H1 : task_mappings w1 !! "t1"
               = Some (mkMapping "r1" "t1" "item-0" None None "synced"))
    by (vm_compute; reflexivity).
  split; [now rewrite H1|].
  pose proof (proj1 (proj2 (task_mapping_never_reassigned svc "r1" (fun d => d)))
                    task "b1" options w1 "t1" _ H1) as H2.
  fold w2 in H2. now rewrite H2.
Defined.

(* ===================================================================== *)
(** * Part III: further properties of the code                            *)
(* ===================================================================== *)

(** ** More on the sliding window *)

Section RateLimiterQuota.

Import RateLimiter.

Lemma filter_length_le {A} (p : A -> bool) (l : list A) :
  (length (List.filter p l) <= length l)%nat.
Proof.
  induction l as [|a l IH]; cbn; [lia|]. destruct (p a); cbn; lia.
Qed.

Lemma filter_length_lt {A} (p : A -> bool) (l : list A) x :
  In x l -> p x = false -> (length (List.filter p l) < length l)%nat.
Proof.
  induction l as [|a l IH]; intros Hin Hx; [destruct Hin|].
  cbn. destruct Hin as [-> | Hin].
  - rewrite Hx. pose proof (filter_length_le p l). lia.
  - specialize (IH Hin Hx). destruct (p a); cbn; lia.
Qed.

Lemma filter_filter_later (window now later : Z) (l : list Z) :
  now <= later ->
  List.filter (fun time => later - time <? window)
              (List.filter (fun time => now - time <? window) l)
  = List.filter (fun time => later - time <? window) l.
Proof.
  intros Hle. induction l as [|a l IH]; cbn; [reflexivity|].
  destruct (Z.ltb_spec (now - a) window) as [Hin|Hout]; cbn.
  - now rewrite IH.
  - destruct (Z.ltb_spec (later - a) window); [lia|exact IH].
Qed.

Lemma minimum_fold (l : list Z) : forall x,
  fold_left Z.min l x <= x
  /\ (forall y, In y l -> fold_left Z.min l x <= y)
  /\ (fold_left Z.min l x = x \/ In (fold_left Z.min l x) l).
Proof.
  induction l as [|a l IH]; intros x; cbn.
  - repeat split; [lia|intros y []|now left].
  - destruct (IH (Z.min x a)) as (Hle & Hall & Hmem). repeat split.
    + lia.
    + intros y [<- | Hy]; [lia|now apply Hall].
    + destruct Hmem as [Heq | Hin]; [|now right; right].
      rewrite Heq. destruct (Z.min_spec x a) as [[_ ->] | [_ ->]]; auto.
Qed.

Lemma minimum_spec (l : list Z) :
  l <> [] -> In (minimum l) l /\ (forall y, In y l -> minimum l <= y).
Proof.
  destruct l as [|x l]; [congruence|]. intros _. unfold minimum.
  destruct (minimum_fold l x) as (Hle & Hall & Hmem). split.
  - destruct Hmem as [-> | Hin]; [now left|now right].
  - intros y [<- | Hy]; [exact Hle|now apply Hall].
Qed.

(** X1. [checkLimit] and [getRemainingQuota], asked at the same
    instant, agree: the probe answers [true] exactly when the quota is
    positive; both leave the limiter in the same state, and the quota
    lies between 0 and the configured maximum. *)
Theorem quota_agrees_with_probe (now : Z) (rl : t) :
  (fst (checkLimit now rl) = true <-> 0 < fst (getRemainingQuota now rl))
  /\ snd (checkLimit now rl) = snd (getRemainingQuota now rl)
  /\ 0 <= fst (getRemainingQuota now rl) <= Z.max 0 (maxRequests (config rl)).
Proof.
  unfold checkLimit, getRemainingQuota. cbn [fst snd withRequests requests config].
  split; [|split; [reflexivity|lia]].
  rewrite Z.ltb_lt. lia.
Qed.

(** X2. A request recorded at the instant of the probe takes one unit
    of a positive quota, provided the window has positive width. *)
Theorem recordRequest_takes_one (now : Z) (rl : t) :
  0 < windowMs (config rl) ->
  0 < fst (getRemainingQuota now rl) ->
  fst (getRemainingQuota now (recordRequest now now rl))
  = fst (getRemainingQuota now rl) - 1.
Proof.
  intros Hwin. unfold getRemainingQuota, inWindow, recordRequest.
  cbn [fst snd withRequests requests config].
  rewrite List.filter_app, length_app. cbn [List.filter].
  replace (now - now <? windowMs (config rl)) with true
    by (symmetry; apply Z.ltb_lt; lia).
  cbn [length]. lia.
Qed.

(** X3. When the window holds exactly [maxRequests >= 1] requests,
    [waitForReset] first sleeps
    [windowMs - (now - oldest) + 100], which is more than 100 ms, and at
    any instant from the end of that sleep on the probe answers [true]. *)
Theorem waitForReset_frees_a_slot (now : Z) (rl : t) :
  0 < maxRequests (config rl) ->
  Z.of_nat (length (inWindow now rl)) = maxRequests (config rl) ->
  exists pause rest,
    fst (waitForReset now rl) = pause :: rest
    /\ pause = windowMs (config rl) - (now - minimum (inWindow now rl)) + 100
    /\ 100 < pause
    /\ forall later,
         now + pause <= later ->
         fst (checkLimit later (snd (waitForReset now rl))) = true.
Proof.
  intros Hpos Hfull.
  assert (Hne : inWindow now rl <> []).
  { intros Hnil. rewrite Hnil in Hfull. cbn in Hfull. lia. }
  destruct (minimum_spec _ Hne) as [Hmin _].
  assert (Hold : now - minimum (inWindow now rl) < windowMs (config rl)).
  { unfold inWindow in Hmin at 2. apply List.filter_In in Hmin as [_ Hmin].
    now apply Z.ltb_lt in Hmin. }
  unfold waitForReset. cbn [fst snd withRequests requests config lastRequestTime].
  destruct (Z.geb_spec (Z.of_nat (length (inWindow now rl))) (maxRequests (config rl)))
    as [_|Hlt]; [|lia].
  set (pause := windowMs (config rl) - (now - minimum (inWindow now rl)) + 100).
  destruct (Z.gtb_spec pause 0) as [_|Hle]; [|subst pause; lia].
  eexists pause, _. split; [reflexivity|]. split; [reflexivity|].
  split; [subst pause; lia|].
  intros later Hlater. unfold checkLimit, inWindow.
  cbn [fst snd withRequests requests config].
  apply Z.ltb_lt. fold (inWindow now rl).
  pose proof (filter_length_lt (fun time => later - time <? windowMs (config rl))
                               (inWindow now rl) (minimum (inWindow now rl)) Hmin) as Hdrop.
  assert (Hgone : (later - minimum (inWindow now rl) <? windowMs (config rl)) = false)
    by (apply Z.ltb_ge; subst pause; lia).
  specialize (Hdrop Hgone). lia.
Qed.

Lemma waitForReset_sleeps_positive now rl :
  Forall (fun ms => 0 < ms) (fst (waitForReset now rl)).
Proof.
  unfold waitForReset. cbn [fst]. apply Forall_app. split.
  - destruct (_ >=? _); [|constructor].
    destruct (Z.gtb_spec (windowMs (config (withRequests rl (inWindow now rl)))
                          - (now - minimum (requests (withRequests rl (inWindow now rl))))
                          + 100) 0); constructor; [lia|constructor].
  - destruct (minInterval _) as [mi|]; [|constructor].
    destruct (mi =? 0); [constructor|].
    destruct (Z.ltb_spec (now - lastRequestTime (withRequests rl (inWindow now rl))) mi);
      constructor; [lia|constructor].
Qed.

Lemma totalSleep_app a b : totalSleep (a ++ b) = totalSleep a + totalSleep b.
Proof. unfold totalSleep. induction a as [|x a IH]; cbn; lia. Qed.

Lemma totalSleep_nonneg l : Forall (fun ms => 0 < ms) l -> 0 <= totalSleep l.
Proof. unfold totalSleep. induction 1; cbn; lia. Qed.

(** X4. With a positive [minInterval], once the sleeps of
    [waitForReset] are over, at least [minInterval] has passed since the
    last recorded request. *)
Theorem waitForReset_keeps_spacing (now : Z) (rl : t) (mi : Z) :
  minInterval (config rl) = Some mi ->
  0 < mi ->
  mi <= now + totalSleep (fst (waitForReset now rl)) - lastRequestTime rl.
Proof.
  intros Hmi Hpos.
  pose proof (waitForReset_sleeps_positive now rl) as Hall.
  unfold waitForReset in *. cbn [fst snd withRequests requests config lastRequestTime] in *.
  rewrite Hmi in *. apply Forall_app in Hall as [Hfirst _].
  apply totalSleep_nonneg in Hfirst. rewrite totalSleep_app.
  destruct (Z.eqb_spec mi 0) as [->|_]; [lia|].
  destruct (Z.ltb_spec (now - lastRequestTime rl) mi); cbn; lia.
Qed.

End RateLimiterQuota.

(** The statements at the ClickUp adapter's limits. *)
Lemma recordRequest_takes_one_witness :
  let rl := afterBurst (RateLimiter.mkConfig 90 60000 (Some 100)) [0; 200] in
  fst (RateLimiter.getRemainingQuota 500 (RateLimiter.recordRequest 500 500 rl))
  = fst (RateLimiter.getRemainingQuota 500 rl) - 1.
Proof.
  apply (recordRequest_takes_one
           500 (afterBurst (RateLimiter.mkConfig 90 60000 (Some 100)) [0; 200]));
    vm_compute; reflexivity.
Defined.

Lemma waitForReset_frees_a_slot_witness :
  let rl := afterBurst (RateLimiter.mkConfig 2 60000 None) [1000; 3000] in
  exists pause rest,
    fst (RateLimiter.waitForReset 5000 rl) = pause :: rest
    /\ pause = 60000 - (5000 - RateLimiter.minimum (RateLimiter.inWindow 5000 rl)) + 100
    /\ 100 < pause
    /\ forall later,
         5000 + pause <= later ->
         fst (RateLimiter.checkLimit later (snd (RateLimiter.waitForReset 5000 rl))) = true.
Proof.
  apply (waitForReset_frees_a_slot
           5000 (afterBurst (RateLimiter.mkConfig 2 60000 None) [1000; 3000]));
    vm_compute; reflexivity.
Defined.

Lemma waitForReset_keeps_spacing_witness :
  let rl := RateLimiter.recordRequest 4950 4950
              (RateLimiter.new (RateLimiter.mkConfig 90 60000 (Some 100))) in
  100 <= 5000 + totalSleep (fst (RateLimiter.waitForReset 5000 rl)) - 4950.
Proof.
  apply (waitForReset_keeps_spacing
           5000 (RateLimiter.recordRequest 4950 4950
                   (RateLimiter.new (RateLimiter.mkConfig 90 60000 (Some 100)))) 100);
    [reflexivity|lia].
Defined.

(** ** The retry wrapper always settles *)

Section BackoffSettles.

Import ExponentialBackoff.

Context {A : Type}.
Variable fn : nat -> Outcome A.
Variable retryableErrors : option (list string).
Variable bo : t.

(** The number of calls [execute] can make at most. *)
Local Abbreviation budget := (Z.to_nat (Z.max 1 (maxAttempts bo))).

Lemma backoffDelays_S k :
  backoffDelays bo (S k) = backoffDelays bo k ++ [delay bo (Z.of_nat (S k))].
Proof. unfold backoffDelays. now rewrite seq_S, map_app. Qed.

Lemma loop_settles m : forall n,
  (n + m = budget)%nat -> (1 <= m)%nat ->
  (forall i, (i < n)%nat -> failsRetryably retryableErrors (fn i)) ->
  exists run,
    settledRun fn retryableErrors bo run
    /\ forall fuel, (m <= fuel)%nat ->
         loop fuel fn retryableErrors (setAttempt bo (Z.of_nat n)) (backoffDelays bo n) n
         = Some run.
Proof.
  induction m as [|m IH]; intros n Hbudget Hm Hprev; [lia|].
  destruct (fn n) as [v|e] eqn:Hcall.
  - exists (mkRun (Ok v) (setAttempt bo 0) (backoffDelays bo n) (S n)). split.
    + unfold settledRun. cbn [calls sleeps settled final attempt setAttempt].
      replace (S n - 1)%nat with n by lia. repeat split; auto; lia.
    + intros [|fuel] Hfuel; [lia|]. cbn [loop]. now rewrite Hcall.
  - destruct (propagates retryableErrors e) eqn:Hprop.
    + exists (mkRun (Throw e) (setAttempt bo (Z.of_nat n + 1)) (backoffDelays bo n) (S n)).
      split.
      * unfold settledRun. cbn [calls sleeps settled final attempt setAttempt].
        replace (S n - 1)%nat with n by lia. repeat split; auto; try lia.
        exists e. auto.
      * intros [|fuel] Hfuel; [lia|]. cbn [loop]. now rewrite Hcall, Hprop.
    + destruct (Z.geb_spec (Z.of_nat n + 1) (maxAttempts bo)) as [Hlast|Hmore].
      * exists (mkRun (Throw (terminalError bo e)) (setAttempt bo (Z.of_nat n + 1))
                      (backoffDelays bo n) (S n)).
        split.
        -- unfold settledRun. cbn [calls sleeps settled final attempt setAttempt].
           replace (S n - 1)%nat with n by lia. repeat split; auto; try lia.
           exists e. split; [exact Hcall|]. right. repeat split; auto. lia.
        -- intros [|fuel] Hfuel; [lia|]. cbn [loop]. rewrite Hcall, Hprop.
           cbn [attempt maxAttempts setAttempt].
           destruct (Z.geb_spec (Z.of_nat n + 1) (maxAttempts bo)); [reflexivity|lia].
      * destruct (IH (S n)) as (run & Hrun & Hloop); [lia|lia| |].
        { intros i Hi. destruct (Nat.eq_dec i n) as [->|Hne].
          - exists e. auto.
          - apply Hprev. lia. }
        exists run. split; [exact Hrun|].
        intros [|fuel] Hfuel; [lia|]. cbn [loop]. rewrite Hcall, Hprop.
        cbn [attempt maxAttempts setAttempt].
        destruct (Z.geb_spec (Z.of_nat n + 1) (maxAttempts bo)); [lia|].
        rewrite <- (Hloop fuel ltac:(lia)). rewrite backoffDelays_S.
        f_equal.
        -- unfold setAttempt. cbn. f_equal. lia.
        -- f_equal. unfold delay. cbn. do 2 f_equal. lia.
Qed.

(** X5. [execute] always settles: with fuel for
    [max(1, maxAttempts)] rounds, and with any more, it returns the same
    finished run.  That run made between 1 and [max(1, maxAttempts)]
    calls, all but the last failing with retryable errors; it slept
    [min(baseDelay * 2^(a-1), maxDelay)] before each retry [a] and at no
    other time; on success the attempt counter is 0, on failure it is the
    number of calls made, and the error thrown is either the last cause
    itself (the filter rejected it) or the terminal error built from it. *)
Theorem execute_always_settles :
  exists run,
    settledRun fn retryableErrors bo run
    /\ forall fuel, (budget <= fuel)%nat ->
         execute fuel fn retryableErrors bo = Some run.
Proof.
  destruct (loop_settles budget 0) as (run & Hrun & Hloop); [lia|lia| |].
  - intros i Hi. lia.
  - exists run. split; [exact Hrun|]. intros fuel Hfuel. unfold execute.
    now apply Hloop.
Qed.

End BackoffSettles.

(** ** Requests through the ClickUp adapter *)

Section ClickUpRequests.

Import ClickUpAPI.

Context {A : Type}.

(** X6. [makeRequest] always settles once the fuel covers the attempt
    budget of the client's wrapper.  When the request succeeds, the
    limiter holds exactly one more timestamp than the window held, however
    many attempts it took; when it fails, none is recorded, although up to
    [max(1, maxAttempts)] attempts were made. *)
Theorem makeRequest_records_successes (fuel : nat) (now now1 now2 : Z)
        (fn : nat -> Outcome A) (c : t) :
  (Z.to_nat (Z.max 1 (ExponentialBackoff.maxAttempts (backoff c))) <= fuel)%nat ->
  exists settled pauses c' run,
    makeRequest fuel now now1 now2 fn c = Some (settled, pauses, c')
    /\ settledRun fn (Some retryable) (backoff c) run
    /\ settled = ExponentialBackoff.settled run
    /\ RateLimiter.requests (rateLimiter c')
       = RateLimiter.inWindow now (rateLimiter c)
         ++ (if returnsNormally settled then [now1] else [])
    /\ RateLimiter.config (rateLimiter c') = RateLimiter.config (rateLimiter c).
Proof.
  intros Hfuel.
  destruct (execute_always_settles fn (Some retryable) (backoff c))
    as (run & Hrun & Hexec).
  unfold makeRequest. rewrite (Hexec fuel Hfuel).
  unfold RateLimiter.waitForReset.
  destruct (ExponentialBackoff.settled run) as [v|e] eqn:Hsettled;
    eexists _, _, _, run; (split; [reflexivity|]);
    cbn [rateLimiter RateLimiter.requests RateLimiter.recordRequest
         RateLimiter.withRequests RateLimiter.config returnsNormally];
    rewrite ?app_nil_r; auto.
Qed.

End ClickUpRequests.

(** The statement on a request that times out once and then answers. *)
Lemma makeRequest_records_successes_witness :
  exists settled pauses c' run,
    ClickUpAPI.makeRequest
      3 1000 1200 1201
      (fun n => if (n <? 1)%nat then Throw (newError "ETIMEDOUT") else Ok 7)
      ClickUpAPI.new
    = Some (settled, pauses, c')
    /\ settledRun (fun n => if (n <? 1)%nat then Throw (newError "ETIMEDOUT") else Ok 7)
                  (Some ClickUpAPI.retryable) (ClickUpAPI.backoff ClickUpAPI.new) run
    /\ settled = ExponentialBackoff.settled run
    /\ RateLimiter.requests (ClickUpAPI.rateLimiter c')
       = RateLimiter.inWindow 1000 (ClickUpAPI.rateLimiter ClickUpAPI.new)
         ++ (if returnsNormally settled then [1200] else [])
    /\ RateLimiter.config (ClickUpAPI.rateLimiter c')
       = RateLimiter.config (ClickUpAPI.rateLimiter ClickUpAPI.new).
Proof.
  apply (makeRequest_records_successes
           3 1000 1200 1201
           (fun n => if (n <? 1)%nat then Throw (newError "ETIMEDOUT") else Ok 7)
           ClickUpAPI.new).
  vm_compute. lia.
Defined.

(** ** Retries of one item *)

Section RetryRuns.

Import BatchProcessor.

Context {T R : Type}.
Variables (task_id task_name : T -> string) (jobId : string).

(** The processor is one remote call per item. *)
Variable oracle : T -> nat -> Outcome R.
Variable maxRetries : Z.

Local Abbreviation processor := (fun task : T => remote (oracle task)).
Local Abbreviation retryLoop :=
  (BatchProcessor.retryLoop task_id task_name jobId processor maxRetries None).
Local Abbreviation processTaskWithRetry :=
  (BatchProcessor.processTaskWithRetry task_id task_name jobId processor maxRetries None).

Lemma retryLoop_failures (task : T) k : forall remaining retryCount lastError w errs,
  (forall i, (i < k)%nat -> oracle task (i + ticks w) = Throw (errs i)) ->
  retryCount + Z.of_nat k <= maxRetries ->
  retryLoop (k + remaining) task retryCount lastError w
  = retryLoop remaining task (retryCount + Z.of_nat k)
              (match k with O => lastError | S k' => Some (asError (errs k')) end)
              (afterCalls w k
                 (map (fun i => Z.min (1000 * 2 ^ (retryCount + Z.of_nat i)) 30000)
                      (seq 1 k))).
Proof.
  induction k as [|k IH]; intros remaining retryCount lastError w errs Hfail Hroom.
  - cbn [seq map Nat.add]. now rewrite afterCalls_zero, Z.add_0_r.
  - change (S k + remaining)%nat with (S (k + remaining)).
    cbn [BatchProcessor.retryLoop]. rewrite bind_capture, remote_run.
    pose proof (Hfail 0%nat ltac:(lia)) as Hfirst. cbn [Nat.add] in Hfirst.
    rewrite Hfirst. cbn [fst snd callOnError]. cbn zeta.
    rewrite bind_ret.
    destruct (Z.leb_spec (retryCount + 1) maxRetries) as [_|Hno]; [|lia].
    unfold bind at 1. rewrite wait_run. cbn [app].
    rewrite (IH remaining (retryCount + 1) (Some (asError (errs 0%nat))) _
                (fun i => errs (S i))).
    + rewrite afterCalls_more. f_equal.
      * lia.
      * destruct k; reflexivity.
      * f_equal; [lia|]. change (seq 1 (S k)) with (1%nat :: seq 2 k).
        cbn [map app]. f_equal.
        rewrite <- (seq_shift k 1), map_map. apply map_ext. intros i.
        do 3 f_equal. lia.
    + intros i Hi. cbn [ticks afterCalls].
      replace (i + (1 + ticks w))%nat with (S i + ticks w)%nat by lia.
      apply Hfail. lia.
    + lia.
Qed.

(** X7. An item whose remote call fails [k <= maxRetries] times and then
    answers is reported as a success carrying the answer and
    [retryCount = k]; the processor was called [k + 1] times, the waits
    were [min(1000 * 2^i, 30000)] for [i = 1 .. k] (2 s first), and nothing
    else in the store changed. *)
Theorem retry_then_success (task : T) (w : World) (k : nat) (v : R)
        (errs : nat -> Error) :
  (forall i, (i < k)%nat -> oracle task (i + ticks w) = Throw (errs i)) ->
  oracle task (k + ticks w) = Ok v ->
  Z.of_nat k <= maxRetries ->
  processTaskWithRetry task w
  = (Ok {| taskId := task_id task;
           taskName := Some (task_name task);
           success := true;
           error := None;
           data := Some v;
           retryCount := Z.of_nat k |},
     afterCalls w (S k) (retryDelays k)).
Proof.
  intros Hfail Hok Hroom. unfold BatchProcessor.processTaskWithRetry.
  replace (Z.to_nat (maxRetries + 1)) with (k + S (Z.to_nat (maxRetries - Z.of_nat k)))%nat
    by lia.
  rewrite (retryLoop_failures task k _ 0 None w errs Hfail) by lia.
  cbn [BatchProcessor.retryLoop]. rewrite bind_capture, remote_run.
  cbn [ticks afterCalls]. rewrite Hok. cbn [fst snd]. unfold ret.
  f_equal.
  unfold afterCalls, retryDelays. cbn. f_equal.
  now rewrite app_nil_r.
Qed.

(** X8. An item whose remote call fails on each of its
    [maxRetries + 1] calls is reported as a failure with
    [retryCount = maxRetries + 1] and the text
    [Failed after <maxRetries> retries: <last message>], where the last
    message is the [message] of the value the last call threw when that
    value is an [Error], and [String(value)] when it is not.  The waits
    were those before the retries [1 .. maxRetries] (none after the last
    failure).  One [failed] row named [N/A] is added to [file_transfers]
    when the job id is that of a row of [sync_jobs]; for any other id the
    insert is refused and the table stays as it was. *)
Theorem retries_exhausted (task : T) (w : World) (errs : nat -> Error) :
  0 <= maxRetries ->
  (forall i, (i <= Z.to_nat maxRetries)%nat ->
             oracle task (i + ticks w) = Throw (errs i)) ->
  let last := thrownMessage (errs (Z.to_nat maxRetries)) in
  let run := processTaskWithRetry task w in
  fst run
  = Ok {| taskId := task_id task;
          taskName := Some (task_name task);
          success := false;
          error := Some ("Failed after " +:+ JsString.show_Z maxRetries
                         +:+ " retries: " +:+ JsString.show_opt last);
          data := None;
          retryCount := maxRetries + 1 |}
  /\ slept (snd run) = slept w ++ retryDelays (Z.to_nat maxRetries)
  /\ ticks (snd run) = (Z.to_nat maxRetries + 1 + ticks w)%nat
  /\ (In jobId (sync_job_ids w) ->
      file_transfers (snd run)
      = file_transfers w
        ++ [{| ft_job_id := jobId;
               ft_clickup_task_id := task_id task;
               ft_monday_item_id := None;
               ft_file_name := "N/A";
               ft_file_size := 0;
               ft_status := st_failed;
               ft_error_message :=
                 Some match last with
                      | Some (String c text) => String c text
                      | _ => "Unknown error"
                      end |}])
  /\ (~ In jobId (sync_job_ids w) -> file_transfers (snd run) = file_transfers w)
  /\ task_mappings (snd run) = task_mappings w.
Proof.
  intros Hpos Hfail last run. subst run.
  unfold BatchProcessor.processTaskWithRetry.
  set (n := Z.to_nat maxRetries) in *.
  replace (Z.to_nat (maxRetries + 1)) with (n + 1)%nat by lia.
  rewrite (retryLoop_failures task n 1 0 None w errs) by (try lia; intros; apply Hfail; lia).
  cbn [BatchProcessor.retryLoop]. rewrite bind_capture, remote_run.
  cbn [ticks afterCalls]. rewrite (Hfail n ltac:(lia)). cbn [fst snd callOnError].
  cbn zeta. rewrite bind_ret.
  destruct (Z.leb_spec (0 + Z.of_nat n + 1) maxRetries) as [Hle|_]; [lia|].
  rewrite bind_ret.
  unfold logTaskFailure, insertFileTransfer. rewrite bind_modify.
  unfold failureText, messageOrUnknown. cbn [mbind option_bind].
  rewrite asError_message. fold last. cbn [ret fst snd file_transfers slept ticks
                                           task_mappings afterCalls].
  replace (0 + Z.of_nat n + 1) with (maxRetries + 1) by lia.
  rewrite app_nil_r.
  split; [reflexivity|]. split; [reflexivity|]. split; [lia|].
  split; [|split; [|reflexivity]].
  - intros Hin. apply isSyncJob_spec in Hin.
    change (isSyncJob (afterCalls _ 1 []) _) with (isSyncJob w jobId). rewrite Hin.
    do 3 f_equal. destruct last as [[|c text]|]; reflexivity.
  - intros Hout. change (isSyncJob (afterCalls _ 1 []) _) with (isSyncJob w jobId).
    destruct (isSyncJob w jobId) eqn:Hin; [|reflexivity].
    apply isSyncJob_spec in Hin. contradiction.
Qed.

End RetryRuns.

(** The statements on the default three retries. *)
Lemma retry_then_success_witness :
  BatchProcessor.processTaskWithRetry
    task_id task_name "job"
    (fun task : ClickUpTask =>
       remote (fun n => if (n <? 2)%nat then Throw (newError "ETIMEDOUT") else Ok 7))
    3 None (demoTask "t1" "Task A" []) emptyWorld
  = (Ok {| BatchProcessor.taskId := "t1";
           BatchProcessor.taskName := Some "Task A";
           BatchProcessor.success := true;
           BatchProcessor.error := None;
           BatchProcessor.data := Some 7;
           BatchProcessor.retryCount := 2 |},
     afterCalls emptyWorld 3 (retryDelays 2)).
Proof.
  apply (retry_then_success
           task_id task_name "job"
           (fun (_ : ClickUpTask) n =>
              if (n <? 2)%nat then Throw (newError "ETIMEDOUT") else Ok 7)
           3 (demoTask "t1" "Task A" []) emptyWorld 2 7 (fun _ => newError "ETIMEDOUT")).
  - intros i Hi. destruct i as [|[|i]]; [reflexivity|reflexivity|lia].
  - reflexivity.
  - lia.
Defined.

Lemma retries_exhausted_witness :
  let thrown := {| message := None; code := None; nonError := Some "quota exceeded" |} in
  let run jobId :=
    BatchProcessor.processTaskWithRetry
      task_id task_name jobId
      (fun task : ClickUpTask => remote (fun _ => Throw thrown : Outcome Z))
      3 None (demoTask "t1" "Task A" []) emptyWorld in
  fst (run "job")
  = Ok {| BatchProcessor.taskId := "t1";
          BatchProcessor.taskName := Some "Task A";
          BatchProcessor.success := false;
          BatchProcessor.error := Some "Failed after 3 retries: quota exceeded";
          BatchProcessor.data := None;
          BatchProcessor.retryCount := 4 |}
  /\ slept (snd (run "job")) = [2000; 4000; 8000]
  /\ file_transfers (snd (run "job"))
     = [{| ft_job_id := "job";
           ft_clickup_task_id := "t1";
           ft_monday_item_id := None;
           ft_file_name := "N/A";
           ft_file_size := 0;
           ft_status := st_failed;
           ft_error_message := Some "quota exceeded" |}]
  /\ file_transfers (snd (run "replication")) = [].
Proof.
  intros thrown run.
  destruct (retries_exhausted
              task_id task_name "job"
              (fun (_ : ClickUpTask) (_ : nat) => Throw thrown : Outcome Z)
              3 (demoTask "t1" "Task A" []) emptyWorld (fun _ => thrown)
              ltac:(lia) (fun _ _ => eq_refl))
    as (Hresult & Hslept & _ & Hrow & _ & _).
  destruct (retries_exhausted
              task_id task_name "replication"
              (fun (_ : ClickUpTask) (_ : nat) => Throw thrown : Outcome Z)
              3 (demoTask "t1" "Task A" []) emptyWorld (fun _ => thrown)
              ltac:(lia) (fun _ _ => eq_refl))
    as (_ & _ & _ & _ & Hnone & _).
  split; [exact Hresult|]. split; [exact Hslept|]. split.
  - apply Hrow. left. reflexivity.
  - apply Hnone. intros [Heq|[]]. discriminate Heq.
Defined.

(** ** Sequential batches without callbacks *)

Section SequentialReport.

Import BatchProcessor.

Context {T R : Type}.
Variables (task_id task_name : T -> string) (jobId : string).
Variable processor : T -> M R.
Variables (maxRetries maxParallel delayBetweenBatches : Z).

Local Abbreviation processSequential :=
  (BatchProcessor.processSequential task_id task_name jobId processor maxRetries None).
Local Abbreviation batchesLoop :=
  (BatchProcessor.batchesLoop task_id task_name jobId processor maxRetries false
                              maxParallel delayBetweenBatches None None).
Local Abbreviation processBatch :=
  (BatchProcessor.processBatch task_id task_name jobId processor maxRetries false
                               maxParallel delayBetweenBatches None None).

Lemma retryLoop_taskId remaining : forall (task : T) retryCount lastError w,
  exists r w',
    BatchProcessor.retryLoop task_id task_name jobId processor maxRetries None
                             remaining task retryCount lastError w = (Ok r, w')
    /\ taskId r = task_id task.
Proof.
  induction remaining as [|remaining IH]; intros task retryCount lastError w.
  - cbn. eauto.
  - cbn [BatchProcessor.retryLoop]. rewrite bind_capture.
    destruct (processor task w) as [[d|e] w1]; cbn [fst snd].
    + cbn. eauto.
    + unfold callOnError. rewrite bind_ret.
      destruct (retryCount + 1 <=? maxRetries).
      * unfold wait. rewrite bind_modify. apply IH.
      * rewrite bind_ret. apply IH.
Qed.

Lemma processSequential_ids (tasks : list T) : forall w,
  exists rs w',
    processSequential tasks w = (Ok rs, w')
    /\ map taskId rs = map task_id tasks.
Proof.
  induction tasks as [|task rest IH]; intros w.
  - cbn. eauto.
  - cbn [BatchProcessor.processSequential].
    destruct (retryLoop_taskId (Z.to_nat (maxRetries + 1)) task 0 None w)
      as (r & w1 & Hrun & Hid).
    destruct (IH w1) as (rs & w2 & Hrest & Hids).
    exists (r :: rs), w2. split.
    + unfold bind at 1. unfold BatchProcessor.processTaskWithRetry. rewrite Hrun.
      unfold bind at 1. rewrite Hrest. reflexivity.
    + cbn [map]. now rewrite Hid, Hids.
Qed.

(** The progress written after the batch at [index]. *)
Local Abbreviation progressAt total batchSize index :=
  (Z.min ((Z.of_nat index + 1)
          * (if (batchSize =? 0)%nat then Z.of_nat total else Z.of_nat batchSize))
         (Z.of_nat total)).

Lemma batchesLoop_sequential_exact fuel sched total batchSize nbatches batches :
  forall index (acc : BatchResult R) w,
    exists rs w',
      batchesLoop fuel sched total batchSize nbatches index batches acc w
      = (Ok (Some {| successful := successful acc + countIf success rs;
                     failed := failed acc + countIf isFailedResult rs;
                     skipped := skipped acc + countIf isSkippedResult rs;
                     results := results acc ++ rs |}), w')
      /\ map taskId rs = map task_id (concat batches)
      /\ (batches <> [] ->
          job_row w'
          = let processed := progressAt total batchSize (index + length batches - 1) in
            {| job_processed_tasks := processed;
               job_total_tasks := Z.of_nat total;
               job_status := if processed >=? Z.of_nat total
                             then "completed" else "running" |}).
Proof.
  induction batches as [|batch rest IH]; intros index acc w.
  - exists [], w. cbn. rewrite !Z.add_0_r, app_nil_r. destruct acc. cbn.
    repeat split. congruence.
  - cbn [BatchProcessor.batchesLoop]. rewrite bind_capture.
    destruct (processSequential_ids batch w) as (rs1 & w1 & Hbatch & Hids1).
    assert (Hsome : bind (processSequential batch) (fun rs => ret (Some rs)) w
                    = (Ok (Some rs1), w1))
      by (unfold bind; now rewrite Hbatch).
    rewrite Hsome. cbn [fst snd].
    rewrite bind_capture.
    unfold BatchProcessor.updateProgress, updateJobRow, callOnProgress.
    rewrite bind_modify, bind_ret.
    set (w2 := {| file_transfers := file_transfers w1;
                  task_mappings := task_mappings w1;
                  job_row := _;
                  error_log := error_log w1;
                  slept := slept w1;
                  ticks := ticks w1;
                  sync_job_ids := sync_job_ids w1 |}).
    assert (Hwait : exists w3,
               (if ((Z.of_nat index <? Z.of_nat nbatches - 1)
                    && (delayBetweenBatches >? 0))%bool
                then wait delayBetweenBatches else ret tt) w2 = (Ok tt, w3)
               /\ job_row w3 = job_row w2).
    { destruct ((Z.of_nat index <? Z.of_nat nbatches - 1)
                && (delayBetweenBatches >? 0))%bool; cbn; eauto. }
    destruct Hwait as (w3 & Hwait & Hjob). rewrite Hwait. cbn [fst snd].
    destruct (IH (S index) (pushResults (fold_left countResult rs1 acc) rs1) w3)
      as (rs & w' & Hrun & Hids & Hrow).
    exists (rs1 ++ rs), w'. rewrite Hrun.
    destruct (fold_countResult rs1 acc) as (Hs & Hk & Hf & Hr).
    split; [|split].
    + cbn [pushResults successful failed skipped results].
      rewrite Hs, Hk, Hf, Hr, !countIf_app, <- app_assoc.
      do 3 f_equal. f_equal; lia.
    + cbn [concat]. rewrite !map_app. now rewrite Hids1, Hids.
    + intros _. destruct rest as [|next rest'].
      * apply (f_equal snd) in Hrun. cbn in Hrun. subst w'. rewrite Hjob. subst w2.
        cbn [job_row length].
        replace (index + 1 - 1)%nat with index by lia. reflexivity.
      * rewrite Hrow by discriminate. cbn [length].
        replace (S index + S (length rest') - 1)%nat
          with (index + S (S (length rest')) - 1)%nat by lia.
        reflexivity.
Qed.

(** X9. In sequential mode with no callbacks installed, [processBatch]
    returns one result per item, in the order of the input and whatever
    the batch size; each counter is the number of gathered results of its
    kind, and the three counters add up to the number of items. *)
Theorem sequential_report_in_order fuel sched (tasks : list T) batchSize w :
  exists br w',
    processBatch fuel sched tasks batchSize w = (Ok (Some br), w')
    /\ map taskId (results br) = map task_id tasks
    /\ successful br = countIf success (results br)
    /\ skipped br = countIf isSkippedResult (results br)
    /\ failed br = countIf isFailedResult (results br)
    /\ successful br + failed br + skipped br = Z.of_nat (length tasks).
Proof.
  unfold BatchProcessor.processBatch.
  destruct (createBatches_cover tasks batchSize) as (batches & -> & Hcat & _ & _).
  destruct (batchesLoop_sequential_exact fuel sched (length tasks) batchSize
              (length batches) batches 0%nat emptyResult w)
    as (rs & w' & Hrun & Hids & _).
  eexists _, w'. split; [exact Hrun|]. cbn. rewrite Hcat in Hids.
  repeat split; auto.
  assert (Hlen : length rs = length tasks).
  { rewrite <- (length_map taskId rs), Hids. apply length_map. }
  rewrite <- Hlen. clear. unfold countIf.
  induction rs as [|r rs IH]; [reflexivity|]. cbn [List.filter length].
  unfold isFailedResult, isSkippedResult in *.
  destruct (success r), (JsString.opt_includes (error r) "skipped");
    cbn [negb andb length]; lia.
Qed.

(** X10. In sequential mode with no callbacks installed, the job row
    after [processBatch] reads [processed = total = N] and [completed]
    for every run, also when items (or all of them) failed:
    the progress is the number of items gone through, not of successes. *)
Theorem sequential_job_completed fuel sched (tasks : list T) batchSize w :
  job_row (snd (processBatch fuel sched tasks batchSize w))
  = {| job_processed_tasks := Z.of_nat (length tasks);
       job_total_tasks := Z.of_nat (length tasks);
       job_status := "completed" |}.
Proof.
  unfold BatchProcessor.processBatch.
  destruct (createBatches_cover tasks batchSize) as (batches & -> & _ & Hne & Hcover).
  destruct (batchesLoop_sequential_exact fuel sched (length tasks) batchSize
              (length batches) batches 0%nat emptyResult w)
    as (rs & w' & Hrun & _ & Hrow).
  rewrite Hrun. cbn [snd]. rewrite (Hrow Hne). cbn zeta.
  assert (Hmin : progressAt (length tasks) batchSize (0 + length batches - 1)
                 = Z.of_nat (length tasks)).
  { apply Z.min_r. destruct batches as [|b bs]; [congruence|]. cbn [length] in *.
    destruct (batchSize =? 0)%nat; nia. }
  rewrite Hmin. f_equal.
  destruct (Z.geb_spec (Z.of_nat (length tasks)) (Z.of_nat (length tasks))); [reflexivity|lia].
Qed.

End SequentialReport.

(** ** What a file sync reports and what it leaves in the job row *)

Section SyncReport.

Import FileSyncEngine.

Variable svc : Services.
Variable jobId : string.

Local Abbreviation syncTaskFiles := (FileSyncEngine.syncTaskFiles svc jobId).
Local Abbreviation tasksLoop := (FileSyncEngine.tasksLoop svc jobId).
Local Abbreviation syncFiles := (FileSyncEngine.syncFiles svc jobId).

Lemma keepsJob_ret {A} (a : A) : keepsJob (ret a).
Proof. intros w. reflexivity. Qed.

Lemma keepsJob_throw {A} (e : Error) : keepsJob (@throw A e).
Proof. intros w. reflexivity. Qed.

Lemma keepsJob_remote {A} (oracle : nat -> Outcome A) : keepsJob (remote oracle).
Proof. intros w. reflexivity. Qed.

Lemma keepsJob_insertFileTransfer row : keepsJob (insertFileTransfer row).
Proof. intros w. reflexivity. Qed.

Lemma keepsJob_bind {A B} (m : M A) (f : A -> M B) :
  keepsJob m -> (forall a, keepsJob (f a)) -> keepsJob (bind m f).
Proof.
  intros Hm Hf w. unfold bind. specialize (Hm w).
  destruct (m w) as [[a|e] w1]; cbn in *; [|exact Hm].
  now rewrite Hf.
Qed.

Lemma keepsJob_tryCatch {A} (m : M A) (h : Error -> M A) :
  keepsJob m -> (forall e, keepsJob (h e)) -> keepsJob (tryCatch m h).
Proof.
  intros Hm Hh w. unfold tryCatch. specialize (Hm w).
  destruct (m w) as [[a|e] w1]; cbn in *; [exact Hm|].
  now rewrite Hh.
Qed.

Lemma keepsJob_forEach {A} (xs : list A) (body : A -> M unit) :
  (forall x, keepsJob (body x)) -> keepsJob (forEach xs body).
Proof.
  intros Hbody. induction xs as [|x xs IH]; cbn [forEach].
  - apply keepsJob_ret.
  - apply keepsJob_bind; auto.
Qed.

Lemma keepsJob_ensureFileColumn boardId : keepsJob (ensureFileColumn svc boardId).
Proof.
  unfold ensureFileColumn.
  apply keepsJob_bind; [apply keepsJob_remote|intros board].
  destruct (List.find _ _); [apply keepsJob_ret|].
  apply keepsJob_bind; [apply keepsJob_remote|intros c; apply keepsJob_ret].
Qed.

Lemma keepsJob_boardIdOf item : keepsJob (MondayAPI.boardIdOf item).
Proof.
  unfold MondayAPI.boardIdOf.
  destruct (item_board_id item); [apply keepsJob_ret|apply keepsJob_throw].
Qed.

Lemma keepsJob_transferAttachment task attachment mondayItem existingAssets options :
  keepsJob (transferAttachment svc jobId task attachment mondayItem existingAssets options).
Proof.
  unfold transferAttachment, logFileTransfer.
  destruct (negb _); [apply keepsJob_ret|].
  destruct (_ && _)%bool; [apply keepsJob_insertFileTransfer|].
  apply keepsJob_bind; [apply keepsJob_remote|intros buffer].
  apply keepsJob_bind; [apply keepsJob_boardIdOf|intros board].
  apply keepsJob_bind; [apply keepsJob_ensureFileColumn|intros column].
  apply keepsJob_bind; [apply keepsJob_remote|intros _].
  apply keepsJob_insertFileTransfer.
Qed.

Lemma keepsJob_syncTaskFiles task boardId options :
  keepsJob (syncTaskFiles task boardId options).
Proof.
  unfold FileSyncEngine.syncTaskFiles, MondayAPI.searchItemsByName, MondayAPI.getItems.
  apply keepsJob_bind.
  - apply keepsJob_bind; [|intros items; apply keepsJob_ret].
    apply keepsJob_bind; [apply keepsJob_remote|intros items; apply keepsJob_ret].
  - intros [|mondayItem rest]; [apply keepsJob_ret|].
    unfold syncToItem. apply keepsJob_bind.
    + apply keepsJob_forEach. intros attachment.
      apply keepsJob_tryCatch; [apply keepsJob_transferAttachment|].
      intros e. apply keepsJob_throw.
    + intros _. destruct (clickupLinkField options) as [[|c f]|];
        try apply keepsJob_ret.
      unfold addClickUpLink.
      apply keepsJob_tryCatch; [apply keepsJob_remote|intros e; apply keepsJob_ret].
Qed.

Lemma tasksLoop_report boardId options total tasks : forall i p result w,
  job_row w = progressRow total p ->
  exists result' w' runs,
    tasksLoop tasks total i boardId options result w = (Ok result', w')
    /\ taskRuns svc jobId boardId options total tasks i w runs w'
    /\ map fst runs = tasks
    /\ map err_taskId (errors result')
       = map err_taskId (errors result) ++ map task_id (thrownTasks runs)
    /\ map err_taskName (errors result')
       = map err_taskName (errors result) ++ map task_name (thrownTasks runs)
    /\ success result' = (success result && forallb snd runs)%bool
    /\ job_row w' = progressRow total (lastProgress i p runs).
Proof.
  induction tasks as [|task rest IH]; intros i p result w Hjob.
  - exists result, w, []. cbn. rewrite !app_nil_r, andb_true_r.
    repeat split; auto. constructor.
  - cbn [FileSyncEngine.tasksLoop]. rewrite bind_capture.
    pose proof (keepsJob_syncTaskFiles task boardId options w) as Hkeep.
    destruct (syncTaskFiles task boardId options w) as [[[]|e] w1] eqn:Hsync;
      cbn [fst snd] in *.
    + rewrite bind_capture.
      change (fst (FileSyncEngine.updateProgress total (i + 1) w1)) with (Ok tt).
      cbn iota.
      destruct (IH (i + 1) (i + 1) (addTransferred result (attachmentCount task))
                   (snd (FileSyncEngine.updateProgress total (i + 1) w1)))
        as (result' & w' & runs & Hrun & Hruns & Hfst & Hids & Hnames & Hok & Hrow);
        [reflexivity|].
      exists result', w', ((task, true) :: runs). rewrite Hrun.
      cbn in Hids, Hnames, Hok.
      repeat split; auto.
      * eapply runs_returned; eauto.
      * cbn. now rewrite Hfst.
    + destruct (IH (i + 1) p (recordError result (task_id task) (task_name task) e) w1)
        as (result' & w' & runs & Hrun & Hruns & Hfst & Hids & Hnames & Hok & Hrow);
        [now rewrite Hkeep|].
      exists result', w', ((task, false) :: runs). rewrite Hrun.
      cbn in Hids, Hnames, Hok. rewrite map_app in Hids, Hnames.
      cbn in Hids, Hnames. rewrite <- app_assoc in Hids, Hnames.
      repeat split; auto.
      * eapply runs_threw; eauto.
      * cbn. now rewrite Hfst.
      * rewrite Hok. cbn. now rewrite andb_false_r.
Qed.

Lemma lastProgress_le runs : forall i p,
  p <= i -> lastProgress i p runs <= i + Z.of_nat (length runs).
Proof.
  induction runs as [|[task ok] runs IH]; intros i p Hp; cbn [lastProgress length].
  - lia.
  - destruct ok.
    + specialize (IH (i + 1) (i + 1)). lia.
    + specialize (IH (i + 1) p). lia.
Qed.

Lemma lastProgress_snoc runs : forall i p task ok,
  lastProgress i p (runs ++ [(task, ok)])
  = if ok then i + Z.of_nat (length runs) + 1 else lastProgress i p runs.
Proof.
  induction runs as [|[t o] runs IH]; intros i p task ok; cbn [lastProgress length app].
  - destruct ok; cbn; lia.
  - destruct o; rewrite IH; destruct ok; lia.
Qed.

(** X11. When the task list was fetched, [syncFiles] returns (it never
    throws) with one entry in [errors] for each task whose sync threw, in
    the order of the tasks and carrying the task's id and name;
    [success] is true exactly when no task threw, that is, when [errors]
    is empty. *)
Theorem syncFiles_error_list (listId boardId : string) (options : SyncOptions)
        (w : World) (tasks : list ClickUpTask) :
  getTasksWithAttachments svc listId (ticks w) = Ok tasks ->
  exists result w' w0 runs,
    syncFiles listId boardId options w = (Ok result, w')
    /\ taskRuns svc jobId boardId options (Z.of_nat (length tasks)) tasks 0 w0 runs w'
    /\ map fst runs = tasks
    /\ map err_taskId (errors result) = map task_id (thrownTasks runs)
    /\ map err_taskName (errors result) = map task_name (thrownTasks runs)
    /\ success result = forallb snd runs
    /\ (success result = true <-> errors result = []).
Proof.
  intros Hfetch. unfold FileSyncEngine.syncFiles.
  unfold bind, capture, remote. rewrite Hfetch.
  cbn [fst snd updateProgress updateJobRow modify ret].
  match goal with
  | |- context [FileSyncEngine.tasksLoop svc jobId tasks ?total 0 boardId options ?r ?w2] =>
      destruct (tasksLoop_report boardId options total tasks 0 0 r w2 eq_refl)
        as (result' & w' & runs & Hrun & Hruns & Hfst & Hids & Hnames & Hok & _)
  end.
  exists result', w'. eexists _, runs. rewrite Hrun.
  cbn in Hids, Hnames, Hok.
  repeat split; auto; try exact Hruns.
  - intros Hsuccess. rewrite Hok in Hsuccess.
    assert (Hnone : thrownTasks runs = []).
    { unfold thrownTasks. clear - Hsuccess.
      induction runs as [|[t o] runs IH]; [reflexivity|].
      cbn in Hsuccess. apply andb_true_iff in Hsuccess as [-> Hrest]. cbn. auto. }
    rewrite Hnone in Hids. cbn in Hids.
    destruct (errors result'); [reflexivity|discriminate].
  - intros Hempty. rewrite Hempty in Hids. cbn in Hids. rewrite Hok.
    clear - Hids. unfold thrownTasks in Hids.
    induction runs as [|[t o] runs IH]; [reflexivity|].
    destruct o; cbn in *; [auto|discriminate].
Qed.

(** X12. When the task list was fetched, the job row after [syncFiles]
    holds the total [N] and the position of the last task whose sync
    returned.  Its status is [completed] exactly when the list was empty
    or the sync of the last task returned: failures of earlier tasks do
    not stand in the way, a failure of the last task leaves the job
    [running]. *)
Theorem syncFiles_job_status (listId boardId : string) (options : SyncOptions)
        (w : World) (tasks : list ClickUpTask) :
  getTasksWithAttachments svc listId (ticks w) = Ok tasks ->
  exists result w' w0 runs,
    syncFiles listId boardId options w = (Ok result, w')
    /\ taskRuns svc jobId boardId options (Z.of_nat (length tasks)) tasks 0 w0 runs w'
    /\ job_row w' = progressRow (Z.of_nat (length tasks)) (lastProgress 0 0 runs)
    /\ (job_status (job_row w') = "completed"
        <-> forall task, last runs <> Some (task, false)).
Proof.
  intros Hfetch. unfold FileSyncEngine.syncFiles.
  unfold bind, capture, remote. rewrite Hfetch.
  cbn [fst snd updateProgress updateJobRow modify ret].
  match goal with
  | |- context [FileSyncEngine.tasksLoop svc jobId tasks ?total 0 boardId options ?r ?w2] =>
      destruct (tasksLoop_report boardId options total tasks 0 0 r w2 eq_refl)
        as (result' & w' & runs & Hrun & Hruns & Hfst & _ & _ & _ & Hrow)
  end.
  exists result', w'. eexists _, runs. rewrite Hrun.
  split; [reflexivity|]. split; [exact Hruns|]. split; [exact Hrow|].
  rewrite Hrow. unfold progressRow. cbn [job_status].
  assert (Hlen : length tasks = length runs) by (rewrite <- Hfst; now rewrite length_map).
  rewrite Hlen. clear.
  destruct runs as [|run runs _] using rev_ind.
  - cbn. split; [intros _ task; discriminate|reflexivity].
  - destruct run as [t ok]. rewrite lastProgress_snoc, last_snoc, length_app.
    cbn [length]. destruct ok.
    + destruct (Z.ltb_spec (0 + Z.of_nat (length runs) + 1)
                           (Z.of_nat (length runs + 1))) as [Hlt|_]; [lia|].
      split; [intros _ task; discriminate|reflexivity].
    + pose proof (lastProgress_le runs 0 0 ltac:(lia)) as Hle.
      destruct (Z.ltb_spec (lastProgress 0 0 runs) (Z.of_nat (length runs + 1)))
        as [_|Hge]; [|lia].
      split; [discriminate|]. intros Hlast. now destruct (Hlast t).
Qed.

End SyncReport.

(** The statements on two tasks, the second of which cannot be
    downloaded. *)
Lemma syncFiles_error_list_witness :
  let tasks :=
    [demoTask "t1" "Alpha" [demoAttachment "a.pdf" "https://files/a" 10];
     demoTask "t2" "Beta" [demoAttachment "b.pdf" "https://files/broken" 10]] in
  let svc := demoServices tasks [demoItem "i1" "Alpha"; demoItem "i2" "Beta"] in
  exists result w' w0 runs,
    FileSyncEngine.syncFiles svc "job" "list" "board" demoOptions emptyWorld
    = (Ok result, w')
    /\ taskRuns svc "job" "board" demoOptions (Z.of_nat (length tasks)) tasks 0 w0 runs w'
    /\ map fst runs = tasks
    /\ map FileSyncEngine.err_taskId (FileSyncEngine.errors result)
       = map task_id (thrownTasks runs)
    /\ map FileSyncEngine.err_taskName (FileSyncEngine.errors result)
       = map task_name (thrownTasks runs)
    /\ FileSyncEngine.success result = forallb snd runs
    /\ (FileSyncEngine.success result = true <-> FileSyncEngine.errors result = []).
Proof.
  intros tasks svc.
  apply (syncFiles_error_list svc "job" "list" "board" demoOptions emptyWorld tasks).
  reflexivity.
Defined.

Lemma syncFiles_job_status_witness :
  let tasks :=
    [demoTask "t1" "Alpha" [demoAttachment "a.pdf" "https://files/a" 10];
     demoTask "t2" "Beta" [demoAttachment "b.pdf" "https://files/broken" 10]] in
  let svc := demoServices tasks [demoItem "i1" "Alpha"; demoItem "i2" "Beta"] in
  exists result w' w0 runs,
    FileSyncEngine.syncFiles svc "job" "list" "board" demoOptions emptyWorld
    = (Ok result, w')
    /\ taskRuns svc "job" "board" demoOptions (Z.of_nat (length tasks)) tasks 0 w0 runs w'
    /\ job_row w' = progressRow (Z.of_nat (length tasks)) (lastProgress 0 0 runs)
    /\ (job_status (job_row w') = "completed"
        <-> forall task, last runs <> Some (task, false)).
Proof.
  intros tasks svc.
  apply (syncFiles_job_status svc "job" "list" "board" demoOptions emptyWorld tasks).
  reflexivity.
Defined.

(** The first task finds no item and returns, the second throws, so the
    job stays [running] at 1 of 2. *)
Example syncFiles_last_failure_leaves_running :
  let run :=
    FileSyncEngine.syncFiles
      (demoServices
         [demoTask "t1" "Alpha" [demoAttachment "a.pdf" "https://files/a" 10];
          demoTask "t2" "Beta" [demoAttachment "b.pdf" "https://files/broken" 10]]
         [demoItem "i2" "Beta"])
      "job" "list" "board" demoOptions emptyWorld in
  job_row (snd run) = {| job_processed_tasks := 1; job_total_tasks := 2;
                         job_status := "running" |}
  /\ (FileSyncEngine.success <$> match fst run with Ok r => Some r | Throw _ => None end)
     = Some false.
Proof. vm_compute. auto. Qed.

(** ** Duplicate detection and file validation *)

Section Duplicates.

Import DuplicateChecker.

Lemma lower_ascii_idempotent c :
  JsString.lower_ascii (JsString.lower_ascii c) = JsString.lower_ascii c.
Proof. destruct c as [[] [] [] [] [] [] [] []]; reflexivity. Qed.

Lemma toLowerCase_idempotent s :
  JsString.toLowerCase (JsString.toLowerCase s) = JsString.toLowerCase s.
Proof.
  induction s as [|c s IH]; cbn [JsString.toLowerCase]; [reflexivity|].
  now rewrite lower_ascii_idempotent, IH.
Qed.

Lemma lastSegment_app a : forall b current,
  lastSegment (a +:+ b) current = lastSegment b (lastSegment a current).
Proof.
  induction a as [|c a IH]; intros b current.
  - now rewrite append_nil.
  - rewrite append_cons. cbn [lastSegment].
    destruct (Ascii.eqb c "."); apply IH.
Qed.

Lemma lastSegment_no_dot s : forall current,
  lacks "." s = true -> lastSegment s current = current +:+ s.
Proof.
  induction s as [|c s IH]; intros current Hno; cbn [lastSegment].
  - clear. induction current as [|d current IH]; [reflexivity|].
    now rewrite append_cons, <- IH.
  - cbn [lacks] in Hno. apply andb_true_iff in Hno as [Hc Hs].
    apply negb_true_iff in Hc. rewrite Hc, (IH _ Hs), append_assoc.
    now rewrite append_cons, append_nil.
Qed.

(** X13. [DuplicateChecker.check] reports a duplicate exactly when some
    existing asset has the same size and the same name up to letter case;
    the asset it returns is the first such one.  The file buffer plays no
    part: with or without it the answer is that of the name-and-size
    check, the hash strategy never finding anything. *)
Theorem check_is_name_and_size (attachment : ClickUpAttachment)
        (existingAssets : list MondayAsset) (fileBuffer : option string) :
  check attachment existingAssets fileBuffer = checkByNameAndSize attachment existingAssets
  /\ (isDuplicate (check attachment existingAssets fileBuffer) = true
      <-> exists asset,
            In asset existingAssets
            /\ JsString.toLowerCase (asset_name asset)
               = JsString.toLowerCase (att_title attachment)
            /\ asset_file_size asset = att_size attachment)
  /\ matchedAsset (check attachment existingAssets fileBuffer)
     = List.find (sameNameAndSize attachment) existingAssets.
Proof.
  assert (Hsame : check attachment existingAssets fileBuffer
                  = checkByNameAndSize attachment existingAssets).
  { unfold check, checkByNameAndSize, checkByHash.
    destruct (List.find _ _); cbn; [reflexivity|]. now destruct fileBuffer. }
  rewrite Hsame. split; [reflexivity|]. unfold checkByNameAndSize.
  destruct (List.find (sameNameAndSize attachment) existingAssets) as [m|] eqn:Hfind;
    cbn; (split; [|reflexivity]).
  - split; [intros _|reflexivity].
    apply List.find_some in Hfind as [Hin Hm]. exists m. split; [exact Hin|].
    unfold sameNameAndSize in Hm. apply andb_true_iff in Hm as [Hname Hsize].
    apply String.eqb_eq in Hname. apply Z.eqb_eq in Hsize. auto.
  - split; [discriminate|]. intros (asset & Hin & Hname & Hsize).
    pose proof (List.find_none _ _ Hfind asset Hin) as Hno.
    unfold sameNameAndSize in Hno.
    rewrite Hname, String.eqb_refl, Hsize, Z.eqb_refl in Hno. discriminate.
Qed.

(** X14. With a non-empty allow-list, a file named [stem.ext], where
    [ext] holds no dot, is allowed exactly when the lower-cased [ext] is
    an entry of the list; a name without any dot is its own extension. *)
Theorem isAllowedFileType_by_extension (stem ext : string) (exts : list string) :
  exts <> [] ->
  lacks "." ext = true ->
  (isAllowedFileType (stem +:+ "." +:+ ext) (Some exts) = true
   <-> In (JsString.toLowerCase ext) exts)
  /\ (isAllowedFileType ext (Some exts) = true
      <-> In (JsString.toLowerCase ext) exts).
Proof.
  intros Hne Hno. unfold isAllowedFileType.
  destruct exts as [|e exts]; [congruence|].
  rewrite lastSegment_app, (lastSegment_app "." ext).
  change (lastSegment "." (lastSegment stem EmptyString)) with EmptyString.
  rewrite (lastSegment_no_dot ext EmptyString Hno), append_nil.
  assert (Hiff : existsb (String.eqb (JsString.toLowerCase ext)) (e :: exts) = true
                 <-> In (JsString.toLowerCase ext) (e :: exts)).
  { rewrite existsb_exists. split.
    - intros (x & Hin & Heq). apply String.eqb_eq in Heq. now subst.
    - intros Hin. exists (JsString.toLowerCase ext). split; [exact Hin|].
      apply String.eqb_refl. }
  split; exact Hiff.
Qed.

(** X15. An allow-list entry that holds an upper-case letter can never
    match, because the extension is lower-cased and the entries are not:
    with a non-empty list made of such entries only, every file name is
    refused. *)
Theorem uppercase_allow_list_refuses_all (exts : list string) (filename : string) :
  exts <> [] ->
  (forall e, In e exts -> JsString.toLowerCase e <> e) ->
  isAllowedFileType filename (Some exts) = false.
Proof.
  intros Hne Hupper. unfold isAllowedFileType.
  destruct exts as [|e exts]; [congruence|].
  destruct (existsb _ _) eqn:Hex; [|reflexivity].
  apply existsb_exists in Hex as (x & Hin & Heq). apply String.eqb_eq in Heq.
  destruct (Hupper x Hin). rewrite <- Heq. apply toLowerCase_idempotent.
Qed.

End Duplicates.

Lemma isAllowedFileType_by_extension_witness :
  (DuplicateChecker.isAllowedFileType ("report" +:+ "." +:+ "PDF") (Some ["pdf"; "png"]) = true
   <-> In (JsString.toLowerCase "PDF") ["pdf"; "png"])
  /\ (DuplicateChecker.isAllowedFileType "PDF" (Some ["pdf"; "png"]) = true
      <-> In (JsString.toLowerCase "PDF") ["pdf"; "png"]).
Proof.
  apply (isAllowedFileType_by_extension "report" "PDF" ["pdf"; "png"]).
  - discriminate.
  - reflexivity.
Defined.

Lemma uppercase_allow_list_refuses_all_witness :
  DuplicateChecker.isAllowedFileType "report.PDF" (Some ["PDF"]) = false.
Proof.
  apply (uppercase_allow_list_refuses_all ["PDF"] "report.PDF").
  - discriminate.
  - intros e [<-|[]]. discriminate.
Defined.

(** ** Steps of the replication of one task *)

Section ReplicationSteps.

Import ListReplicator.

Variable svc : Services.
Variable replicationId : string.
Variable mapDescriptionToUpdate : string -> string.

Local Abbreviation transferOne := (ListReplicator.transferOne svc replicationId).
Local Abbreviation transferAttachments :=
  (ListReplicator.transferAttachments svc replicationId).
Local Abbreviation migrateComments := (ListReplicator.migrateComments svc).
Local Abbreviation migrateTask :=
  (ListReplicator.migrateTask svc replicationId mapDescriptionToUpdate).




(** X17. [migrateComments] never throws and writes to no table: it makes
    one [createUpdate] call for each comment that has text left after
    trimming, skips the blank ones, and swallows every failure. *)
Theorem migrateComments_best_effort (comments : list ClickUpComment) (itemId : string)
        (w : World) :
  migrateComments comments itemId w
  = (Ok tt, afterCalls w (length (List.filter hasText comments)) []).
Proof.
  revert w. induction comments as [|comment rest IH]; intros w.
  - cbn. now rewrite afterCalls_zero.
  - unfold ListReplicator.migrateComments in *. cbn [forEach List.filter].
    unfold bind at 1, tryCatch at 1, hasText.
    destruct (FieldMapper.trimStart (commentText comment)) as [|c s].
    + cbn [ret]. apply IH.
    + rewrite remote_run.
      assert (Hstep : forall o : Outcome unit,
                 match (match o with
                        | Ok a => (Ok a, afterCalls w 1 [])
                        | Throw e => ret tt (afterCalls w 1 [])
                        end) with
                 | (Ok _, w') =>
                     forEach rest
                       (fun comment0 =>
                          tryCatch
                            match FieldMapper.trimStart (commentText comment0) with
                            | EmptyString => ret tt
                            | String _ _ =>
                                remote (createUpdate svc itemId (commentText comment0))
                            end (fun _ => ret tt)) w'
                 | (Throw e, w') => (Throw e, w')
                 end
                 = (Ok tt, afterCalls w (S (length (List.filter hasText rest))) [])).
      { intros [[]|e]; cbn [ret]; rewrite IH, afterCalls_more; cbn [app];
          do 2 f_equal; lia. }
      cbn [length]. apply Hstep.
Qed.

(** X18. [migrateTask] stores the task's mapping right after the item
    is created, before the description, the attachments, the comments
    and the subtasks are handled: once [createItem] has answered, the
    task has a mapping when [migrateTask] ends, whether it returns or
    throws, and that mapping points to the new item unless the task was
    already mapped. *)
Theorem migrateTask_maps_before_extras (task fullTask : ClickUpTask) (boardId : string)
        (options : ReplicationOptions) (item : MondayItem) (w : World) :
  (if (includeAttachments options || includeComments options)%bool
   then getTask svc (task_id task) (ticks w) = Ok fullTask
   else fullTask = task) ->
  createItem svc boardId (task_name fullTask)
             ((if (includeAttachments options || includeComments options)%bool
               then 1 else 0) + ticks w)%nat = Ok item ->
  exists row,
    task_mappings (snd (migrateTask task boardId options w)) !! task_id task = Some row
    /\ (task_mappings w !! task_id task = None ->
        tm_monday_item_id row = item_id item)
    /\ (forall old, task_mappings w !! task_id task = Some old -> row = old).
Proof.
  intros Hfetch Hcreate.
  assert (Hprefix : exists w1,
             ticks w1 = ((if (includeAttachments options || includeComments options)%bool
                          then 1 else 0) + ticks w)%nat
             /\ task_mappings w1 = task_mappings w
             /\ (if (includeAttachments options || includeComments options)%bool
                 then remote (getTask svc (task_id task))
                 else ret task) w = (Ok fullTask, w1)).
  { destruct (includeAttachments options || includeComments options)%bool.
    - exists (afterCalls w 1 []). rewrite remote_run, Hfetch. auto.
    - exists w. subst fullTask. auto. }
  destruct Hprefix as (w1 & Hticks & Htable & Hrun).
  unfold ListReplicator.migrateTask. unfold bind at 1. rewrite Hrun.
  assert (Hcreated : MondayAPI.createItem svc boardId (task_name fullTask) w1
                     = (Ok (MondayAPI.selected item), afterCalls w1 1 [])).
  { unfold MondayAPI.createItem, bind. now rewrite remote_run, Hticks, Hcreate. }
  unfold bind at 1. rewrite Hcreated.
  unfold insertTaskMapping at 1. rewrite bind_modify.
  match goal with
  | |- context [task_mappings (snd (?tail ?w2))] =>
      assert (Hkeeps : keepsMappings tail);
        [|set (row0 := {| tm_replication_id := replicationId;
                          tm_clickup_task_id := task_id task;
                          tm_monday_item_id := item_id item;
                          tm_clickup_parent_id := task_parent task;
                          tm_monday_parent_id := None;
                          tm_sync_status := "synced" |}) in *;
          assert (Hstored : exists row,
                     task_mappings w2 !! task_id task = Some row
                     /\ (task_mappings w !! task_id task = None -> row = row0)
                     /\ (forall old, task_mappings w !! task_id task = Some old
                                     -> row = old))]
  end.
  - apply keeps_bind; [keeps_all|intros _].
    apply keeps_bind.
    { destruct (task_attachments fullTask) as [[|a l]|];
        [apply keeps_ret| |apply keeps_ret].
      destruct (includeAttachments options); [|apply keeps_ret].
      apply keeps_transferAttachments. }
    intros _. apply keeps_bind.
    { destruct (includeComments options); [|apply keeps_ret].
      apply keeps_bind; [apply keeps_remote|intros comments].
      unfold ListReplicator.migrateComments. keeps_all. }
    intros _. apply keeps_bind; [|intros _; apply keeps_ret].
    destruct (includeSubtasks options), (task_parent fullTask); try apply keeps_ret.
    apply keeps_bind; [apply keeps_remote|intros allTasks].
    apply keeps_forEach. intros subtask.
    apply keeps_migrateSubtask.
  - cbn [task_mappings afterCalls tm_clickup_task_id]. rewrite Htable.
    destruct (task_mappings w !! task_id task) as [old|] eqn:Hold.
    + exists old. rewrite Hold. repeat split; [discriminate|congruence].
    + exists row0. rewrite lookup_insert. repeat split; [|discriminate].
      destruct (decide (task_id task = task_id task)); [reflexivity|congruence].
  - destruct Hstored as (row & Hrow & Hnew & Hold). exists row.
    split; [apply Hkeeps; exact Hrow|]. split; [|exact Hold].
    intros Hfree. now rewrite (Hnew Hfree).
Qed.

End ReplicationSteps.

Lemma migrateTask_maps_before_extras_witness :
  exists row,
    task_mappings
      (snd (ListReplicator.migrateTask
              (demoServices [] []) "rep" (fun d => d)
              (demoTask "t1" "Task A" []) "b1"
              (ListReplicator.mkReplicationOptions false false true) emptyWorld))
    !! "t1" = Some row
    /\ (task_mappings emptyWorld !! "t1" = None -> tm_monday_item_id row = "item-0")
    /\ (forall old, task_mappings emptyWorld !! "t1" = Some old -> row = old).
Proof.
  apply (migrateTask_maps_before_extras
           (demoServices [] []) "rep" (fun d => d)
           (demoTask "t1" "Task A" []) (demoTask "t1" "Task A" []) "b1"
           (ListReplicator.mkReplicationOptions false false true)
           {| item_id := "item-0"; item_name := "Task A"; item_board_id := Some "b1";
              item_assets := None |}
           emptyWorld).
  - reflexivity.
  - reflexivity.
Defined.

(** Two attachments, the second with a failing download.  On an item as
    [createItem] returns it, nothing is attempted.  On an item that
    carries its board, both are attempted: under the id of a sync job two
    rows are stored, under a replication id none. *)
Example transferAttachments_rows :
  let attachments :=
    [demoAttachment "a.pdf" "https://files/a" 10;
     demoAttachment "b.pdf" "https://files/broken" 10] in
  let run replicationId item :=
    ListReplicator.transferAttachments (demoServices [] []) replicationId
                                       attachments item "t1" emptyWorld in
  run "job" (MondayAPI.selected (demoItem "i1" "Alpha"))
  = (Throw MondayAPI.noBoard, emptyWorld)
  /\ fst (run "job" (demoItem "i1" "Alpha")) = Ok tt
  /\ map ft_status (file_transfers (snd (run "job" (demoItem "i1" "Alpha"))))
     = [st_transferred; st_failed]
  /\ fst (run "replication" (demoItem "i1" "Alpha")) = Ok tt
  /\ file_transfers (snd (run "replication" (demoItem "i1" "Alpha"))) = [].
Proof. vm_compute. repeat split. Qed.

(** ** Runs of [replicate] *)

Section ReplicateRuns.

Import ListReplication.

Variable svc : Services.
Variable rsvc : ReplicationServices.
Variable replicationId : string.
Variable mapDescriptionToUpdate : string -> string.
Variables (mapFieldType sanitizeColumnName : string -> string).
Variable isoNow : string.

Local Abbreviation fieldsLoop :=
  (ListReplication.fieldsLoop svc replicationId mapFieldType sanitizeColumnName).
Local Abbreviation createFieldMappings :=
  (ListReplication.createFieldMappings svc replicationId mapFieldType sanitizeColumnName).
Local Abbreviation replicate :=
  (ListReplication.replicate svc rsvc replicationId mapDescriptionToUpdate
                             mapFieldType sanitizeColumnName isoNow).

Lemma fieldsLoop_best_effort boardId fields : forall mappings s,
  exists mappings' s',
    fieldsLoop fields boardId mappings s = (Ok mappings', s')
    /\ onlyCalls s s' (length fields)
    /\ field_mappings s'
       = field_mappings s
         ++ map (fieldRow replicationId)
                (mappedFields svc mapFieldType sanitizeColumnName boardId
                              (ticks (world s)) fields).
Proof.
  induction fields as [|field rest IH]; intros mappings s.
  - exists mappings, s. unfold onlyCalls.
    cbn [length mappedFields map ListReplication.fieldsLoop rret].
    rewrite app_nil_r, afterCalls_zero. repeat split.
  - cbn [ListReplication.fieldsLoop mappedFields length].
    unfold rbind at 1, rtryCatch, mapOneField, rbind, lift. rewrite remote_run.
    destruct (createColumn svc boardId (sanitizeColumnName (field_name field))
                           (mapFieldType (field_type field)) (ticks (world s)))
      as [column|e]; cbn [insertFieldMapping rret world replication field_mappings].
    + match goal with
      | |- context [ListReplication.fieldsLoop _ _ _ _ rest boardId ?m ?s1] =>
          destruct (IH m s1) as (mappings' & s' & Hrun & [Hworld Hrep] & Hrows)
      end.
      exists mappings', s'. rewrite Hrun. cbn in Hworld, Hrep, Hrows.
      split; [reflexivity|]. split; [split|].
      * rewrite Hworld, afterCalls_more. cbn [app]. f_equal. lia.
      * exact Hrep.
      * rewrite Hrows, <- app_assoc. reflexivity.
    + match goal with
      | |- context [ListReplication.fieldsLoop _ _ _ _ rest boardId ?m ?s1] =>
          destruct (IH m s1) as (mappings' & s' & Hrun & [Hworld Hrep] & Hrows)
      end.
      exists mappings', s'. rewrite Hrun. cbn in Hworld, Hrep, Hrows.
      split; [reflexivity|]. split; [split|].
      * rewrite Hworld, afterCalls_more. cbn [app]. f_equal. lia.
      * exact Hrep.
      * exact Hrows.
Qed.

Lemma status_run status completedAt errorMessage s :
  status <> "migrating" ->
  updateReplicationStatus status completedAt errorMessage s
  = (Ok tt,
     {| world := world s;
        replication :=
          {| rep_status := status;
             rep_completed_at := orKeep completedAt (rep_completed_at (replication s));
             rep_error_message := orKeep errorMessage (rep_error_message (replication s));
             rep_monday_board_id := rep_monday_board_id (replication s);
             rep_monday_board_name := rep_monday_board_name (replication s);
             rep_clickup_list_name := rep_clickup_list_name (replication s) |};
        field_mappings := field_mappings s |}).
Proof.
  intros Hstatus. unfold updateReplicationStatus.
  destruct (String.eqb_spec status "migrating") as [->|_]; [congruence|reflexivity].
Qed.

Lemma failed_handler {A} (e : Error) s :
  rbind (updateReplicationStatus "failed" None (message e)) (fun _ => @rthrow A e) s
  = (Throw e,
     {| world := world s;
        replication :=
          {| rep_status := "failed";
             rep_completed_at := rep_completed_at (replication s);
             rep_error_message := orKeep (message e) (rep_error_message (replication s));
             rep_monday_board_id := rep_monday_board_id (replication s);
             rep_monday_board_name := rep_monday_board_name (replication s);
             rep_clickup_list_name := rep_clickup_list_name (replication s) |};
        field_mappings := field_mappings s |}).
Proof. unfold rbind. rewrite status_run by discriminate. reflexivity. Qed.

(** X19. In every mode other than [structure_only] (so in the default
    mode [full]), [replicate] rejects: when the setup calls go through,
    the board and its columns are created and then the switch to the
    status [migrating] throws, because the object literal of
    [updateReplicationStatus] reads the variable it initializes.  The
    task list is never fetched, no task is migrated, no row is added to
    [task_mappings] or [file_transfers], and the record ends in status
    [failed] with the error's message. *)
Theorem replicate_never_migrates (clickupListId mondayBoardName mode : string)
        (options : ListReplicator.ReplicationOptions) (s : Store) :
  mode <> "structure_only" ->
  exists e s',
    replicate clickupListId mondayBoardName mode options s = (Throw e, s')
    /\ rep_status (replication s') = "failed"
    /\ rep_error_message (replication s')
       = orKeep (message e) (rep_error_message (replication s))
    /\ rep_completed_at (replication s') = rep_completed_at (replication s)
    /\ task_mappings (world s') = task_mappings (world s)
    /\ file_transfers (world s') = file_transfers (world s)
    /\ (forall listData customFields board tick,
           setupAnswers rsvc clickupListId mondayBoardName mode (ticks (world s))
           = Some (listData, customFields, board, tick) ->
           e = uninitializedUpdates
           /\ rep_monday_board_id (replication s') = Some (board_id board)
           /\ ticks (world s') = (length customFields + tick)%nat
           /\ field_mappings s'
              = field_mappings s
                ++ map (fieldRow replicationId)
                       (mappedFields svc mapFieldType sanitizeColumnName
                                     (board_id board) tick customFields)).
Proof.
  intros Hmode.
  unfold ListReplication.replicate, rtryCatch.
  unfold rbind at 1. rewrite (status_run "creating") by discriminate.
  unfold rbind at 1, lift at 1. rewrite remote_run. cbn [world replication field_mappings].
  unfold setupAnswers.
  destruct (getList rsvc clickupListId (ticks (world s))) as [listData|e0].
  2:{ cbn beta iota. rewrite failed_handler.
      eexists _, _. split; [reflexivity|]. cbn. repeat split; discriminate. }
  destruct (String.eqb_spec mode "structure_only") as [->|_]; [congruence|].
  destruct (String.eqb mode "data_only"); cbn [negb].
  - unfold rbind at 1. cbn [rret].
    unfold rbind at 1, lift at 1. rewrite remote_run.
    cbn [world replication field_mappings ticks afterCalls Nat.add].
    destruct (createBoard rsvc mondayBoardName (S (ticks (world s)))) as [board|e0].
    2:{ cbn beta iota. rewrite failed_handler.
        eexists _, _. split; [reflexivity|]. cbn. repeat split; discriminate. }
    unfold rbind at 1, updateReplication at 1, modifyReplication at 1.
    cbn [world replication field_mappings].
    unfold rbind at 1. cbn [rret].
    unfold rbind at 1. unfold rbind at 1.
    unfold updateReplicationStatus at 1. cbn [String.eqb Ascii.eqb Bool.eqb rthrow].
    cbn beta iota. rewrite failed_handler.
    eexists _, _. split; [reflexivity|]. cbn.
    do 5 (split; [reflexivity|]).
    intros l c b t [= <- <- <- <-]. cbn. now rewrite app_nil_r.
  - unfold rbind at 1, lift at 1. rewrite remote_run.
    cbn [world replication field_mappings ticks afterCalls Nat.add].
    destruct (getCustomFields rsvc clickupListId (S (ticks (world s))))
      as [customFields|e0].
    2:{ cbn beta iota. rewrite failed_handler.
        eexists _, _. split; [reflexivity|]. cbn. repeat split; discriminate. }
    unfold rbind at 1, lift at 1. rewrite remote_run.
    cbn [world replication field_mappings ticks afterCalls Nat.add].
    destruct (createBoard rsvc mondayBoardName (S (S (ticks (world s))))) as [board|e0].
    2:{ cbn beta iota. rewrite failed_handler.
        eexists _, _. split; [reflexivity|]. cbn. repeat split; discriminate. }
    unfold rbind at 1, updateReplication at 1, modifyReplication at 1.
    cbn [world replication field_mappings].
    unfold rbind at 1. unfold ListReplication.createFieldMappings.
    match goal with
    | |- context [ListReplication.fieldsLoop _ _ _ _ customFields ?b ?m ?s1] =>
        destruct (fieldsLoop_best_effort b customFields m s1)
          as (mappings & s2 & Hrun & [Hworld Hrep] & Hrows)
    end.
    rewrite Hrun. cbn [world replication field_mappings ticks] in Hworld, Hrep, Hrows.
    unfold rbind at 1. unfold rbind at 1.
    unfold updateReplicationStatus at 1. cbn [String.eqb Ascii.eqb Bool.eqb rthrow].
    cbn beta iota. rewrite failed_handler.
    eexists _, _. split; [reflexivity|].
    cbn [world replication field_mappings rep_status rep_error_message
         rep_completed_at rep_monday_board_id].
    rewrite Hrep, Hworld, Hrows. cbn.
    do 5 (split; [reflexivity|]).
    intros l c b t [= <- <- <- <-]. repeat split.
Qed.

(** X20. In [structure_only] mode [replicate] returns, with no task
    created, exactly when the list, its custom fields and the new board
    were obtained: the record is then [completed] and names the board,
    one [createColumn] call was made per custom field, and
    [field_mappings] gained one row for each field whose column was
    created (a field whose column fails is left out without an error).
    When a setup call fails, [replicate] rejects and the record is
    [failed]. *)
Theorem replicate_structure_only (clickupListId mondayBoardName : string)
        (options : ListReplicator.ReplicationOptions) (s : Store) :
  let run := replicate clickupListId mondayBoardName "structure_only" options s in
  match setupAnswers rsvc clickupListId mondayBoardName "structure_only"
                     (ticks (world s)) with
  | Some (listData, customFields, board, tick) =>
      fst run = Ok (Some {| success := true;
                            boardId := Some (board_id board);
                            tasksCreated := 0;
                            tasksFailed := 0;
                            filesTransferred := 0;
                            commentsMigrated := 0;
                            errors := [] |})
      /\ rep_status (replication (snd run)) = "completed"
      /\ rep_monday_board_id (replication (snd run)) = Some (board_id board)
      /\ rep_clickup_list_name (replication (snd run)) = Some (list_name listData)
      /\ world (snd run) = afterCalls (world s) (length customFields + 3) []
      /\ field_mappings (snd run)
         = field_mappings s
           ++ map (fieldRow replicationId)
                  (mappedFields svc mapFieldType sanitizeColumnName
                                (board_id board) tick customFields)
  | None =>
      exists e,
        fst run = Throw e
        /\ rep_status (replication (snd run)) = "failed"
        /\ field_mappings (snd run) = field_mappings s
  end.
Proof.
  cbn zeta.
  destruct (replicate clickupListId mondayBoardName "structure_only" options s)
    as [o s'] eqn:Hrun.
  cbn [fst snd]. revert Hrun.
  unfold ListReplication.replicate, rtryCatch.
  unfold rbind at 1. rewrite (status_run "creating") by discriminate.
  unfold rbind at 1, lift at 1. rewrite remote_run. cbn [world replication field_mappings].
  unfold setupAnswers.
  change (String.eqb "structure_only" "data_only") with false.
  change (String.eqb "structure_only" "structure_only") with true.
  cbn [negb].
  destruct (getList rsvc clickupListId (ticks (world s))) as [listData|e0].
  2:{ cbn beta iota. rewrite failed_handler. intros [= <- <-]. exists e0. repeat split. }
  unfold rbind at 1, lift at 1. rewrite remote_run.
  cbn [world replication field_mappings ticks afterCalls Nat.add].
  destruct (getCustomFields rsvc clickupListId (S (ticks (world s))))
    as [customFields|e0].
  2:{ cbn beta iota. rewrite failed_handler. intros [= <- <-]. exists e0. repeat split. }
  unfold rbind at 1, lift at 1. rewrite remote_run.
  cbn [world replication field_mappings ticks afterCalls Nat.add].
  destruct (createBoard rsvc mondayBoardName (S (S (ticks (world s))))) as [board|e0].
  2:{ cbn beta iota. rewrite failed_handler. intros [= <- <-]. exists e0. repeat split. }
  unfold rbind at 1, updateReplication at 1, modifyReplication at 1.
  cbn [world replication field_mappings].
  unfold rbind at 1. unfold ListReplication.createFieldMappings.
  match goal with
  | |- context [ListReplication.fieldsLoop _ _ _ _ customFields ?b ?m ?s1] =>
      destruct (fieldsLoop_best_effort b customFields m s1)
        as (mappings & s2 & Hrun & [Hworld Hrep] & Hrows)
  end.
  rewrite Hrun. cbn [world replication field_mappings ticks] in Hworld, Hrep, Hrows.
  unfold rbind at 1. cbn [rret]. cbn beta iota.
  unfold rbind at 1. rewrite (status_run "completed") by discriminate.
  cbn [rret]. intros [= <- <-].
  cbn [world replication field_mappings rep_status rep_monday_board_id
       rep_clickup_list_name].
  rewrite Hrep, Hworld, Hrows. cbn [rep_monday_board_id rep_clickup_list_name].
  rewrite !afterCalls_more. cbn [app].
  repeat split. f_equal. lia.
Qed.

End ReplicateRuns.

(** The statement on the default mode with two custom fields. *)
Lemma replicate_never_migrates_witness :
  let fields :=
    [{| ListReplication.field_id := "f1"; ListReplication.field_name := "Estimate";
        ListReplication.field_type := "number" |};
     {| ListReplication.field_id := "f2"; ListReplication.field_name := "Owner";
        ListReplication.field_type := "users" |}] in
  let run :=
    ListReplication.replicate
      (demoServices [demoTask "t1" "Task A" []] [])
      (demoReplicationServices fields)
      "rep" (fun d => d) (fun t => t) (fun n => n) "2024-01-01T00:00:00.000Z"
      "list" "Board" "full"
      (ListReplicator.mkReplicationOptions true false true) freshStore in
  fst run = Throw ListReplication.uninitializedUpdates
  /\ ListReplication.rep_status (ListReplication.replication (snd run)) = "failed"
  /\ ListReplication.rep_monday_board_id (ListReplication.replication (snd run))
     = Some "b1"
  /\ length (ListReplication.field_mappings (snd run)) = 2%nat
  /\ task_mappings (ListReplication.world (snd run)) = ∅.
Proof.
  intros fields run.
  destruct (replicate_never_migrates
              (demoServices [demoTask "t1" "Task A" []] [])
              (demoReplicationServices fields)
              "rep" (fun d => d) (fun t => t) (fun n => n) "2024-01-01T00:00:00.000Z"
              "list" "Board" "full"
              (ListReplicator.mkReplicationOptions true false true) freshStore
              ltac:(discriminate))
    as (e & s' & Hrun & Hstatus & _ & _ & Htable & _ & Hsetup).
  destruct (Hsetup _ _ _ _ eq_refl) as (-> & Hboard & _ & Hrows).
  subst run. rewrite Hrun. cbn [fst snd].
  rewrite Hstatus, Hboard, Hrows, Htable. repeat split.
Defined.

(** ** Field types and column names *)

Section FieldNames.

Import FieldMapper.

Lemma lookupKey_In {V} key (table : list (string * V)) v :
  lookupKey key table = Some v -> In (key, v) table.
Proof.
  induction table as [|[k x] table IH]; cbn [lookupKey]; [discriminate|].
  destruct (String.eqb_spec k key) as [->|_].
  - intros [= ->]. now left.
  - intros H. right. auto.
Qed.

(** X21. [mapFieldType] ignores letter case and answers with one of
    the thirteen column types of its table, [text] for a type the table
    does not hold, with two exceptions: for [constructor] and
    [__proto__] (in any letter case) the lookup finds a member inherited
    from [Object.prototype], which is returned instead of a column type.
    [getTransformationRule] is the same kind of lookup: for these two
    names it returns the inherited member too, not [undefined]; it
    returns [undefined] for every other name its table does not hold, and
    every field type with a rule of the table has its own entry in the
    table of column types. *)
Theorem mapFieldType_cases (clickupFieldType : string) :
  let key := JsString.toLowerCase clickupFieldType in
  mapFieldType key = mapFieldType clickupFieldType
  /\ (forall k, mapFieldType clickupFieldType = InheritedMember k ->
                k = key /\ (key = "constructor" \/ key = "__proto__"))
  /\ (forall t, mapFieldType clickupFieldType = ColumnType t -> In t mappedColumnTypes)
  /\ (lookupKey key typeMap = None -> key <> "constructor" -> key <> "__proto__" ->
      mapFieldType clickupFieldType = ColumnType "text")
  /\ (key = "constructor" \/ key = "__proto__" ->
      getTransformationRule clickupFieldType = Some (t_inherited key)
      /\ mapFieldType clickupFieldType = InheritedMember key)
  /\ (key <> "constructor" -> key <> "__proto__" ->
      getTransformationRule clickupFieldType = lookupKey key transformations
      /\ forall rule, getTransformationRule clickupFieldType = Some rule ->
                      In (key, rule) transformations
                      /\ exists t, lookupKey key typeMap = Some t
                                   /\ mapFieldType clickupFieldType = ColumnType t).
Proof.
  cbn zeta. unfold mapFieldType, getTransformationRule.
  rewrite toLowerCase_idempotent.
  pose proof (toLowerCase_idempotent clickupFieldType) as Hlower.
  remember (JsString.toLowerCase clickupFieldType) as key eqn:Hkey. clear Hkey.
  assert (Hinherited : existsb (String.eqb key) inheritedKeys = true ->
                       key = "constructor" \/ key = "__proto__").
  { intros Hin.
    apply existsb_exists in Hin as (x & Hx & Heq). apply String.eqb_eq in Heq. subst x.
    cbn in Hx.
    repeat (destruct Hx as [<-|Hx]; [try (now left); try (now right); discriminate Hlower|]).
    destruct Hx. }
  split; [reflexivity|]. split; [|split; [|split; [|split]]].
  - intros k. destruct (lookupKey key typeMap); [discriminate|].
    destruct (existsb (String.eqb key) inheritedKeys) eqn:Hin; [|discriminate].
    intros [= <-]. split; [reflexivity|]. now apply Hinherited.
  - intros t. destruct (lookupKey key typeMap) as [columnType|] eqn:Hfound.
    + intros [= <-]. apply lookupKey_In in Hfound. cbn in Hfound.
      repeat (destruct Hfound as [[= <- <-]|Hfound]; [cbn; tauto|]).
      destruct Hfound.
    + destruct (existsb _ _); [discriminate|]. intros [= <-]. now left.
  - intros -> Hc Hp.
    destruct (existsb (String.eqb key) inheritedKeys) eqn:Hin; [|reflexivity].
    destruct (Hinherited eq_refl); congruence.
  - intros [->| ->]; split; reflexivity.
  - intros Hc Hp.
    assert (Hnone : existsb (String.eqb key) inheritedKeys = false).
    { destruct (existsb (String.eqb key) inheritedKeys); [|reflexivity].
      destruct (Hinherited eq_refl); congruence. }
    rewrite Hnone.
    split; [now destruct (lookupKey key transformations)|].
    intros rule Hrule.
    assert (Hown : lookupKey key transformations = Some rule)
      by (now destruct (lookupKey key transformations)).
    apply lookupKey_In in Hown. split; [exact Hown|]. cbn in Hown.
    repeat (destruct Hown as [[= <- <-]|Hown]; [eexists; split; reflexivity|]).
    destruct Hown.
Qed.

(** The two names that reach [Object.prototype], and one that does not. *)
Example getTransformationRule_inherited :
  getTransformationRule "constructor" = Some (t_inherited "constructor")
  /\ getTransformationRule "__PROTO__" = Some (t_inherited "__proto__")
  /\ getTransformationRule "Number" = Some t_number
  /\ getTransformationRule "toString" = None
  /\ getTransformationRule "short_text" = None
  /\ mapFieldType "short_text" = ColumnType "text".
Proof. repeat split. Qed.

Lemma substring_length n : forall s, (String.length (String.substring 0 n s) <= n)%nat.
Proof.
  induction n as [|n IH]; intros [|c s]; cbn; try lia.
  specialize (IH s). lia.
Qed.

Lemma substring_all n : forall s, (String.length s <= n)%nat -> String.substring 0 n s = s.
Proof.
  induction n as [|n IH]; intros [|c s]; cbn; intros Hlen; try reflexivity; try lia.
  rewrite IH; [reflexivity|lia].
Qed.

Lemma allChars_substring p n : forall s,
  allChars p s = true -> allChars p (String.substring 0 n s) = true.
Proof.
  induction n as [|n IH]; intros [|c s]; cbn; try reflexivity.
  intros H. apply andb_true_iff in H as [-> Hs]. cbn. auto.
Qed.

Lemma allChars_trimStart p s : allChars p s = true -> allChars p (trimStart s) = true.
Proof.
  induction s as [|c s IH]; cbn [trimStart]; [reflexivity|].
  intros H. destruct (isWhiteSpace c); [|exact H].
  cbn in H. apply andb_true_iff in H as [_ Hs]. auto.
Qed.

Lemma allChars_trimEnd p s : allChars p s = true -> allChars p (trimEnd s) = true.
Proof.
  induction s as [|c s IH]; cbn [trimEnd allChars]; [reflexivity|].
  intros H. apply andb_true_iff in H as [Hc Hs]. specialize (IH Hs).
  destruct (trimEnd s) as [|d t].
  - destruct (isWhiteSpace c); cbn; [reflexivity|]. now rewrite Hc.
  - cbn [allChars] in *. now rewrite Hc.
Qed.

Lemma allChars_removeSpecial s : allChars keptInName (removeSpecial s) = true.
Proof.
  induction s as [|c s IH]; cbn [removeSpecial]; [reflexivity|].
  destruct (keptInName c) eqn:Hc; [|exact IH]. cbn. now rewrite Hc.
Qed.

Lemma removeSpecial_clean s : allChars keptInName s = true -> removeSpecial s = s.
Proof.
  induction s as [|c s IH]; cbn [removeSpecial allChars]; [reflexivity|].
  intros H. apply andb_true_iff in H as [-> Hs]. now rewrite IH.
Qed.

(** A string that [trimStart] returns does not start with white space,
    and neither does what [trimEnd] and [substring] make of it. *)
Lemma trimStart_fixed s : trimStart (trimStart s) = trimStart s.
Proof.
  induction s as [|c s IH]; cbn [trimStart]; [reflexivity|].
  destruct (isWhiteSpace c) eqn:Hc; [exact IH|]. cbn [trimStart]. now rewrite Hc.
Qed.

Lemma trimStart_trimEnd s : trimStart s = s -> trimStart (trimEnd s) = trimEnd s.
Proof.
  destruct s as [|c s]; [reflexivity|]. cbn [trimStart trimEnd].
  destruct (isWhiteSpace c) eqn:Hc.
  - intros H. exfalso.
    assert (Hlen : (String.length (trimStart s) <= String.length s)%nat).
    { clear. induction s as [|d s IH]; cbn [trimStart]; [lia|].
      destruct (isWhiteSpace d); cbn [String.length]; lia. }
    rewrite H in Hlen. cbn in Hlen. lia.
  - intros _. destruct (trimEnd s); cbn [trimStart]; now rewrite Hc.
Qed.

Lemma trimStart_substring n s :
  trimStart s = s -> trimStart (String.substring 0 n s) = String.substring 0 n s.
Proof.
  destruct s as [|c s]; destruct n; try reflexivity. cbn [trimStart String.substring].
  destruct (isWhiteSpace c) eqn:Hc; [|reflexivity].
  intros H. exfalso.
  assert (Hlen : (String.length (trimStart s) <= String.length s)%nat).
  { clear. induction s as [|d s IH]; cbn [trimStart]; [lia|].
    destruct (isWhiteSpace d); cbn [String.length]; lia. }
  rewrite H in Hlen. cbn in Hlen. lia.
Qed.

(** X22. A sanitized column name holds at most 255 characters, only
    letters, digits, white space, [-] and [_], and does not start with
    white space.  A name that is already of this kind, and does not end
    with white space either, is returned as it is; two names that differ
    only in a removed character get the same column name. *)
Theorem sanitizeColumnName_shape (name : string) :
  (String.length (sanitizeColumnName name) <= 255)%nat
  /\ allChars keptInName (sanitizeColumnName name) = true
  /\ trimStart (sanitizeColumnName name) = sanitizeColumnName name
  /\ (allChars keptInName name = true -> trim name = name ->
      (String.length name <= 255)%nat -> sanitizeColumnName name = name)
  /\ (forall prefix c rest,
         name = prefix +:+ String c rest -> keptInName c = false ->
         sanitizeColumnName name = sanitizeColumnName (prefix +:+ rest)).
Proof.
  unfold sanitizeColumnName, trim. split; [|split; [|split; [|split]]].
  - apply substring_length.
  - apply allChars_substring, allChars_trimEnd, allChars_trimStart,
      allChars_removeSpecial.
  - apply trimStart_substring, trimStart_trimEnd, trimStart_fixed.
  - intros Hclean Htrim Hlen.
    rewrite (removeSpecial_clean name Hclean), Htrim. now apply substring_all.
  - intros prefix c rest -> Hc. do 3 f_equal.
    induction prefix as [|d prefix IH].
    + rewrite !append_nil. cbn [removeSpecial]. now rewrite Hc.
    + rewrite !append_cons. cbn [removeSpecial]. now rewrite IH.
Qed.

End FieldNames.

(** ** Matching tasks to items *)

Section Matching.

Import FileSyncEngine.

Variable svc : Services.

Local Abbreviation findMatchingItems := (FileSyncEngine.findMatchingItems svc).

Lemma prefix_refl s : String.prefix s s = true.
Proof.
  induction s as [|c s IH]; [reflexivity|]. cbn [String.prefix].
  destruct (ascii_dec c c); [exact IH|congruence].
Qed.

Lemma includes_refl s : JsString.includes s s = true.
Proof. destruct s; cbn [JsString.includes]; now rewrite prefix_refl. Qed.

Lemma exactName_fuzzyName task item : exactName task item = true -> fuzzyName task item = true.
Proof.
  unfold exactName, fuzzyName. intros H. apply String.eqb_eq in H. rewrite H.
  now rewrite includes_refl.
Qed.

Lemma matches_fold (items : list MondayItem) (tasks : list ClickUpTask) :
  forall acc : gmap string MondayItem,
    NoDup (map task_id tasks) ->
    let matches :=
      fold_left (fun matches task =>
                   match findMatch items task with
                   | Some m => <[task_id task := m]> matches
                   | None => matches
                   end) tasks acc in
    (forall task, In task tasks ->
                  matches !! task_id task
                  = match findMatch items task with
                    | Some m => Some m
                    | None => acc !! task_id task
                    end)
    /\ (forall id, ~ In id (map task_id tasks) -> matches !! id = acc !! id).
Proof.
  induction tasks as [|t rest IH]; intros acc Hnodup; cbn zeta.
  - split; [intros task []|reflexivity].
  - cbn [fold_left map] in *. apply NoDup_cons in Hnodup as [Hfresh Hnodup].
    destruct (IH (match findMatch items t with
                  | Some m => <[task_id t := m]> acc
                  | None => acc
                  end) Hnodup) as [Hin Hout].
    assert (Hstep : forall id, id <> task_id t ->
               match findMatch items t with
               | Some m => <[task_id t := m]> acc
               | None => acc
               end !! id = acc !! id).
    { intros id Hid. destruct (findMatch items t); [|reflexivity].
      now rewrite lookup_insert_ne. }
    split.
    + intros task [<-|Hrest].
      * rewrite Hout by (rewrite <- list_elem_of_In; exact Hfresh).
        destruct (findMatch items t); [|reflexivity].
        rewrite lookup_insert. destruct (decide (task_id t = task_id t)); congruence.
      * rewrite (Hin task Hrest). destruct (findMatch items task); [reflexivity|].
        apply Hstep. intros Heq. apply Hfresh. rewrite list_elem_of_In, <- Heq.
        now apply in_map.
    + intros id Hid. cbn [In] in Hid.
      rewrite Hout by (intros Hrest; apply Hid; now right).
      apply Hstep. intros ->. apply Hid. now left.
Qed.

(** X23. [findMatchingItems] maps each task (ids being distinct) to the
    first of the items [getItems] returned with the same name up to letter case and, when there is
    none, to the first item whose name contains the task's name or is
    contained in it; tasks without such an item get no entry.  It finds
    an item for every task for which the search of [syncTaskFiles] finds
    one, but not always the same item. *)
Theorem findMatchingItems_table (tasks : list ClickUpTask) (boardId : string)
        (items : list MondayItem) (w : World) :
  fst (MondayAPI.getItems svc boardId w) = Ok items ->
  NoDup (map task_id tasks) ->
  exists matches,
    findMatchingItems tasks boardId w = (Ok matches, afterCalls w 1 [])
    /\ (forall task, In task tasks -> matches !! task_id task = findMatch items task)
    /\ (forall id, ~ In id (map task_id tasks) -> matches !! id = None)
    /\ (forall task m,
           findMatch items task = Some m ->
           In m items /\ fuzzyName task m = true
           /\ (forall item, In item items -> exactName task item = true ->
                            exactName task m = true))
    /\ (forall task m,
           List.find (MondayAPI.nameContains (task_name task)) items = Some m ->
           is_Some (findMatch items task)).
Proof.
  intros Hitems Hnodup. unfold FileSyncEngine.findMatchingItems.
  assert (Hrun : MondayAPI.getItems svc boardId w = (Ok items, afterCalls w 1 [])).
  { revert Hitems. unfold MondayAPI.getItems, bind. rewrite remote_run.
    destruct (getItems svc boardId (ticks w)); cbn; [|discriminate].
    now intros [= <-]. }
  unfold bind. rewrite Hrun. cbn [ret].
  eexists. split; [reflexivity|].
  destruct (matches_fold items tasks ∅ Hnodup) as [Hin Hout]. cbn zeta in Hin, Hout.
  split; [|split; [|split]].
  - intros task Htask. rewrite (Hin task Htask).
    destruct (findMatch items task); [reflexivity|apply lookup_empty].
  - intros id Hid. rewrite (Hout id Hid). apply lookup_empty.
  - intros task m. unfold findMatch.
    destruct (List.find (exactName task) items) as [x|] eqn:Hexact.
    + intros [= ->]. apply List.find_some in Hexact as [Hm Hx].
      repeat split; auto. now apply exactName_fuzzyName.
    + intros Hfuzzy. apply List.find_some in Hfuzzy as [Hm Hx].
      repeat split; auto. intros item Hitem Hx'.
      rewrite (List.find_none _ _ Hexact item Hitem) in Hx'. discriminate.
  - intros task m Hsearch. unfold findMatch.
    destruct (List.find (exactName task) items) as [x|]; [eauto|].
    destruct (List.find (fuzzyName task) items) as [y|] eqn:Hfuzzy; [eauto|].
    apply List.find_some in Hsearch as [Hm Hcontains].
    pose proof (List.find_none _ _ Hfuzzy m Hm) as Hno.
    unfold fuzzyName in Hno. unfold MondayAPI.nameContains in Hcontains.
    rewrite Hcontains in Hno. discriminate.
Qed.

End Matching.

Lemma findMatchingItems_table_witness :
  let tasks := [demoTask "t1" "Plan" []; demoTask "t2" "Launch" []] in
  let items := [demoItem "i1" "Plan B"; demoItem "i2" "plan"] in
  exists matches,
    FileSyncEngine.findMatchingItems (demoServices tasks items) tasks "b1" emptyWorld
    = (Ok matches, afterCalls emptyWorld 1 [])
    /\ matches !! "t1" = Some (MondayAPI.selected (demoItem "i2" "plan"))
    /\ matches !! "t2" = None.
Proof.
  intros tasks items.
  destruct (findMatchingItems_table (demoServices tasks items) tasks "b1"
                                    (map MondayAPI.selected items)
                                    emptyWorld eq_refl)
    as (matches & Hrun & Hin & _).
  - apply (bool_decide_unpack _). vm_compute. exact I.
  - exists matches. split; [exact Hrun|].
    split.
    + apply (Hin (demoTask "t1" "Plan" [])). now left.
    + apply (Hin (demoTask "t2" "Launch" [])). right. now left.
Defined.

(** ** What the status route can show after a file sync *)

Section SyncRows.

Variable P : FileTransferRow -> Prop.

Lemma appends_ret {A} (a : A) : appendsOnly P (ret a).
Proof. intros w. exists []. cbn. now rewrite app_nil_r. Qed.

Lemma appends_throw {A} (e : Error) : appendsOnly P (@throw A e).
Proof. intros w. exists []. cbn. now rewrite app_nil_r. Qed.

Lemma appends_remote {A} (oracle : nat -> Outcome A) : appendsOnly P (remote oracle).
Proof. intros w. exists []. cbn. now rewrite app_nil_r. Qed.

Lemma appends_updateJobRow row : appendsOnly P (updateJobRow row).
Proof. intros w. exists []. cbn. now rewrite app_nil_r. Qed.

Lemma appends_insertFileTransfer row : P row -> appendsOnly P (insertFileTransfer row).
Proof.
  intros Hrow w. unfold insertFileTransfer, modify. cbn [snd file_transfers].
  destruct (isSyncJob w (ft_job_id row)).
  - exists [row]. auto.
  - exists []. now rewrite app_nil_r.
Qed.

Lemma appends_bind {A B} (m : M A) (f : A -> M B) :
  appendsOnly P m -> (forall a, appendsOnly P (f a)) -> appendsOnly P (bind m f).
Proof.
  intros Hm Hf w. unfold bind. destruct (Hm w) as (rows & Hrows & Hall).
  destruct (m w) as [[a|e] w1]; cbn [snd] in *; [|eauto].
  destruct (Hf a w1) as (rows' & Hrows' & Hall').
  exists (rows ++ rows'). rewrite Hrows', Hrows, app_assoc. split; [reflexivity|].
  apply Forall_app; auto.
Qed.

Lemma appends_tryCatch {A} (m : M A) (h : Error -> M A) :
  appendsOnly P m -> (forall e, appendsOnly P (h e)) -> appendsOnly P (tryCatch m h).
Proof.
  intros Hm Hh w. unfold tryCatch. destruct (Hm w) as (rows & Hrows & Hall).
  destruct (m w) as [[a|e] w1]; cbn [snd] in *; [eauto|].
  destruct (Hh e w1) as (rows' & Hrows' & Hall').
  exists (rows ++ rows'). rewrite Hrows', Hrows, app_assoc. split; [reflexivity|].
  apply Forall_app; auto.
Qed.

Lemma appends_capture {A} (m : M A) : appendsOnly P m -> appendsOnly P (capture m).
Proof. intros Hm w. rewrite capture_run. cbn [snd]. apply Hm. Qed.

Lemma appends_forEach {A} (xs : list A) (body : A -> M unit) :
  (forall x, appendsOnly P (body x)) -> appendsOnly P (forEach xs body).
Proof.
  intros Hbody. induction xs as [|x xs IH]; cbn [forEach].
  - apply appends_ret.
  - apply appends_bind; auto.
Qed.

End SyncRows.

Section SyncStatistics.

Import FileSyncEngine.

Variable svc : Services.
Variable jobId : string.

Local Abbreviation syncFiles := (FileSyncEngine.syncFiles svc jobId).

Lemma appends_transferAttachment task attachment mondayItem existingAssets options :
  appendsOnly (syncRow jobId)
              (transferAttachment svc jobId task attachment mondayItem existingAssets
                                  options).
Proof.
  unfold transferAttachment, logFileTransfer.
  destruct (negb _); [apply appends_ret|].
  destruct (_ && _)%bool.
  { apply appends_insertFileTransfer. split; [reflexivity|now right]. }
  apply appends_bind; [apply appends_remote|intros buffer].
  apply appends_bind.
  { unfold MondayAPI.boardIdOf.
    destruct (item_board_id mondayItem); [apply appends_ret|apply appends_throw]. }
  intros id. apply appends_bind.
  { unfold ensureFileColumn.
    apply appends_bind; [apply appends_remote|intros board].
    destruct (List.find _ _); [apply appends_ret|].
    apply appends_bind; [apply appends_remote|intros c; apply appends_ret]. }
  intros column.
  apply appends_bind; [apply appends_remote|intros _].
  apply appends_insertFileTransfer. split; [reflexivity|now left].
Qed.

Lemma appends_syncTaskFiles task boardId options :
  appendsOnly (syncRow jobId) (syncTaskFiles svc jobId task boardId options).
Proof.
  unfold syncTaskFiles, MondayAPI.searchItemsByName, MondayAPI.getItems.
  apply appends_bind.
  - apply appends_bind; [|intros items; apply appends_ret].
    apply appends_bind; [apply appends_remote|intros items; apply appends_ret].
  - intros [|mondayItem rest]; [apply appends_ret|].
    unfold syncToItem. apply appends_bind.
    + apply appends_forEach. intros attachment.
      apply appends_tryCatch; [apply appends_transferAttachment|].
      intros e. apply appends_throw.
    + intros _. destruct (clickupLinkField options) as [[|c f]|];
        try apply appends_ret.
      unfold addClickUpLink.
      apply appends_tryCatch; [apply appends_remote|intros e; apply appends_ret].
Qed.

Lemma appends_tasksLoop boardId options total tasks : forall i result,
  appendsOnly (syncRow jobId) (tasksLoop svc jobId tasks total i boardId options result).
Proof.
  induction tasks as [|task rest IH]; intros i result; cbn [tasksLoop].
  - apply appends_ret.
  - apply appends_bind; [apply appends_capture, appends_syncTaskFiles|].
    intros [[]|e]; [|apply IH].
    apply appends_bind.
    + apply appends_capture. unfold updateProgress. apply appends_updateJobRow.
    + intros [[]|e]; apply IH.
Qed.

Lemma appends_syncFiles listId boardId options :
  appendsOnly (syncRow jobId) (syncFiles listId boardId options).
Proof.
  unfold FileSyncEngine.syncFiles.
  apply appends_bind.
  - apply appends_capture.
    apply appends_bind; [apply appends_remote|intros tasks].
    apply appends_bind; [unfold updateProgress; apply appends_updateJobRow|].
    intros _. apply appends_ret.
  - intros [tasks|e]; [apply appends_tasksLoop|apply appends_ret].
Qed.

(** X24. A file sync only appends rows to [file_transfers], all of
    them for its own job and all [transferred] or [skipped].  The figures
    of the status route for the job move accordingly: [failed] stays as
    it was (0 for a new job), whatever went wrong during the sync, and
    [total] grows by what [transferred] and [skipped] grow together. *)
Theorem syncFiles_never_records_failure (listId boardId : string)
        (options : SyncOptions) (w : World) :
  let before := StatusRoute.fileStats jobId (file_transfers w) in
  let after :=
    StatusRoute.fileStats jobId
                          (file_transfers (snd (syncFiles listId boardId options w))) in
  (exists rows,
      file_transfers (snd (syncFiles listId boardId options w))
      = file_transfers w ++ rows
      /\ Forall (syncRow jobId) rows)
  /\ StatusRoute.failed after = StatusRoute.failed before
  /\ StatusRoute.total after - StatusRoute.total before
     = (StatusRoute.transferred after - StatusRoute.transferred before)
       + (StatusRoute.skipped after - StatusRoute.skipped before).
Proof.
  cbn zeta.
  destruct (appends_syncFiles listId boardId options w) as (rows & Hrows & Hall).
  split; [eauto|]. rewrite Hrows. clear Hrows.
  unfold StatusRoute.fileStats, StatusRoute.filesOfJob. cbn.
  rewrite !List.filter_app, !length_app.
  induction Hall as [|row rows [Hjob Hstatus] Hall IH]; [cbn; lia|].
  cbn [List.filter]. rewrite Hjob, String.eqb_refl. cbn [List.filter length].
  assert (Hkind : StatusRoute.statusIs st_failed row = false
                  /\ ((StatusRoute.statusIs st_transferred row = true
                       /\ StatusRoute.statusIs st_skipped row = false)
                      \/ (StatusRoute.statusIs st_transferred row = false
                          /\ StatusRoute.statusIs st_skipped row = true))).
  { unfold StatusRoute.statusIs. destruct Hstatus as [Hs|Hs]; rewrite Hs; auto. }
  destruct Hkind as [Hfailed [[Ht Hs]|[Ht Hs]]]; rewrite Hfailed, Ht, Hs;
    cbn [length]; lia.
Qed.

End SyncStatistics.
